(** * VectorOps: retrieval, sanitisation and generation pipeline

    A shallow embedding of the server-side core of VectorOps:
    - [server/src/lib/hybridSearch.ts]   (hybrid retrieval and ranking),
    - [server/src/routes/chat.ts]        (input policy, context sanitiser,
                                          output policy, provider fail-over),
    - [server/src/routes/injest.ts] and [server/src/lib/chunkAndIngest.ts]
                                         (ingestion),
    - [server/src/routes/knowledge.ts]   (listing and deleting sources),
    - [server/src/routes/sessions.ts]    (session titles),
    - [server/src/lib/tokenEstimator.ts] (quota estimate),
    - [server/src/lib/embeddings.ts]     (embedding client).

    Conventions.
    - A JavaScript string is a sequence of UTF-16 code units.  The
      development covers the strings whose code units are below 256
      (Latin-1); each unit is an [ascii] and a string is a [list ascii].
    - A JavaScript number is an IEEE 754 binary64 value: [PrimFloat.float].
    - Regular expressions are interpreted by a backtracking matcher with the
      priorities of ECMAScript (ordered alternation, greedy quantifiers). *)

From Stdlib Require Import List Ascii String Bool Arith Lia ZArith.
From Stdlib Require Import Floats Permutation.
Import ListNotations.

Set Implicit Arguments.
Set Warnings "-inexact-float".
Open Scope string_scope.
Open Scope list_scope.
Open Scope nat_scope.

(* ================================================================== *)
(** ** JavaScript strings *)

Module JsString.

Definition jsstring := list ascii.

Definition str (s : string) : jsstring := list_ascii_of_string s.

(** [s.length] *)
Definition len (s : jsstring) : nat := List.length s.

Definition code (c : ascii) : nat := nat_of_ascii c.

Definition between (lo hi : nat) (c : ascii) : bool :=
  (lo <=? code c) && (code c <=? hi).

Definition isDigit (c : ascii) : bool := between 48 57 c.
Definition isUpper (c : ascii) : bool := between 65 90 c.
Definition isLower (c : ascii) : bool := between 97 122 c.
Definition isAlpha (c : ascii) : bool := isUpper c || isLower c.

(** [\w] *)
Definition isWordChar (c : ascii) : bool :=
  isAlpha c || isDigit c || (code c =? 95).

(** [\s] and the characters removed by [trim]: TAB, LF, VT, FF, CR, SPACE and
    NBSP are the white space and line terminators below 256. *)
Definition isSpace (c : ascii) : bool :=
  between 9 13 c || (code c =? 32) || (code c =? 160).

(** Line terminators below 256 (excluded by [.]). *)
Definition isLineTerminator (c : ascii) : bool :=
  (code c =? 10) || (code c =? 13).

Definition lowerAscii (c : ascii) : ascii :=
  if isUpper c then ascii_of_nat (code c + 32) else c.

Definition upperAscii (c : ascii) : ascii :=
  if isLower c then ascii_of_nat (code c - 32) else c.

(** [String.prototype.toLowerCase] on one Latin-1 code unit: A-Z and the
    accented capitals U+00C0..U+00DE (but not the multiplication sign
    U+00D7) move up by 32. *)
Definition lowerChar (c : ascii) : ascii :=
  if isUpper c || (between 192 222 c && negb (code c =? 215))
  then ascii_of_nat (code c + 32) else c.

Definition toLowerCase (s : jsstring) : jsstring := map lowerChar s.

Fixpoint trimStart (s : jsstring) : jsstring :=
  match s with
  | c :: s' => if isSpace c then trimStart s' else s
  | [] => []
  end.

Definition trimEnd (s : jsstring) : jsstring := rev (trimStart (rev s)).

Definition trim (s : jsstring) : jsstring := trimEnd (trimStart s).

Definition eqc (a b : ascii) : bool := Ascii.eqb a b.

Fixpoint startsWith (p s : jsstring) : bool :=
  match p, s with
  | [], _ => true
  | a :: p', b :: s' => eqc a b && startsWith p' s'
  | _ :: _, [] => false
  end.

(** [s.includes(p)] *)
Fixpoint includes (p s : jsstring) : bool :=
  startsWith p s ||
  match s with
  | [] => false
  | _ :: s' => includes p s'
  end.

(** [s.endsWith(p)] *)
Definition endsWith (p s : jsstring) : bool := startsWith (rev p) (rev s).

Fixpoint eqs (a b : jsstring) : bool :=
  match a, b with
  | [], [] => true
  | x :: a', y :: b' => eqc x y && eqs a' b'
  | _, _ => false
  end.

(** [s.split("\n")]: the lines of [s]; never empty. *)
Fixpoint splitLines (s : jsstring) : list jsstring :=
  match s with
  | [] => [[]]
  | c :: s' =>
      if code c =? 10 then [] :: splitLines s'
      else match splitLines s' with
           | l :: ls => (c :: l) :: ls
           | [] => [[c]]
           end
  end.

(** [parts.join(sep)] *)
Fixpoint join (sep : jsstring) (parts : list jsstring) : jsstring :=
  match parts with
  | [] => []
  | [p] => p
  | p :: ps => p ++ sep ++ join sep ps
  end.

Definition LF : jsstring := ["010"%char].

(** Decimal rendering of a natural number, as template literals do. *)
Fixpoint digitsOf (fuel n : nat) (acc : jsstring) : jsstring :=
  match fuel with
  | 0 => acc
  | S f =>
      let d := ascii_of_nat (48 + n mod 10) in
      if n <? 10 then d :: acc else digitsOf f (n / 10) (d :: acc)
  end.

Definition natToString (n : nat) : jsstring := digitsOf (S n) n [].

End JsString.

Import JsString.

(* ================================================================== *)
(** ** Regular expressions

    The fragment of ECMAScript patterns used by the server: character
    classes, concatenation, ordered alternation, greedy bounded and unbounded
    repetition and the word-boundary assertion.  The matcher is written in
    continuation-passing style like the specification's; a continuation
    receives the code unit before the current position (for [\b]) and the
    rest of the input. *)

Module Regex.

Inductive re : Type :=
| Eps
| Chr (p : ascii -> bool)
| Seq (a b : re)
| Alt (a b : re)
| Rep (a : re) (lo : nat) (hi : option nat)   (* a{lo,hi}, a{lo,} *)
| WordB.                                        (* \b *)

Definition cont := option ascii -> jsstring -> option jsstring.
Definition matcher := cont -> cont.

Definition wordBefore (prev : option ascii) : bool :=
  match prev with Some c => isWordChar c | None => false end.

Definition wordAfter (s : jsstring) : bool :=
  match s with c :: _ => isWordChar c | [] => false end.

Definition atBoundary (prev : option ascii) (s : jsstring) : bool :=
  xorb (wordBefore prev) (wordAfter s).

(** [lo] mandatory iterations. *)
Fixpoint repMin (m : matcher) (n : nat) (k : cont) : cont :=
  match n with
  | 0 => k
  | S n' => m (repMin m n' k)
  end.

(** Up to [n] further iterations, longest first; an iteration that consumes
    nothing is rejected, as RepeatMatcher does once the minimum is met. *)
Fixpoint repOpt (m : matcher) (n : nat) (k : cont) : cont :=
  match n with
  | 0 => k
  | S n' => fun prev s =>
      match m (fun prev' s' =>
                 if len s' <? len s then repOpt m n' k prev' s'
                 else None) prev s with
      | Some r => Some r
      | None => k prev s
      end
  end.

Fixpoint mt (r : re) (k : cont) (prev : option ascii) (s : jsstring)
  {struct r} : option jsstring :=
  match r with
  | Eps => k prev s
  | Chr p =>
      match s with
      | c :: s' => if p c then k (Some c) s' else None
      | [] => None
      end
  | Seq a b => mt a (mt b k) prev s
  | Alt a b =>
      match mt a k prev s with
      | Some x => Some x
      | None => mt b k prev s
      end
  | Rep a lo hi =>
      repMin (mt a) lo
        (fun prev' s' =>
           match hi with
           | Some h => repOpt (mt a) (h - lo) k prev' s'
           | None => repOpt (mt a) (len s') k prev' s'
           end) prev s
  | WordB => if atBoundary prev s then k prev s else None
  end.

Definition accept : cont := fun _ s => Some s.

(** A match attempt at the current position; the result is the input left
    after the match. *)
Definition matchHere (r : re) (prev : option ascii) (s : jsstring)
  : option jsstring := mt r accept prev s.

(** [r.test(s)] for a pattern whose [lastIndex] is 0. *)
Fixpoint testFrom (r : re) (prev : option ascii) (s : jsstring) : bool :=
  match matchHere r prev s with
  | Some _ => true
  | None =>
      match s with
      | [] => false
      | c :: s' => testFrom r (Some c) s'
      end
  end.

Definition test (r : re) (s : jsstring) : bool := testFrom r None s.

(** [s.replace(r, by)] for a pattern without the [g] flag: the leftmost
    match only. *)
Fixpoint replaceFirstFrom (r : re) (by_ : jsstring) (prev : option ascii)
  (s : jsstring) : jsstring :=
  match matchHere r prev s with
  | Some rest => by_ ++ rest
  | None =>
      match s with
      | [] => []
      | c :: s' => c :: replaceFirstFrom r by_ (Some c) s'
      end
  end.

Definition replaceFirst (r : re) (by_ s : jsstring) : jsstring :=
  replaceFirstFrom r by_ None s.

(** [s.replace(r, by)] for a pattern with the [g] flag: every match, left to
    right, matches not overlapping.  [skip] counts the code units of the
    current match still to be passed over; after an empty match the scan
    advances by one unit. *)
Fixpoint replaceAllFrom (r : re) (by_ : jsstring) (skip : nat)
  (prev : option ascii) (s : jsstring) : jsstring :=
  match skip with
  | S n =>
      match s with
      | [] => []
      | c :: s' => replaceAllFrom r by_ n (Some c) s'
      end
  | 0 =>
      match matchHere r prev s with
      | Some rest =>
          by_ ++
          match s with
          | [] => []
          | c :: s' =>
              let n := len s - len rest in
              if n =? 0 then c :: replaceAllFrom r by_ 0 (Some c) s'
              else replaceAllFrom r by_ (n - 1) (Some c) s'
          end
      | None =>
          match s with
          | [] => []
          | c :: s' => c :: replaceAllFrom r by_ 0 (Some c) s'
          end
      end
  end.

Definition replaceAll (r : re) (by_ s : jsstring) : jsstring :=
  replaceAllFrom r by_ 0 None s.

(** [s.match(r)?.length || 0] for a global pattern: the number of matches. *)
Fixpoint countFrom (r : re) (skip : nat) (prev : option ascii)
  (s : jsstring) : nat :=
  match skip with
  | S n =>
      match s with
      | [] => 0
      | c :: s' => countFrom r n (Some c) s'
      end
  | 0 =>
      match matchHere r prev s with
      | Some rest =>
          1 + match s with
              | [] => 0
              | c :: s' =>
                  let n := len s - len rest in
                  countFrom r (if n =? 0 then 0 else n - 1) (Some c) s'
              end
      | None =>
          match s with
          | [] => 0
          | c :: s' => countFrom r 0 (Some c) s'
          end
      end
  end.

Definition countMatches (r : re) (s : jsstring) : nat := countFrom r 0 None s.

(** *** Pattern notation *)

Definition anyOf (s : string) (c : ascii) : bool :=
  existsb (eqc c) (str s).

(** A class under the [i] flag: two code units agree when their canonical
    (upper-case) forms do; units above 127 never fold onto ASCII. *)
Definition ci (p : ascii -> bool) (c : ascii) : bool :=
  p (lowerAscii c) || p (upperAscii c).

Definition lit1 (c : ascii) : re := Chr (eqc c).
Definition lit1i (c : ascii) : re := Chr (ci (eqc c)).

Fixpoint seqOf (rs : list re) : re :=
  match rs with
  | [] => Eps
  | [r] => r
  | r :: rs' => Seq r (seqOf rs')
  end.

Fixpoint altOf (rs : list re) : re :=
  match rs with
  | [] => Chr (fun _ => false)
  | [r] => r
  | r :: rs' => Alt r (altOf rs')
  end.

(** A literal, case-sensitive and case-insensitive. *)
Definition lit (s : string) : re := seqOf (map lit1 (str s)).
Definition liti (s : string) : re := seqOf (map lit1i (str s)).

Definition words (ss : list string) : re := altOf (map lit ss).
Definition wordsi (ss : list string) : re := altOf (map liti ss).

Definition opt (r : re) : re := Rep r 0 (Some 1).
Definition star (r : re) : re := Rep r 0 None.
Definition plus (r : re) : re := Rep r 1 None.
Definition range (r : re) (lo hi : nat) : re := Rep r lo (Some hi).
Definition atLeast (r : re) (lo : nat) : re := Rep r lo None.
Definition times (r : re) (n : nat) : re := Rep r n (Some n).

Definition digit : re := Chr isDigit.          (* \d, [0-9] *)
Definition space : re := Chr isSpace.          (* \s *)
Definition dot : re := Chr (fun c => negb (isLineTerminator c)).   (* . *)

End Regex.

Import Regex.

(* ================================================================== *)
(** ** Chat route: policies and context sanitiser ([routes/chat.ts]) *)

Module Chat.

(** A RegExp object: its pattern and its [g] flag.  The [i] flag is folded
    into the pattern ([liti], [wordsi], [ci]). *)
Record regexp : Type := { body : re; global : bool }.

Definition rx (r : re) : regexp := {| body := r; global := false |}.
Definition rxg (r : re) : regexp := {| body := r; global := true |}.

(** [p.test(s)]; every pattern is tested with [lastIndex = 0]: the
    module-level patterns with the [g] flag are only used by [replace], and
    the patterns of [semanticRedactContext] are created afresh by each call. *)
Definition rtest (p : regexp) (s : jsstring) : bool := test (body p) s.

(** [s.replace(p, by)] *)
Definition replace (p : regexp) (by_ s : jsstring) : jsstring :=
  if global p then replaceAll (body p) by_ s
  else replaceFirst (body p) by_ s.

Definition bounded (r : re) : re := Seq WordB (Seq r WordB).

Definition BLOCKED_PATTERNS : list regexp :=
  [ rx (bounded (wordsi ["bank"; "banking"; "account"; "acc"; "acct"; "ifsc";
                         "routing"; "swift"]));
    rx (bounded (wordsi ["credit card"; "debit card"; "card number"]));
    rx (bounded (wordsi ["account number"; "account#"; "acct#"]));
    rx (bounded (wordsi ["ssn"; "social security"; "tax id"; "tin"; "aadhar";
                         "pan"; "gstin"]));
    rx (bounded (altOf [seqOf [liti "driver"; opt dot; liti "license"];
                        liti "passport"; liti "visa"]));
    rx (bounded (wordsi ["password"; "passwd"; "pwd"; "pin"; "otp";
                         "verification code"]));
    rx (bounded (wordsi ["api key"; "secret"; "private key"; "token"]));
    rx (wordsi ["ignore previous"; "ignore all prior"; "forget about"]);
    rx (wordsi ["system message"; "system prompt"]);
    rx (wordsi ["you are actually"; "pretend that"; "act as if"]);
    rx (wordsi ["override"; "override directive"; "new instructions"]);
    rx (wordsi ["jailbreak"; "bypass"; "circumvent"; "override"]) ].

Definition violatesInputPolicy (query : jsstring) : bool :=
  let violations := filter (fun p => rtest p query) BLOCKED_PATTERNS in
  0 <? List.length violations.

Definition SENSITIVE_CONTEXT_PATTERNS : list regexp :=
  [ rxg (bounded (range digit 12 16));
    rxg (bounded (range digit 9 12));
    rx (liti "account number");
    rx (liti "ifsc");
    rx (liti "password");
    rx (liti "secret");
    rx (liti "token") ].

Definition injectionPatterns : list regexp :=
  [ rx (liti "always respond with");
    rx (seqOf [liti "forget "; opt (wordsi ["about "; "the "]);
               liti "previous"]);
    rx (seqOf [liti "ignore "; wordsi ["above"; "previous"; "all prior"]]);
    rx (seqOf [liti "override "; wordsi ["above"; "previous"]]);
    rx (liti "system message");
    rx (seqOf [liti "new instruction"; opt (liti "s"); lit ":"]);
    rx (liti "you are actually");
    rx (liti "pretend that");
    rx (liti "act as if") ].

Definition detectInstructionInjection (text : jsstring) : bool :=
  existsb (fun p => rtest p text) injectionPatterns.

Definition REDACTED : jsstring := str "[REDACTED]".

Definition instructionCues : list jsstring :=
  [str "always say"; str "ignore"; str "override"; str "new instructions"].

(** The predicate of the line filter: [true] keeps the line. *)
Definition keepLine (line : jsstring) : bool :=
  let lowerLine := toLowerCase line in
  negb (existsb (fun cue => includes cue lowerLine) instructionCues).

Definition filterInstructionContent (text : jsstring) : jsstring :=
  let lines := splitLines text in
  let filteredLines := filter keepLine lines in
  join LF filteredLines.

Definition hashOrSpace (c : ascii) : bool := (code c =? 35) || isSpace c.
Definition digitOrDash (c : ascii) : bool := isDigit c || (code c =? 45).
Definition digitOrSpace (c : ascii) : bool := isDigit c || isSpace c.
Definition spaceOrColon (c : ascii) : bool := isSpace c || (code c =? 58).
Definition alnum (c : ascii) : bool := isAlpha c || isDigit c.
(** [[a-zA-Z0-9_\-\.]] *)
Definition keyChar (c : ascii) : bool :=
  isWordChar c || (code c =? 45) || (code c =? 46).
Definition colon : re := Chr (fun c => code c =? 58).

Definition sensitivePatterns : list regexp :=
  [ (* account *)
    rxg (seqOf [wordsi ["account"; "acc"; "acct"]; star (Chr hashOrSpace);
                opt (wordsi ["num"; "number"]); star space; opt colon;
                star space; plus (Chr digitOrDash)]);
    (* card; under the i flag the class [^a-z] excludes both cases *)
    rxg (seqOf [wordsi ["credit"; "debit"; "card"]; star (Chr hashOrSpace);
                liti "num"; star (Chr (fun c => negb (isAlpha c)));
                range (Chr digitOrSpace) 12 19]);
    (* ssn-like *)
    rxg (wordsi ["ssn"; "social security"; "tax id"; "tin"]);
    (* secret; this pattern has no i flag *)
    rxg (seqOf [words ["api"; "auth"; "secret"; "password"; "passwd"; "pwd"];
                star (Chr hashOrSpace); lit "key"; star space; opt colon;
                star space; atLeast (Chr keyChar) 8]);
    (* pin-like *)
    rxg (seqOf [wordsi ["pin"; "code"; "otp"; "verification"]; star space;
                opt colon; star space; range digit 4 6]);
    (* indian-id *)
    rxg (altOf [bounded (liti "aadhar"); bounded (liti "pan");
                bounded (liti "gstin")]);
    (* pii *)
    rxg (seqOf [wordsi ["name"; "email"; "phone"; "address"; "ssn";
                        "date of birth"]; colon; star space;
                plus (Chr (fun c => negb ((code c =? 44) || (code c =? 46))))])
  ].

Definition redactStep (redacted : jsstring) (p : regexp) : jsstring :=
  if rtest p redacted then replace p REDACTED redacted else redacted.

Definition semanticRedactContext (text : jsstring) : jsstring :=
  fold_left redactStep sensitivePatterns text.

Record Validation : Type := { safe : bool; issues : list jsstring }.

Definition validateContextSafety (context : jsstring) : Validation :=
  let i1 := if detectInstructionInjection context
            then [str "Instruction injection attempt detected"] else [] in
  let redactableLength := countMatches (lit "[REDACTED]") context in
  let i2 := if 5 <? redactableLength
            then [str "High volume of redacted content (" ++
                  natToString redactableLength ++ str " instances)"]
            else [] in
  let i3 := if 50 * 1000 <? len context
            then [str "Context exceeds 50KB (attention dilution risk)"]
            else [] in
  let issues := i1 ++ i2 ++ i3 in
  {| safe := List.length issues =? 0; issues := issues |}.

(** Stage 1 of the sanitiser: the loop over [SENSITIVE_CONTEXT_PATTERNS]. *)
Definition redactPatterns (text : jsstring) : jsstring :=
  fold_left (fun sanitized p => replace p REDACTED sanitized)
            SENSITIVE_CONTEXT_PATTERNS text.

Definition sanitizeContext (text : jsstring) : jsstring :=
  let sanitized := redactPatterns text in
  let sanitized := filterInstructionContent sanitized in
  let sanitized := semanticRedactContext sanitized in
  sanitized.

(** The report the sanitiser computes (and logs) for its result. *)
Definition sanitizeReport (text : jsstring) : Validation :=
  validateContextSafety (sanitizeContext text).

Definition quote : ascii := ascii_of_nat 34.
Definition isQuote (c : ascii) : bool := (code c =? 39) || (code c =? 34).

Definition d09 : re := digit.
Definition cls (s : string) : re := Chr (anyOf s).

Definition OUTPUT_BLOCK_PATTERNS : list regexp :=
  [ (* payment card numbers *)
    rx (bounded (altOf
          [ seqOf [lit "4"; times d09 12; opt (times d09 3)];
            seqOf [lit "5"; cls "12345"; times d09 14];
            seqOf [lit "3"; cls "47"; times d09 13];
            seqOf [lit "3";
                   altOf [seqOf [lit "0"; cls "012345"];
                          seqOf [cls "68"; d09]];
                   times d09 11];
            seqOf [lit "6";
                   altOf [lit "011"; seqOf [lit "5"; times d09 2]];
                   times d09 12];
            seqOf [altOf [lit "2131"; lit "1800";
                          seqOf [lit "35"; times digit 3]];
                   times digit 11] ]));
    rx (seqOf [WordB; wordsi ["account"; "acc"; "acct"];
               star (Chr hashOrSpace); opt (wordsi ["num"; "number"]);
               star space; opt colon; star space;
               range (Chr digitOrDash) 8 20]);
    rx (seqOf [wordsi ["ssn"; "social security"; "tax id"];
               star (Chr spaceOrColon); range (Chr digitOrDash) 9 11]);
    rx (seqOf [wordsi ["ifsc"; "swift"; "routing"];
               star (Chr spaceOrColon); range (Chr alnum) 8 20]);
    rx (seqOf [altOf [seqOf [liti "api"; opt (cls "_-"); liti "key"];
                      seqOf [liti "secret"; opt (cls "_-"); liti "key"];
                      seqOf [liti "auth"; opt (cls "_-"); liti "token"]];
               star (Chr spaceOrColon); atLeast (Chr keyChar) 20]);
    rx (seqOf [wordsi ["aadhar"; "pan"; "gstin"];
               star (Chr spaceOrColon); range (Chr alnum) 8 12]);
    rx (seqOf [WordB; wordsi ["my"; "your"]; plus space;
               wordsi ["name"; "email"; "phone"; "ssn"; "account"];
               star space; opt colon; star space; opt (Chr isQuote);
               plus (Chr (fun c => negb (isQuote c || (code c =? 10))));
               opt (Chr isQuote)]) ].

Definition violatesOutputPolicy (text : jsstring) : bool :=
  let violations := filter (fun p => rtest p text) OUTPUT_BLOCK_PATTERNS in
  0 <? List.length violations.

End Chat.

(* ================================================================== *)
(** ** Errors and fallible calls *)

(** A thrown JavaScript value, as far as the server inspects it: the
    optional [statusCode] property and the message. *)
Record JsError : Type := { statusCode : option nat; message : jsstring }.

Definition mkError (msg : string) : JsError :=
  {| statusCode := None; message := str msg |}.

(** The outcome of a call that may throw (or of a promise that may
    reject). *)
Inductive Result (A : Type) : Type :=
| Ok (a : A)
| Throw (e : JsError).

Arguments Ok {A} a.
Arguments Throw {A} e.

(* ================================================================== *)
(** ** Hybrid search ([lib/hybridSearch.ts]) *)

Module HybridSearch.

Definition SEMANTIC_WEIGHT : float := 0.7%float.
Definition LEXICAL_WEIGHT : float := 0.3%float.

(** The metadata stored with a chunk ([ChromaMetadata]); lexical results
    carry the file path only. *)
Record Meta : Type := {
  filePath : option jsstring;
  fileHash : option jsstring;
  chunkIndex : option nat
}.

Inductive Source : Type := semantic | lexical.

(** An element of [combined]. *)
Record Doc : Type := {
  d_content : jsstring;
  d_meta : option Meta;
  d_score : float;
  d_source : Source
}.

Record HybridSearchResult : Type := {
  content : jsstring;
  meta : option Meta;
  score : float;
  source : Source;
  finalScore : float
}.

(** A result of [miniSearch.search]: the stored fields and the score. *)
Record LexicalHit : Type := {
  l_id : jsstring;
  l_content : jsstring;
  l_filePath : jsstring;
  l_score : float
}.

(** The answer of [collection.query]: one row per query text. *)
Record QueryResult : Type := {
  documents : option (list (list (option jsstring)));
  metadatas : option (list (list (option Meta)));
  distances : option (list (list (option float)))
}.

(** The two retrieval collaborators.  [miniSearch.search] is a synchronous
    call; [getOrCreateCollection] and [collection.query] are awaited. *)
Record Retrieval : Type := {
  lexicalSearch : jsstring -> Result (list LexicalHit);
  getOrCreateCollection : Result unit;
  collectionQuery : jsstring -> Result QueryResult
}.

(** [rows?.[0]?.[i]] *)
Definition cell {A : Type} (rows : option (list (list (option A))))
  (i : nat) : option A :=
  match rows with
  | Some (row :: _) =>
      match nth_error row i with
      | Some (Some a) => Some a
      | _ => None
      end
  | _ => None
  end.

Fixpoint semanticRows (qr : QueryResult) (i : nat)
  (docs : list (option jsstring)) : list Doc :=
  match docs with
  | [] => []
  | doc :: rest =>
      let dist := match cell (distances qr) i with
                  | Some d => d
                  | None => 0%float
                  end in
      match doc with
      | Some c =>
          {| d_content := c;
             d_meta := cell (metadatas qr) i;
             d_score := (1 - dist)%float;
             d_source := semantic |} :: semanticRows qr (S i) rest
      | None => semanticRows qr (S i) rest
      end
  end.

Definition semanticDocs (qr : QueryResult) : list Doc :=
  match documents qr with
  | Some (row :: _) => semanticRows qr 0 row
  | _ => []
  end.

Definition lexicalDocs (hits : list LexicalHit) : list Doc :=
  map (fun r =>
         {| d_content := l_content r;
            d_meta := Some {| filePath := Some (l_filePath r);
                              fileHash := None; chunkIndex := None |};
            d_score := l_score r;
            d_source := lexical |}) hits.

Definition weigh (d : Doc) : HybridSearchResult :=
  {| content := d_content d;
     meta := d_meta d;
     score := d_score d;
     source := d_source d;
     finalScore := match d_source d with
                   | semantic => (d_score d * SEMANTIC_WEIGHT)%float
                   | lexical => (d_score d * LEXICAL_WEIGHT)%float
                   end |}.

(** [Array.prototype.sort] with the comparator
    [(a, b) => b.finalScore - a.finalScore]: the sort is stable, and an
    element moves behind another only when the comparator is positive. *)
Definition after (a b : HybridSearchResult) : bool :=
  (0 <? finalScore b - finalScore a)%float.

Fixpoint insert (x : HybridSearchResult) (l : list HybridSearchResult)
  : list HybridSearchResult :=
  match l with
  | [] => [x]
  | y :: l' => if after x y then y :: insert x l' else x :: l
  end.

Definition sortByFinalScore (l : list HybridSearchResult)
  : list HybridSearchResult := fold_right insert [] l.

Definition rank (combined : list Doc) : list HybridSearchResult :=
  firstn 5 (sortByFinalScore (map weigh combined)).

Definition hybridSearch (env : Retrieval) (query : jsstring)
  : Result (list HybridSearchResult) :=
  match trim query with
  | [] => Ok []
  | _ =>
      match lexicalSearch env query with
      | Throw e => Throw e
      | Ok lexicalResults =>
          match getOrCreateCollection env with
          | Throw e => Throw e
          | Ok _ =>
              match collectionQuery env query with
              | Throw e => Throw e
              | Ok semanticResults =>
                  let combined :=
                    semanticDocs semanticResults ++
                    lexicalDocs lexicalResults in
                  Ok (rank combined)
              end
          end
      end
  end.

End HybridSearch.

(* ================================================================== *)
(** ** Chat route: the request handler ([routes/chat.ts]) *)

Module ChatRoute.
Import Chat HybridSearch.

Definition PRIMARY_MODEL : jsstring := str "gemini-2.5-flash".
Definition DEFAULT_FALLBACK_MODEL : jsstring := str "openai/gpt-oss-120b:free".
Definition DEFAULT_MIN_CONTEXT_SCORE : float := 0.25%float.
Definition DEFAULT_SUMMARY_TURN_INTERVAL : Z := 6%Z.
Definition DEFAULT_SUMMARY_MAX_MESSAGES : Z := 12%Z.

(** The module-level constants read from [process.env]; the numbers that
    count turns, messages and milliseconds are integers. *)
Record Config : Type := {
  FALLBACK_MODEL : jsstring;
  MIN_CONTEXT_SCORE : float;
  ENABLE_ROLLING_SUMMARY : bool;
  RATE_LIMIT_BACKOFF_MS : Z;
  OPENAI_API_KEY : option jsstring;
  SUMMARY_TURN_INTERVAL : Z;
  SUMMARY_MAX_MESSAGES : Z;
  SUMMARY_MODEL : jsstring
}.

(** JavaScript truthiness of an optional string. *)
Definition truthy (v : option jsstring) : bool :=
  match v with
  | Some (_ :: _) => true
  | _ => false
  end.

(** [a || b] on optional strings. *)
Definition orElse (a b : option jsstring) : option jsstring :=
  if truthy a then a else b.

Record TextPart : Type := { p_type : jsstring; p_text : jsstring }.

Record Message : Type := {
  parts : option (list TextPart);
  metadata_sessionId : option jsstring
}.

Record Request : Type := {
  body_sessionId : option jsstring;
  body_messages : option (list Message);
  query_sessionId : option jsstring
}.

(** What a call of [streamText] does: it throws at once, or it returns a
    result whose [text] promise rejects, or one whose stream finishes with a
    full text. *)
Inductive Generation : Type :=
| GenThrows (e : JsError)
| GenRejects (e : JsError)
| GenText (t : jsstring).

Inductive Provider : Type := Google | OpenAI.

(** A stored message ([ChatMessage]), as far as the summary reads it. *)
Inductive Role : Type := RoleUser | RoleAssistant.

Record ChatMessage : Type := { m_role : Role; m_content : jsstring }.

(** The collaborators of one request.  The collaborators of [onFinish] take
    the number of [streamText] calls made so far as their first argument: it
    tells the finished streams of one request apart, so that each of their
    calls may have an outcome of its own. *)
Record World : Type := {
  config : Config;
  now : Z;                                        (* Date.now() *)
  isValidObjectId : jsstring -> bool;             (* ObjectId.isValid *)
  saveUserMessage : jsstring -> jsstring -> Result unit;
  retrieval : Retrieval;
  getChatSessionSummary : jsstring -> Result jsstring;
  (** the outcome of the n-th call of [streamText] in this request *)
  streamText : nat -> Provider -> jsstring -> Generation;
  (** [saveMessage] for the assistant *)
  saveAssistantMessage : nat -> jsstring -> jsstring -> Result unit;
  (** [Date.now()] as read by [maybeUpdateRollingSummary] *)
  finishNow : nat -> Z;
  countMessagesBySession : nat -> jsstring -> Result nat;
  (** [getChatSessionSummary] as read by [maybeUpdateRollingSummary] *)
  summaryAtFinish : nat -> jsstring -> Result jsstring;
  getRecentMessagesBySession :
    nat -> jsstring -> Z -> Result (list ChatMessage);
  updateChatSessionSummary : nat -> jsstring -> jsstring -> Result unit
}.

(** The calls made to collaborators, in order. *)
Inductive Event : Type :=
| SaveMessage (sessionId role content : jsstring)
| Search (query : jsstring)
| GetSummary (sessionId : jsstring)
| StreamText (provider : Provider) (modelId modelLabel userText : jsstring)
| CountMessages (sessionId : jsstring)
| RecentMessages (sessionId : jsstring) (limit : Z)
| SummaryStream (provider : Provider) (modelId systemText userText : jsstring)
| UpdateSummary (sessionId summary : jsstring).

Record St : Type := {
  trace : list Event;
  calls : nat;                 (* calls of streamText so far *)
  rateLimitedUntil : Z
}.

Definition M (A : Type) : Type := St -> Result A * St.

Definition ret {A : Type} (a : A) : M A := fun st => (Ok a, st).

Definition throw {A : Type} (e : JsError) : M A := fun st => (Throw e, st).

Definition bind {A B : Type} (m : M A) (f : A -> M B) : M B :=
  fun st =>
    match m st with
    | (Ok a, st') => f a st'
    | (Throw e, st') => (Throw e, st')
    end.

(** [try { m } catch (error) { h error }] *)
Definition tryCatch {A : Type} (m : M A) (h : JsError -> M A) : M A :=
  fun st =>
    match m st with
    | (Ok a, st') => (Ok a, st')
    | (Throw e, st') => h e st'
    end.

Definition emit (e : Event) : M unit :=
  fun st => (Ok tt, {| trace := trace st ++ [e]; calls := calls st;
                       rateLimitedUntil := rateLimitedUntil st |}).

Definition lift {A : Type} (r : Result A) : M A := fun st => (r, st).

(** A call of a collaborator of [onFinish]. *)
Definition liftAt {A : Type} (f : nat -> Result A) : M A :=
  fun st => (f (calls st), st).

Declare Scope chat_scope.
Delimit Scope chat_scope with chat.
Notation "x <- m ;; k" := (bind m (fun x => k))
  (at level 61, m at next level, right associativity) : chat_scope.
Notation "m ;;; k" := (bind m (fun _ => k))
  (at level 61, right associativity) : chat_scope.
Local Open Scope chat_scope.

Definition rateLimitPattern : regexp :=
  rx (wordsi ["rate limit"; "quota"; "resource_exhausted"]).

Definition isRateLimitError (error : JsError) : bool :=
  match statusCode error with
  | Some 429 => true
  | _ => rtest rateLimitPattern (message error)
  end.

Definition markRateLimited (w : World) (error : JsError) : M unit :=
  fun st =>
    if isRateLimitError error
    then (Ok tt, {| trace := trace st; calls := calls st;
                    rateLimitedUntil :=
                      (now w + RATE_LIMIT_BACKOFF_MS (config w))%Z |})
    else (Ok tt, st).

Definition WARNING : jsstring :=
  str "WARNING: This response was blocked because it contains sensitive information that should not be shared.".

Definition assistant : jsstring := str "assistant".
Definition user : jsstring := str "user".

(** [/^Model:/i.test(line.trim())] or [/^Mode:/i.test(line.trim())] *)
Definition metaLine (line : jsstring) : bool :=
  match matchHere (liti "Model:") None (trim line),
        matchHere (liti "Mode:") None (trim line) with
  | None, None => false
  | _, _ => true
  end.

Definition stripAssistantMetaLines (text : jsstring) : jsstring :=
  trim (join LF (filter (fun line => negb (metaLine line))
                        (splitLines text))).

(** [`${m.role.toUpperCase()}: ${content}`.trim()] *)
Definition transcriptLine (m : ChatMessage) : jsstring :=
  match m_role m with
  | RoleAssistant =>
      trim (str "ASSISTANT: " ++ stripAssistantMetaLines (m_content m))
  | RoleUser => trim (str "USER: " ++ m_content m)
  end.

Definition transcriptOf (recentMessages : list ChatMessage) : jsstring :=
  join LF (map transcriptLine recentMessages).

Definition summarySystemText : jsstring :=
  join (str " ")
    [ str "You are a summarization engine for a chat assistant.";
      str "Maintain a concise rolling summary of the conversation.";
      str "Keep it under 8 bullet points.";
      str "Capture user goals, constraints, decisions, and open questions.";
      str "Do not include sensitive data or unnecessary detail.";
      str "Return only the summary bullets, no extra text." ].

Definition summaryUserText (existingSummary transcript : jsstring)
  : jsstring :=
  join (LF ++ LF)
    [ match existingSummary with
      | [] => str "Current summary: (empty)"
      | _ => str "Current summary:" ++ LF ++ existingSummary
      end;
      str "---";
      str "Recent messages:" ++ LF ++ transcript ].

(** [resolveModel] *)
Definition resolveModel (modelId : jsstring) : Provider :=
  if startsWith (str "openai/") modelId then OpenAI else Google.

(** The [streamText] call of the summary and the wait for its text; this
    stream has no [onFinish]. *)
Definition summaryStream (w : World) (userText : jsstring) : M jsstring :=
  fun st =>
    let modelId := SUMMARY_MODEL (config w) in
    let st1 := {| trace := trace st ++
                    [SummaryStream (resolveModel modelId) modelId
                                   summarySystemText userText];
                  calls := S (calls st);
                  rateLimitedUntil := rateLimitedUntil st |} in
    match streamText w (calls st) (resolveModel modelId) modelId with
    | GenThrows e => (Throw e, st1)
    | GenRejects e => (Throw e, st1)
    | GenText t => (Ok t, st1)
    end.

(** The body of the [try] block of [maybeUpdateRollingSummary]. *)
Definition updateRollingSummary (w : World) (sessionId : jsstring) : M unit :=
  emit (CountMessages sessionId) ;;;
  totalMessages <- liftAt (fun n => countMessagesBySession w n sessionId) ;;
  if (totalMessages =? 0) ||
     negb (Z.rem (Z.of_nat totalMessages)
                 (SUMMARY_TURN_INTERVAL (config w)) =? 0)%Z
  then ret tt
  else
    emit (GetSummary sessionId) ;;;
    existingSummary <- liftAt (fun n => summaryAtFinish w n sessionId) ;;
    emit (RecentMessages sessionId (SUMMARY_MAX_MESSAGES (config w))) ;;;
    recentMessages <-
      liftAt (fun n => getRecentMessagesBySession w n sessionId
                         (SUMMARY_MAX_MESSAGES (config w))) ;;
    let transcript := transcriptOf recentMessages in
    text <- summaryStream w (summaryUserText existingSummary transcript) ;;
    let nextSummary := trim text in
    match nextSummary with
    | [] => ret tt
    | _ =>
        emit (UpdateSummary sessionId nextSummary) ;;;
        liftAt (fun n => updateChatSessionSummary w n sessionId nextSummary)
    end.

(** [maybeUpdateRollingSummary]: nothing when summaries are off or during a
    cool-down; an error of the update is logged and swallowed. *)
Definition maybeUpdateRollingSummary (w : World) (sessionId : jsstring)
  : M unit :=
  fun st =>
    if negb (ENABLE_ROLLING_SUMMARY (config w)) ||
       (SUMMARY_TURN_INTERVAL (config w) <=? 0)%Z
    then (Ok tt, st)
    else if (finishNow w (calls st) <? rateLimitedUntil st)%Z
    then (Ok tt, st)
    else tryCatch (updateRollingSummary w sessionId) (fun _ => ret tt) st.

(** The [onFinish] callback of [createStream]: what it does with a finished
    text.  A failure of [saveMessage] ends the callback. *)
Definition onFinish (w : World) (sessionId text : jsstring) : M unit :=
  if violatesOutputPolicy text
  then
    emit (SaveMessage sessionId assistant WARNING) ;;;
    liftAt (fun n => saveAssistantMessage w n sessionId WARNING)
  else
    emit (SaveMessage sessionId assistant text) ;;;
    liftAt (fun n => saveAssistantMessage w n sessionId text) ;;;
    maybeUpdateRollingSummary w sessionId.

(** The object returned by [streamText]: what its stream delivers. *)
Record StreamResult : Type := {
  r_label : jsstring;
  r_text : Result jsstring
}.

(** The answer of the route: a JSON error with its status, or
    [pipeDataStream(result, res, messages)], whose body is the stream of
    [result], i.e. the text produced by the provider. *)
Inductive Response : Type :=
| Json (status : nat) (error : jsstring)
| Piped (result : StreamResult).

Definition REFUSAL : jsstring :=
  str "This question contains restricted information (financial, personal, or security-related) "
  ++ LF ++
  str "and cannot be processed. Please ask about your knowledge base content instead.".

(** [`Source ${i + 1} (${r.meta?.filePath ?? "unknown"}):\n${r.content}`] *)
Definition sourceBlock (i : nat) (r : HybridSearchResult) : jsstring :=
  str "Source " ++ natToString (i + 1) ++ str " (" ++
  match meta r with
  | Some m => match filePath m with Some f => f | None => str "unknown" end
  | None => str "unknown"
  end ++ str "):" ++ LF ++ content r.

Fixpoint mapi {A B : Type} (f : nat -> A -> B) (i : nat) (l : list A)
  : list B :=
  match l with
  | [] => []
  | a :: l' => f i a :: mapi f (S i) l'
  end.

Definition filterResults (minScore : float)
  (ragResults : list HybridSearchResult) : list HybridSearchResult :=
  filter (fun r => (minScore <=? finalScore r)%float) ragResults.

Definition buildRawContext (filteredResults : list HybridSearchResult)
  : jsstring :=
  join (LF ++ LF) (mapi sourceBlock 0 filteredResults).

(** The text of the user message sent to the model ([buildModelMessages]). *)
Definition buildUserText (summaryText query context : jsstring) : jsstring :=
  let summaryBlock :=
    match summaryText with
    | [] => []
    | _ => str "Conversation summary:" ++ LF ++ summaryText ++ LF ++ LF
    end in
  let contextBlock :=
    if len (trim context) =? 0 then []
    else str "---" ++ LF ++ str "Context:" ++ LF ++ context in
  match contextBlock with
  | [] => summaryBlock ++ query
  | _ => summaryBlock ++ query ++ LF ++ LF ++ contextBlock
  end.

Section Generate.

Variable w : World.
Variables sessionId query context summaryText : jsstring.

(** [createStream(model, modelLabel)]: one call of [streamText]; when the
    stream finishes, [onFinish] runs. *)
Definition createStream (provider : Provider) (modelId modelLabel : jsstring)
  : M StreamResult :=
  fun st =>
    let st1 := {| trace := trace st ++
                    [StreamText provider modelId modelLabel
                       (buildUserText summaryText query context)];
                  calls := S (calls st);
                  rateLimitedUntil := rateLimitedUntil st |} in
    match streamText w (calls st) provider modelId with
    | GenThrows e => (Throw e, st1)
    | GenRejects e =>
        (Ok {| r_label := modelLabel; r_text := Throw e |}, st1)
    | GenText t =>
        (Ok {| r_label := modelLabel; r_text := Ok t |},
         snd (onFinish w sessionId t st1))
    end.

Definition fallbackLabel : jsstring :=
  str "Fallback (" ++ FALLBACK_MODEL (config w) ++ str ")".

Definition ensureOpenAiFallback (error : JsError) : M StreamResult :=
  if truthy (OPENAI_API_KEY (config w)) then
    markRateLimited w error ;;;
    createStream OpenAI (FALLBACK_MODEL (config w)) fallbackLabel
  else throw error.

(** From [const preferOpenAi] to the end of the [try] block. *)
Definition generate : M Response :=
  fun st =>
    let preferOpenAi := (now w <? rateLimitedUntil st)%Z in
    let primaryModelId :=
      if preferOpenAi then FALLBACK_MODEL (config w) else PRIMARY_MODEL in
    let primaryLabel := str "Primary (" ++ primaryModelId ++ str ")" in
    let primaryProvider := resolveModel primaryModelId in
    match createStream primaryProvider primaryModelId primaryLabel st with
    | (Throw error, st1) =>
        (markRateLimited w error ;;;
         fallbackResult <- ensureOpenAiFallback error ;;
         ret (Piped fallbackResult)) st1
    | (Ok primaryResult, st1) =>
        (early <-
           tryCatch
             (primaryText <- lift (r_text primaryResult) ;;
              if len (trim primaryText) =? 0 then
                fallbackResult <-
                  ensureOpenAiFallback (mkError "Empty Gemini output") ;;
                ret (Some (Piped fallbackResult))
              else ret None)
             (fun error =>
                markRateLimited w error ;;;
                fallbackResult <- ensureOpenAiFallback error ;;
                ret (Some (Piped fallbackResult))) ;;
         match early with
         | Some response => ret response
         | None => ret (Piped primaryResult)
         end) st1
    end.

End Generate.

(** The body of the outer [try] block. *)
Definition answer (w : World) (sessionId query : jsstring) : M Response :=
  emit (SaveMessage sessionId user query) ;;;
  lift (saveUserMessage w sessionId query) ;;;
  emit (Search query) ;;;
  ragResults <- lift (hybridSearch (retrieval w) query) ;;
  let filteredResults :=
    filterResults (MIN_CONTEXT_SCORE (config w)) ragResults in
  let rawContext := buildRawContext filteredResults in
  let context := sanitizeContext rawContext in
  sessionSummary <-
    (if ENABLE_ROLLING_SUMMARY (config w)
     then emit (GetSummary sessionId) ;;;
          lift (getChatSessionSummary w sessionId)
     else ret []) ;;
  let summaryText := trim sessionSummary in
  generate w sessionId query context summaryText.

Definition lastMessage (messages : option (list Message)) : option Message :=
  match messages with
  | Some ms => last (map Some ms) None
  | None => None
  end.

(** [lastMessage?.parts?.find((p) => p.type === "text")?.text] *)
Definition userMessageOf (lm : option Message) : option jsstring :=
  match lm with
  | Some m =>
      match parts m with
      | Some ps =>
          match find (fun p => eqs (p_type p) (str "text")) ps with
          | Some p => Some (p_text p)
          | None => None
          end
      | None => None
      end
  | None => None
  end.

Definition sessionIdOf (req : Request) : option jsstring :=
  orElse (body_sessionId req)
    (orElse (match lastMessage (body_messages req) with
             | Some m => metadata_sessionId m
             | None => None
             end)
            (query_sessionId req)).

Definition isSome {A : Type} (o : option A) : bool :=
  match o with Some _ => true | None => false end.

(** [router.post("/", ...)] *)
Definition chatRoute (w : World) (req : Request) (st : St) : Response * St :=
  let sessionId := sessionIdOf req in
  let userMessage := userMessageOf (lastMessage (body_messages req)) in
  match sessionId, userMessage with
  | Some sid, Some um =>
      if negb (truthy sessionId) || negb (isSome (body_messages req))
         || (len (trim um) =? 0)
      then (Json 400 (str "Missing sessionId or message"), st)
      else if negb (isValidObjectId w sid)
      then (Json 400 (str "Invalid sessionId"), st)
      else
        let query := trim um in
        if violatesInputPolicy query then (Json 403 REFUSAL, st)
        else
          match answer w sid query st with
          | (Ok response, st') => (response, st')
          | (Throw _, st') => (Json 500 (str "Chat request failed"), st')
          end
  | _, _ => (Json 400 (str "Missing sessionId or message"), st)
  end.

Definition initial (until : Z) : St :=
  {| trace := []; calls := 0; rateLimitedUntil := until |}.

End ChatRoute.

(* ================================================================== *)
(** ** Ingestion ([routes/injest.ts], [lib/chunkAndIngest.ts]) *)

Module Ingest.
Import HybridSearch.

(** A record of the vector-store collection. *)
Record VectorRecord : Type := {
  v_id : jsstring;
  v_document : jsstring;
  v_meta : Meta;
  v_embedding : list float
}.

(** A document of the lexical index ([LexicalDoc]). *)
Record LexicalDoc : Type := {
  id : jsstring;
  doc_content : jsstring;
  doc_filePath : jsstring
}.

Record Stores : Type := {
  collection : list VectorRecord;     (* the Chroma collection *)
  miniSearch : list LexicalDoc        (* the in-memory MiniSearch index *)
}.

Inductive IngestResponse : Type :=
| Skipped                                   (* 200 {status: "skipped"} *)
| Ingested (filePath : jsstring)            (* 200 {status: "ingested"} *)
| Failed (status : nat) (error : jsstring).

Definition ESTIMATED_TOKENS_PER_CHUNK : nat := 180.
Definition TOKEN_LIMIT_PER_MINUTE : nat := 100 * 1000.
Definition CHROMA_RECORD_QUOTA : nat := 300.

Definition hasPath (filePath : jsstring) (m : Meta) : bool :=
  match HybridSearch.filePath m with
  | Some f => eqs f filePath
  | None => false
  end.

(** [collection.get({ where: { filePath } })] *)
Definition getWhere (filePath : jsstring) (c : list VectorRecord)
  : list VectorRecord :=
  filter (fun r => hasPath filePath (v_meta r)) c.

(** [collection.delete({ where: { filePath } })] *)
Definition deleteWhere (filePath : jsstring) (c : list VectorRecord)
  : list VectorRecord :=
  filter (fun r => negb (hasPath filePath (v_meta r))) c.

(** [`${filePath}_${index}`] *)
Definition chunkId (filePath : jsstring) (index : nat) : jsstring :=
  filePath ++ str "_" ++ natToString index.

(** [miniSearch.addAll(docs)]: the documents are added one at a time, and
    MiniSearch rejects a document whose id is already in the index. *)
Fixpoint addAll (docs index : list LexicalDoc)
  : Result unit * list LexicalDoc :=
  match docs with
  | [] => (Ok tt, index)
  | d :: ds =>
      if existsb (fun x => eqs (id x) (id d)) index
      then (Throw {| statusCode := None;
                     message := str "MiniSearch: duplicate ID " ++ id d |},
            index)
      else addAll ds (index ++ [d])
  end.

Fixpoint zipRecords (filePath : jsstring) (fileHash : jsstring) (index : nat)
  (chunks : list jsstring) (embeddings : list (list float))
  : list VectorRecord :=
  match chunks, embeddings with
  | chunk :: cs, e :: es =>
      {| v_id := chunkId filePath index;
         v_document := chunk;
         v_meta := {| filePath := Some filePath;
                      fileHash := Some fileHash;
                      chunkIndex := Some index |};
         v_embedding := e |} :: zipRecords filePath fileHash (S index) cs es
  | _, _ => []
  end.

Section Ingestion.

(** [RecursiveCharacterTextSplitter({chunkSize: 1000, chunkOverlap: 200})] *)
Variable splitText : jsstring -> list jsstring.
(** SHA-256 of the text, in hexadecimal. *)
Variable hashContent : jsstring -> jsstring.
(** The embedding service. *)
Variable embedTexts : list jsstring -> Result (list (list float)).

Definition lexicalDocsOf (filePath : jsstring) (chunks : list jsstring)
  : list LexicalDoc :=
  ChatRoute.mapi (fun index chunk =>
                    {| id := chunkId filePath index;
                       doc_content := chunk;
                       doc_filePath := filePath |}) 0 chunks.

(** [ingestTextIntoChroma(collectionName, filePath, text, { fileHash })] *)
Definition ingestTextIntoChroma (filePath text fileHash : jsstring)
  (s : Stores) : Result unit * Stores :=
  if len (trim text) =? 0
  then (Throw (mkError "Cannot ingest empty text content"), s)
  else
    let chunks := splitText text in
    match chunks with
    | [] => (Throw (mkError "Text splitting produced no chunks"), s)
    | _ =>
        match addAll (lexicalDocsOf filePath chunks) (miniSearch s) with
        | (Throw e, index) =>
            (Throw e, {| collection := collection s; miniSearch := index |})
        | (Ok _, index) =>
            let s1 := {| collection := collection s; miniSearch := index |} in
            match embedTexts chunks with
            | Throw e => (Throw e, s1)
            | Ok embeddings =>
                if negb (List.length embeddings =? List.length chunks)
                then (Throw (mkError "Embedding mismatch"), s1)
                else
                  (Ok tt,
                   {| collection :=
                        collection s ++
                        zipRecords filePath fileHash 0 chunks embeddings;
                      miniSearch := index |})
            end
        end
    end.

(** [estimateTokensForText]: the number of chunks and the two limits. *)
Definition withinLimits (text : jsstring) : bool :=
  if len (trim text) =? 0 then true
  else
    let n := List.length (splitText text) in
    (n * ESTIMATED_TOKENS_PER_CHUNK <=? TOKEN_LIMIT_PER_MINUTE) &&
    (n <=? CHROMA_RECORD_QUOTA).

(** [isPDFFile] ([lib/pdfExtractor.ts]) *)
Definition isPDFFile (filePath : jsstring) : bool :=
  endsWith (str ".pdf") (toLowerCase filePath).

(** [existing.metadatas?.[0]?.fileHash] *)
Definition existingHash (filePath : jsstring) (c : list VectorRecord)
  : option jsstring :=
  match getWhere filePath c with
  | r :: _ => fileHash (v_meta r)
  | [] => None
  end.

(** [router.post("/", ...)] for a request that carries its text in
    [content] and has no [contentBase64]: for the path of a PDF file the
    route asks for [contentBase64] and answers 400. *)
Definition ingestRoute (filePath content : option jsstring) (s : Stores)
  : IngestResponse * Stores :=
  match filePath, content with
  | Some fp, Some text =>
      if negb (ChatRoute.truthy filePath) || negb (ChatRoute.truthy content)
      then (Failed 400 (str "Invalid payload"), s)
      else if isPDFFile fp
      then (Failed 400 (str "Invalid payload"), s)
      else if negb (withinLimits text)
      then (Failed 413 (str "File exceeds limits"), s)
      else
        let fileHash := hashContent text in
        let unchanged :=
          match existingHash fp (collection s) with
          | Some h => eqs h fileHash
          | None => false
          end in
        if unchanged then (Skipped, s)
        else
          let s1 := {| collection := deleteWhere fp (collection s);
                       miniSearch := miniSearch s |} in
          match ingestTextIntoChroma fp text fileHash s1 with
          | (Ok _, s2) => (Ingested fp, s2)
          | (Throw _, s2) => (Failed 500 (str "Ingest failed"), s2)
          end
  | _, _ => (Failed 400 (str "Invalid payload"), s)
  end.

End Ingestion.

End Ingest.

(* ================================================================== *)
(** ** Vocabulary of the statements *)

Module Vocabulary.
Import Regex Chat HybridSearch ChatRoute.

(** Some pattern of the list matches the text. *)
Definition anyMatch (ps : list regexp) (text : jsstring) : bool :=
  existsb (fun p => rtest p text) ps.

(** Some cue of the line filter occurs in the lower-cased text. *)
Definition hasCue (text : jsstring) : bool :=
  existsb (fun cue => includes cue (toLowerCase text)) instructionCues.

Definition allClear : Validation := {| safe := true; issues := [] |}.

(** The length of the longest prefix made of digits. *)
Fixpoint digitsPrefix (s : jsstring) : nat :=
  match s with
  | c :: s' => if isDigit c then S (digitsPrefix s') else 0
  | [] => 0
  end.





(** The code unit before the position reached after reading [l]. *)
Fixpoint lastOr (prev : option ascii) (l : jsstring) : option ascii :=
  match l with
  | [] => prev
  | c :: l' => lastOr (Some c) l'
  end.

(** [\b\d{lo,hi}\b] *)
Definition boundedDigits (lo hi : nat) : re := bounded (range digit lo hi).

(** What a match attempt of [\b\d{lo,hi}\b] amounts to: the position is
    not preceded by a word character, the digits that follow are between
    [lo] and [hi], and no word character follows them. *)
Definition digitsMatch (lo hi : nat) (prev : option ascii) (s : jsstring)
  : option jsstring :=
  let d := digitsPrefix s in
  if negb (wordBefore prev) && (lo <=? d) && (d <=? hi) &&
     negb (wordAfter (skipn d s))
  then Some (skipn d s) else None.

(** The continuation of a closing [\b] at the end of a pattern. *)
Definition endWord : cont := mt WordB accept.

(** The first pass of the sanitiser: the first pattern of
    [SENSITIVE_CONTEXT_PATTERNS], [\b\d{12,16}\b] with the [g] flag. *)
Definition firstPass (text : jsstring) : jsstring :=
  match SENSITIVE_CONTEXT_PATTERNS with
  | p :: _ => replace p REDACTED text
  | [] => text
  end.


(** The weighted score of a result taken on its own. *)
Definition ownWeighted (r : HybridSearchResult) : float :=
  match source r with
  | semantic => (score r * SEMANTIC_WEIGHT)%float
  | lexical => (score r * LEXICAL_WEIGHT)%float
  end.

(** The summary read by the route: none when rolling summaries are off. *)
Definition summaryOf (w : World) (sessionId : jsstring) : Result jsstring :=
  if ENABLE_ROLLING_SUMMARY (config w)
  then getChatSessionSummary w sessionId else Ok [].

(** The calls of [streamText] made for the fallback attempt. *)
Definition isFallbackCall (w : World) (e : Event) : bool :=
  match e with
  | StreamText OpenAI modelId modelLabel _ =>
      eqs modelId (FALLBACK_MODEL (config w)) &&
      eqs modelLabel (fallbackLabel w)
  | _ => false
  end.

Definition fallbackCalls (w : World) (events : list Event) : nat :=
  List.length (filter (isFallbackCall w) events).

(** The model and label of the first attempt in state [st]. *)
Definition primaryModelId (w : World) (st : St) : jsstring :=
  if (now w <? rateLimitedUntil st)%Z
  then FALLBACK_MODEL (config w) else PRIMARY_MODEL.

Definition primaryLabel (w : World) (st : St) : jsstring :=
  str "Primary (" ++ primaryModelId w st ++ str ")".

(** The messages persisted for the assistant. *)
Definition assistantMessages (events : list Event) : list jsstring :=
  flat_map (fun e => match e with
                     | SaveMessage _ role content =>
                         if eqs role assistant then [content] else []
                     | _ => []
                     end) events.

(** A step of the route only adds calls to the trace and leaves what was
    recorded before in place. *)
Definition grows {A : Type} (m : M A) : Prop :=
  forall st, exists more, trace (snd (m st)) = trace st ++ more.

(** The state in which generation starts: the user message has been saved,
    retrieval has run and, with rolling summaries, the summary was read. *)
Definition afterRetrieval (w : World) (sid query : jsstring) (st : St) : St :=
  {| trace := trace st ++ [SaveMessage sid user query; Search query] ++
              (if ENABLE_ROLLING_SUMMARY (config w)
               then [GetSummary sid] else []);
     calls := calls st;
     rateLimitedUntil := rateLimitedUntil st |}.

(** Two continuations agree on every input that is not longer than [s]. *)
Definition agree (s : jsstring) (k k' : cont) : Prop :=
  forall p s', len s' <= len s -> k p s' = k' p s'.

(** A matcher looks at its continuation only on inputs that are not longer
    than its own. *)
Definition local (m : matcher) : Prop :=
  forall k k' prev s, agree s k k' -> m k prev s = m k' prev s.

(** The continuation that always fails. *)
Definition noCont : cont := fun _ _ => None.

End Vocabulary.

(* ================================================================== *)
(** ** Example inputs *)

Module Examples.
Import Chat HybridSearch ChatRoute Ingest.

Definition kbMeta : Meta :=
  {| filePath := Some (str "kb.md"); fileHash := Some (str "h1");
     chunkIndex := Some 0 |}.

(** One chunk of [kb.md], returned by both branches: at distance 0.25 by the
    vector store and with score 2 by the lexical index. *)
Definition bothBranches : Retrieval :=
  {| lexicalSearch := fun _ =>
       Ok [ {| l_id := str "kb.md_0"; l_content := str "Deep learning";
               l_filePath := str "kb.md"; l_score := 2%float |} ];
     getOrCreateCollection := Ok tt;
     collectionQuery := fun _ =>
       Ok {| documents := Some [[Some (str "Deep learning")]];
             metadatas := Some [[Some kbMeta]];
             distances := Some [[Some 0.25%float]] |} |}.

(** One chunk found by the vector store at distance 0.5 and another found
    by the lexical index with score 4. *)
Definition oneEach : Retrieval :=
  {| lexicalSearch := fun _ =>
       Ok [ {| l_id := str "kb.md_1"; l_content := str "Neural networks";
               l_filePath := str "kb.md"; l_score := 4%float |} ];
     getOrCreateCollection := Ok tt;
     collectionQuery := fun _ =>
       Ok {| documents := Some [[Some (str "Deep learning")]];
             metadatas := Some [[Some kbMeta]];
             distances := Some [[Some 0.5%float]] |} |}.

Definition timeout : JsError :=
  {| statusCode := None; message := str "Request timed out" |}.

Definition lexicalHits : list LexicalHit :=
  [ {| l_id := str "kb.md_0"; l_content := str "Deep learning";
       l_filePath := str "kb.md"; l_score := 2%float |} ].

(** The vector store times out; the lexical index answers. *)
Definition semanticDown : Retrieval :=
  {| lexicalSearch := fun _ => Ok lexicalHits;
     getOrCreateCollection := Ok tt;
     collectionQuery := fun _ => Throw timeout |}.

Definition cfg : Config :=
  {| FALLBACK_MODEL := DEFAULT_FALLBACK_MODEL;
     MIN_CONTEXT_SCORE := DEFAULT_MIN_CONTEXT_SCORE;
     ENABLE_ROLLING_SUMMARY := false;
     RATE_LIMIT_BACKOFF_MS := 60000%Z;
     OPENAI_API_KEY := Some (str "sk-test");
     SUMMARY_TURN_INTERVAL := DEFAULT_SUMMARY_TURN_INTERVAL;
     SUMMARY_MAX_MESSAGES := DEFAULT_SUMMARY_MAX_MESSAGES;
     SUMMARY_MODEL := PRIMARY_MODEL |}.

(** A world with the given retrieval services and the given outcomes of
    the successive calls of [streamText]; 24 code units make a valid id. *)
Definition world (r : Retrieval) (gen : nat -> Generation) : World :=
  {| config := cfg;
     now := 1000%Z;
     isValidObjectId := fun s => len s =? 24;
     saveUserMessage := fun _ _ => Ok tt;
     retrieval := r;
     getChatSessionSummary := fun _ => Ok [];
     streamText := fun n _ _ => gen n;
     saveAssistantMessage := fun _ _ _ => Ok tt;
     finishNow := fun _ => 1500%Z;
     countMessagesBySession := fun _ _ => Ok 2;
     summaryAtFinish := fun _ _ => Ok [];
     getRecentMessagesBySession := fun _ _ _ => Ok [];
     updateChatSessionSummary := fun _ _ _ => Ok tt |}.

Definition session : jsstring := str "0123456789abcdef01234567".

Definition textMessage (text : string) : Message :=
  {| parts := Some [ {| p_type := str "text"; p_text := str text |} ];
     metadata_sessionId := None |}.

(** A request with a session id and one user message. *)
Definition ask (text : string) : Request :=
  {| body_sessionId := Some session;
     body_messages := Some [textMessage text];
     query_sessionId := None |}.

(** The same request without a session id. *)
Definition askWithoutSession (text : string) : Request :=
  {| body_sessionId := None;
     body_messages := Some [textMessage text];
     query_sessionId := None |}.

Definition boom : JsError :=
  {| statusCode := None; message := str "unsupported model version" |}.

(** The primary model answers with an empty text; the first call for the
    fallback model throws, the next one answers. *)
Definition emptyThenThrow (n : nat) : Generation :=
  match n with
  | 0 => GenText []
  | 1 => GenThrows boom
  | _ => GenText (str "Deep learning uses multiple layers.")
  end.

(** The primary model answers with a card number. *)
Definition leaksCard (n : nat) : Generation :=
  GenText (str "Use the card 4532123456789010 for payment").

(** The only chunk found is far from the query: distance 0.9, hence a
    final score of about 0.07. *)
Definition farAway : Retrieval :=
  {| lexicalSearch := fun _ => Ok [];
     getOrCreateCollection := Ok tt;
     collectionQuery := fun _ =>
       Ok {| documents := Some [[Some (str "Gardening tips")]];
             metadatas := Some [[Some kbMeta]];
             distances := Some [[Some 0.9%float]] |} |}.

Definition farAwayResults : list HybridSearchResult :=
  [ {| content := str "Gardening tips"; meta := Some kbMeta;
       score := (1 - 0.9)%float; source := semantic;
       finalScore := ((1 - 0.9) * SEMANTIC_WEIGHT)%float |} ].

Definition answers (n : nat) : Generation :=
  GenText (str "This topic is not covered in your provided knowledge base.").

(** Stand-ins for the services of ingestion: a short text is one chunk,
    the hash tells any two texts apart, every chunk gets an embedding. *)
Definition oneChunk (text : jsstring) : list jsstring := [text].
Definition plainHash (text : jsstring) : jsstring := text.
Definition flatEmbedding (chunks : list jsstring)
  : Result (list (list float)) :=
  Ok (map (fun _ => [0%float]) chunks).

Definition emptyStores : Stores := {| collection := []; miniSearch := [] |}.

Definition kbPath : jsstring := str "kb.md".
Definition kbText1 : jsstring := str "Deep learning uses layers.".
Definition kbText2 : jsstring := str "Deep learning uses many layers.".

(** The stores after [kb.md] has been ingested once. *)
Definition afterFirstIngest : Stores :=
  snd (ingestRoute oneChunk plainHash flatEmbedding
                   (Some kbPath) (Some kbText1) emptyStores).

End Examples.

(* ================================================================== *)
(** ** Knowledge routes ([routes/knowledge.ts]) *)

Module Knowledge.
Import HybridSearch ChatRoute Ingest.

(** [path.split("/")] *)
Fixpoint splitSlash (s : jsstring) : list jsstring :=
  match s with
  | [] => [[]]
  | c :: s' =>
      if code c =? 47 then [] :: splitSlash s'
      else match splitSlash s' with
           | l :: ls => (c :: l) :: ls
           | [] => [[c]]
           end
  end.

(** [path.split("/").pop() || path] *)
Definition fileNameOf (path : jsstring) : jsstring :=
  match last (splitSlash path) [] with
  | [] => path
  | name => name
  end.

Record KnowledgeFile : Type := { k_filePath : jsstring; k_fileName : jsstring }.

(** [filePathsSet.add(path)]: a Set keeps the first insertion of a value. *)
Definition addPath (seen : list jsstring) (path : jsstring) : list jsstring :=
  if existsb (eqs path) seen then seen else seen ++ [path].

(** The [forEach] over [results.metadatas]: the truthy file paths, each
    once, in the order of their first record. *)
Definition filePathsOf (c : list VectorRecord) : list jsstring :=
  fold_left (fun seen r =>
               match filePath (v_meta r) with
               | Some (x :: p) => addPath seen (x :: p)
               | _ => seen
               end) c [].

(** [router.get("/", ...)]: the files of the knowledge base. *)
Definition listKnowledge (s : Stores) : list KnowledgeFile :=
  map (fun path => {| k_filePath := path; k_fileName := fileNameOf path |})
      (filePathsOf (collection s)).

Inductive DeleteResponse : Type :=
| Deleted (filePath : jsstring) (chunksDeleted : nat)
| DeleteFailed (status : nat) (error : jsstring).

(** [collection.delete({ ids })] *)
Definition deleteIds (ids : list jsstring) (c : list VectorRecord)
  : list VectorRecord :=
  filter (fun r => negb (existsb (eqs (v_id r)) ids)) c.

(** [router.delete("/", ...)] *)
Definition deleteKnowledge (filePath : option jsstring) (s : Stores)
  : DeleteResponse * Stores :=
  match filePath with
  | Some fp =>
      if negb (truthy filePath)
      then (DeleteFailed 400 (str "filePath is required"), s)
      else
        let ids := map v_id (getWhere fp (collection s)) in
        if List.length ids =? 0
        then (DeleteFailed 404 (str "File not found in knowledge base"), s)
        else (Deleted fp (List.length ids),
              {| collection := deleteIds ids (collection s);
                 miniSearch := miniSearch s |})
  | None => (DeleteFailed 400 (str "filePath is required"), s)
  end.

End Knowledge.

(* ================================================================== *)
(** ** Session routes ([routes/sessions.ts]) *)

Module Sessions.
Import ChatRoute.

(** The title given to a new session by [router.post("/", ...)]. *)
Definition sessionTitle (firstMessage : option jsstring) : jsstring :=
  match firstMessage with
  | Some (c :: m) =>
      if 30 <? len (c :: m) then firstn 30 (c :: m) ++ str "..."
      else c :: m
  | _ => str "New Chat"
  end.

End Sessions.

(* ================================================================== *)
(** ** Token and quota estimate ([lib/tokenEstimator.ts]) *)

Module TokenEstimator.
Import Ingest.

Record QuotaEstimate : Type := {
  textLength : nat;
  estimatedChunks : nat;
  estimatedTokens : nat;
  withinLimit : bool;
  remainingTokens : Z;
  chromaRecordQuota : nat;
  withinChromaQuota : bool;
  remainingChromaRecords : Z
}.

Section Estimate.

Variable splitText : jsstring -> list jsstring.

Definition estimateTokensForText (text : jsstring) : QuotaEstimate :=
  if len (trim text) =? 0 then
    {| textLength := 0;
       estimatedChunks := 0;
       estimatedTokens := 0;
       withinLimit := true;
       remainingTokens := Z.of_nat TOKEN_LIMIT_PER_MINUTE;
       chromaRecordQuota := CHROMA_RECORD_QUOTA;
       withinChromaQuota := true;
       remainingChromaRecords := Z.of_nat CHROMA_RECORD_QUOTA |}
  else
    let chunks := splitText text in
    let estimatedTokens := List.length chunks * ESTIMATED_TOKENS_PER_CHUNK in
    {| textLength := len text;
       estimatedChunks := List.length chunks;
       estimatedTokens := estimatedTokens;
       withinLimit := estimatedTokens <=? TOKEN_LIMIT_PER_MINUTE;
       remainingTokens :=
         (Z.of_nat TOKEN_LIMIT_PER_MINUTE - Z.of_nat estimatedTokens)%Z;
       chromaRecordQuota := CHROMA_RECORD_QUOTA;
       withinChromaQuota := List.length chunks <=? CHROMA_RECORD_QUOTA;
       remainingChromaRecords :=
         (Z.of_nat CHROMA_RECORD_QUOTA - Z.of_nat (List.length chunks))%Z |}.

End Estimate.

(** The two lines that [getFileSizeReducedError] may list. *)
Inductive LimitIssue : Type := TokenLimitExceeded | ChromaQuotaExceeded.

Definition issuesOf (estimate : QuotaEstimate) : list LimitIssue :=
  (if withinLimit estimate then [] else [TokenLimitExceeded]) ++
  (if withinChromaQuota estimate then [] else [ChromaQuotaExceeded]).

(** [maxChunksAllowed] of [getFileSizeReducedError]. *)
Definition maxChunksAllowed : nat :=
  Nat.min (TOKEN_LIMIT_PER_MINUTE / ESTIMATED_TOKENS_PER_CHUNK)
          CHROMA_RECORD_QUOTA.

End TokenEstimator.

(* ================================================================== *)
(** ** Embedding client ([lib/embeddings.ts]) *)

Module Embeddings.
Import ChatRoute.

(** What the [catch] block of [embedTexts] reads from a thrown value:
    whether it is an axios error, the status of its response if it has one,
    and its message. *)
Record ServiceError : Type := {
  isAxiosError : bool;
  responseStatus : option nat;
  errorMessage : jsstring
}.

(** [`${statusCode}`] with
    [axios.isAxiosError(error) ? error.response?.status : "unknown"] *)
Definition statusText (error : ServiceError) : jsstring :=
  if isAxiosError error then
    match responseStatus error with
    | Some status => natToString status
    | None => str "undefined"
    end
  else str "unknown".

(** [embedTexts]: [key] is [process.env.JINA_API_KEY] and [post] the call
    of the embedding service together with the reading of its answer. *)
Definition embedTexts (key : option jsstring)
  (post : list jsstring -> ServiceError + list (list float))
  (texts : list jsstring) : Result (list (list float)) :=
  if negb (truthy key) then Throw (mkError "JINA_API_KEY is not set")
  else
    match texts with
    | [] => Ok []
    | _ =>
        match post texts with
        | inr vectors => Ok vectors
        | inl error =>
            Throw {| statusCode := None;
                     message :=
                       str "Embedding service failed (status: " ++
                       statusText error ++ str "): " ++
                       errorMessage error |}
        end
    end.

End Embeddings.

(* ================================================================== *)
(** ** Further vocabulary *)

Module Vocabulary2.
Import Regex Chat HybridSearch ChatRoute Ingest Knowledge Vocabulary.

(** Every code unit of the text is white space. *)
Definition blank (s : jsstring) : bool := forallb isSpace s.

(** No result is directly followed by one that the comparator of the sort
    puts strictly before it. *)
Fixpoint descending (l : list HybridSearchResult) : bool :=
  match l with
  | a :: t =>
      match t with
      | b :: _ => negb (after a b) && descending t
      | [] => true
      end
  | [] => true
  end.

(** The comparator never orders two results of the list both ways (it does
    not when no [finalScore] is NaN or infinite). *)
Definition consistent (l : list HybridSearchResult) : Prop :=
  forall a b, In a l -> In b l -> after a b = true -> after b a = false.

(** The documents of the first row of a query result that are not null. *)
Definition presentDocs (qr : QueryResult) : nat :=
  match documents qr with
  | Some (row :: _) => List.length (filter (@isSome jsstring) row)
  | _ => 0
  end.

(** ASCII case folding of a text. *)
Definition foldCase (s : jsstring) : jsstring := map lowerAscii s.

(** The phrases that [BLOCKED_PATTERNS] looks for anywhere in a message,
    without word boundaries. *)
Definition injectionPhrases : list string :=
  ["ignore previous"; "ignore all prior"; "forget about";
   "system message"; "system prompt";
   "you are actually"; "pretend that"; "act as if";
   "override"; "new instructions";
   "jailbreak"; "bypass"; "circumvent"].

(** The phrases by which [isRateLimitError] recognises a message. *)
Definition rateLimitPhrases : list string :=
  ["rate limit"; "quota"; "resource_exhausted"].

(** No message persisted for the assistant matches an output pattern. *)
Definition cleanAssistant (events : list Event) : Prop :=
  forall c, In c (assistantMessages events) -> violatesOutputPolicy c = false.

(** The user messages handed to [saveMessage]. *)
Definition userMessages (events : list Event) : list jsstring :=
  flat_map (fun e => match e with
                     | SaveMessage _ role content =>
                         if eqs role user then [content] else []
                     | _ => []
                     end) events.

(** The text contains no digit. *)
Definition noDigits (s : jsstring) : bool :=
  forallb (fun c => negb (isDigit c)) s.

End Vocabulary2.

(* ================================================================== *)
(** ** Vocabulary of the route properties *)

Module Vocabulary3.
Import Regex Chat HybridSearch ChatRoute Ingest Knowledge Vocabulary
       Vocabulary2.

(** The request passes the payload checks of the chat route: a session id
    that is not empty and valid, and a user message that is not blank. *)
Definition wellFormed (w : World) (req : Request) : bool :=
  match sessionIdOf req, userMessageOf (lastMessage (body_messages req)) with
  | Some sid, Some um =>
      truthy (Some sid) && negb (len (trim um) =? 0) && isValidObjectId w sid
  | _, _ => false
  end.

(** The primary attempt started in state [st] fails: the call throws, the
    text promise rejects, or the text is blank. *)
Definition primaryFails (w : World) (st : St) : Prop :=
  match streamText w (calls st) (resolveModel (primaryModelId w st))
                   (primaryModelId w st) with
  | GenThrows _ => True
  | GenRejects _ => True
  | GenText t => trim t = []
  end.

(** The error of a failed primary attempt, if it carries one. *)
Definition primaryError (w : World) (st : St) : option JsError :=
  match streamText w (calls st) (resolveModel (primaryModelId w st))
                   (primaryModelId w st) with
  | GenThrows e => Some e
  | GenRejects e => Some e
  | GenText _ => None
  end.

(** A user message that may be persisted: it passed the input policy and is
    not empty. *)
Definition admissible (c : jsstring) : Prop :=
  violatesInputPolicy c = false /\ c <> [].

Definition admissibleUsers (events : list Event) : Prop :=
  forall c, In c (userMessages events) -> admissible c.

(** The end of the cool-down that a rate-limit error starts. *)
Definition cooldownEnd (w : World) : Z :=
  (now w + RATE_LIMIT_BACKOFF_MS (config w))%Z.

End Vocabulary3.

(* ================================================================== *)
(** ** Further example inputs *)

Module Examples2.
Import Chat HybridSearch ChatRoute Ingest Knowledge Examples.

Definition threeDocs : list Doc :=
  [ {| d_content := str "a"; d_meta := None; d_score := 0.5%float;
       d_source := semantic |};
    {| d_content := str "b"; d_meta := None; d_score := 0.75%float;
       d_source := semantic |};
    {| d_content := str "c"; d_meta := None; d_score := 2%float;
       d_source := lexical |} ].

Definition tooManyRequests : JsError :=
  {| statusCode := Some 429; message := str "Too Many Requests" |}.

(** The first call of [streamText] is answered with status 429. *)
Definition rateLimited (n : nat) : Generation :=
  match n with
  | 0 => GenRejects tooManyRequests
  | _ => GenText (str "Deep learning uses multiple layers.")
  end.

(** The same world one second later. *)
Definition later (w : World) : World :=
  {| config := config w;
     now := (now w + 1000)%Z;
     isValidObjectId := isValidObjectId w;
     saveUserMessage := saveUserMessage w;
     retrieval := retrieval w;
     getChatSessionSummary := getChatSessionSummary w;
     streamText := streamText w;
     saveAssistantMessage := saveAssistantMessage w;
     finishNow := fun n => (finishNow w n + 1000)%Z;
     countMessagesBySession := countMessagesBySession w;
     summaryAtFinish := summaryAtFinish w;
     getRecentMessagesBySession := getRecentMessagesBySession w;
     updateChatSessionSummary := updateChatSessionSummary w |}.

Definition dbDown : JsError :=
  {| statusCode := None; message := str "connection refused" |}.

(** A world in which [saveMessage] fails. *)
Definition noDatabase : World :=
  {| config := cfg;
     now := 1000%Z;
     isValidObjectId := fun s => len s =? 24;
     saveUserMessage := fun _ _ => Throw dbDown;
     retrieval := bothBranches;
     getChatSessionSummary := fun _ => Ok [];
     streamText := fun n _ _ => answers n;
     saveAssistantMessage := fun _ _ _ => Ok tt;
     finishNow := fun _ => 1500%Z;
     countMessagesBySession := fun _ _ => Ok 2;
     summaryAtFinish := fun _ _ => Ok [];
     getRecentMessagesBySession := fun _ _ _ => Ok [];
     updateChatSessionSummary := fun _ _ _ => Ok tt |}.

(** A world without a key for the fallback provider. *)
Definition noKey (gen : nat -> Generation) : World :=
  {| config := {| FALLBACK_MODEL := DEFAULT_FALLBACK_MODEL;
                  MIN_CONTEXT_SCORE := DEFAULT_MIN_CONTEXT_SCORE;
                  ENABLE_ROLLING_SUMMARY := false;
                  RATE_LIMIT_BACKOFF_MS := 60000%Z;
                  OPENAI_API_KEY := None;
                  SUMMARY_TURN_INTERVAL := DEFAULT_SUMMARY_TURN_INTERVAL;
                  SUMMARY_MAX_MESSAGES := DEFAULT_SUMMARY_MAX_MESSAGES;
                  SUMMARY_MODEL := PRIMARY_MODEL |};
     now := 1000%Z;
     isValidObjectId := fun s => len s =? 24;
     saveUserMessage := fun _ _ => Ok tt;
     retrieval := bothBranches;
     getChatSessionSummary := fun _ => Ok [];
     streamText := fun n _ _ => gen n;
     saveAssistantMessage := fun _ _ _ => Ok tt;
     finishNow := fun _ => 1500%Z;
     countMessagesBySession := fun _ _ => Ok 2;
     summaryAtFinish := fun _ _ => Ok [];
     getRecentMessagesBySession := fun _ _ _ => Ok [];
     updateChatSessionSummary := fun _ _ _ => Ok tt |}.

(** A world with rolling summaries in which every finished stream finds
    six messages in its session, a multiple of the interval. *)
Definition summarising (gen : nat -> Generation) : World :=
  {| config := {| FALLBACK_MODEL := DEFAULT_FALLBACK_MODEL;
                  MIN_CONTEXT_SCORE := DEFAULT_MIN_CONTEXT_SCORE;
                  ENABLE_ROLLING_SUMMARY := true;
                  RATE_LIMIT_BACKOFF_MS := 60000%Z;
                  OPENAI_API_KEY := Some (str "sk-test");
                  SUMMARY_TURN_INTERVAL := DEFAULT_SUMMARY_TURN_INTERVAL;
                  SUMMARY_MAX_MESSAGES := DEFAULT_SUMMARY_MAX_MESSAGES;
                  SUMMARY_MODEL := PRIMARY_MODEL |};
     now := 1000%Z;
     isValidObjectId := fun s => len s =? 24;
     saveUserMessage := fun _ _ => Ok tt;
     retrieval := bothBranches;
     getChatSessionSummary := fun _ => Ok (str "- the user studies learning");
     streamText := fun n _ _ => gen n;
     saveAssistantMessage := fun _ _ _ => Ok tt;
     finishNow := fun _ => 1500%Z;
     countMessagesBySession := fun _ _ => Ok 6;
     summaryAtFinish := fun _ _ => Ok (str "- the user studies learning");
     getRecentMessagesBySession := fun _ _ _ =>
       Ok [ {| m_role := RoleUser; m_content := str "what is deep learning" |};
            {| m_role := RoleAssistant;
               m_content := str "Model: gemini" ++ LF ++ str "Layers." |} ];
     updateChatSessionSummary := fun _ _ _ => Ok tt |}.

(** The first call of [streamText] answers the question, the next one
    writes the summary. *)
Definition answerThenSummary (n : nat) : Generation :=
  match n with
  | 0 => GenText (str "Deep learning uses multiple layers.")
  | _ => GenText (str "- the user studies deep learning")
  end.

(** The first attempt answers with a blank text and the first call for the
    fallback model throws; the calls after a finished stream write the
    summary. *)
Definition blankThenThrow (n : nat) : Generation :=
  match n with
  | 0 => GenText (str "  ")
  | 2 => GenThrows boom
  | 3 => GenText (str "Deep learning uses multiple layers.")
  | _ => GenText (str "- the user studies deep learning")
  end.

(** The world in which the cool-down has lapsed when a stream finishes. *)
Definition lapsed (w : World) : World :=
  {| config := config w;
     now := now w;
     isValidObjectId := isValidObjectId w;
     saveUserMessage := saveUserMessage w;
     retrieval := retrieval w;
     getChatSessionSummary := getChatSessionSummary w;
     streamText := streamText w;
     saveAssistantMessage := saveAssistantMessage w;
     finishNow := fun n => (now w + 120000)%Z;
     countMessagesBySession := countMessagesBySession w;
     summaryAtFinish := summaryAtFinish w;
     getRecentMessagesBySession := getRecentMessagesBySession w;
     updateChatSessionSummary := updateChatSessionSummary w |}.

Definition otherPath : jsstring := str "notes/ml.md".
Definition otherText : jsstring := str "Gradient descent minimises a loss.".

(** The stores after [kb.md] and then [notes/ml.md] have been ingested. *)
Definition twoSources : Stores :=
  snd (ingestRoute oneChunk plainHash flatEmbedding
                   (Some otherPath) (Some otherText) afterFirstIngest).

End Examples2.

(* ================================================================== *)
(** ** Vocabulary of the routes and stores *)

Module Vocabulary4.
Import Regex Chat HybridSearch ChatRoute Ingest Knowledge Vocabulary
       Vocabulary2 Vocabulary3.

(** The HTTP status of an answer; a piped stream is sent with 200. *)
Definition statusOf (r : Response) : nat :=
  match r with
  | Json status _ => status
  | Piped _ => 200
  end.

(** The model ids of the [streamText] calls made for generation (by
    [createStream]) among the events. *)
Definition modelsCalled (events : list Event) : list jsstring :=
  flat_map (fun e => match e with
                     | StreamText _ modelId _ _ => [modelId]
                     | _ => []
                     end) events.

(** The number of [streamText] calls made for the rolling summary. *)
Definition summaryCalls (events : list Event) : nat :=
  List.length (filter (fun e => match e with
                                | SummaryStream _ _ _ _ => true
                                | _ => false
                                end) events).

(** Rolling summaries are switched off. *)
Definition summaryOff (w : World) : bool :=
  negb (ENABLE_ROLLING_SUMMARY (config w)) ||
  (SUMMARY_TURN_INTERVAL (config w) <=? 0)%Z.

(** What [onFinish] hands to [saveMessage] for a finished text. *)
Definition savedText (text : jsstring) : jsstring :=
  if violatesOutputPolicy text then WARNING else text.

(** The calls of one update of the rolling summary, in order: the messages
    are counted, the summary and the recent messages are read, [streamText]
    writes the next summary from [userText], and [nextSummary] is stored. *)
Definition summarySteps (w : World) (sid userText nextSummary : jsstring)
  : list Event :=
  [ CountMessages sid;
    GetSummary sid;
    RecentMessages sid (SUMMARY_MAX_MESSAGES (config w));
    SummaryStream (resolveModel (SUMMARY_MODEL (config w)))
                  (SUMMARY_MODEL (config w)) summarySystemText userText;
    UpdateSummary sid nextSummary ].

(** The calls that generation may make for session [sid] when it starts in
    state [st]: [streamText] for the model of the first attempt or for the
    fallback model, and what [onFinish] does with a finished text: it saves
    a text that passes the output policy and, with rolling summaries, may
    update the summary. *)
Definition generationEvent (w : World) (st : St) (sid : jsstring)
  (e : Event) : Prop :=
  match e with
  | StreamText p modelId _ _ =>
      (modelId = primaryModelId w st /\ p = resolveModel modelId) \/
      (modelId = FALLBACK_MODEL (config w) /\ p = OpenAI)
  | SaveMessage s role c =>
      s = sid /\ role = assistant /\ violatesOutputPolicy c = false
  | CountMessages s => s = sid /\ summaryOff w = false
  | GetSummary s => s = sid /\ summaryOff w = false
  | RecentMessages s _ => s = sid /\ summaryOff w = false
  | SummaryStream p modelId _ _ =>
      modelId = SUMMARY_MODEL (config w) /\ p = resolveModel modelId /\
      summaryOff w = false
  | UpdateSummary s _ => s = sid /\ summaryOff w = false
  | Search _ => False
  end.

(** The calls that a request may make. *)
Definition routeEvent (w : World) (req : Request) (st : St) (e : Event)
  : Prop :=
  match e with
  | SaveMessage s role c =>
      sessionIdOf req = Some s /\
      ((role = user /\
        option_map trim (userMessageOf (lastMessage (body_messages req)))
          = Some c /\
        admissible c) \/
       (role = assistant /\ violatesOutputPolicy c = false))
  | Search q =>
      option_map trim (userMessageOf (lastMessage (body_messages req)))
        = Some q
  | GetSummary s =>
      sessionIdOf req = Some s /\ ENABLE_ROLLING_SUMMARY (config w) = true
  | StreamText p modelId _ _ =>
      (modelId = primaryModelId w st /\ p = resolveModel modelId) \/
      (modelId = FALLBACK_MODEL (config w) /\ p = OpenAI)
  | CountMessages s => sessionIdOf req = Some s /\ summaryOff w = false
  | RecentMessages s _ => sessionIdOf req = Some s /\ summaryOff w = false
  | SummaryStream p modelId _ _ =>
      modelId = SUMMARY_MODEL (config w) /\ p = resolveModel modelId /\
      summaryOff w = false
  | UpdateSummary s _ => sessionIdOf req = Some s /\ summaryOff w = false
  end.

(** The cool-down, as it is or as a rate-limit error of this request
    renews it, lasts until every stream of the request has finished. *)
Definition coolThrough (w : World) (st : St) : Prop :=
  forall n, (finishNow w n < rateLimitedUntil st)%Z /\
            (finishNow w n < cooldownEnd w)%Z.

(** The request passes every check and its retrieval succeeds: generation
    starts for session [sid] with the trimmed message [query], the retrieved
    results [rs] and the summary [summary]. *)
Definition reachesGeneration (w : World) (req : Request)
  (sid query : jsstring) (rs : list HybridSearchResult) (summary : jsstring)
  : Prop :=
  wellFormed w req = true /\
  sessionIdOf req = Some sid /\
  option_map trim (userMessageOf (lastMessage (body_messages req)))
    = Some query /\
  violatesInputPolicy query = false /\
  saveUserMessage w sid query = Ok tt /\
  hybridSearch (retrieval w) query = Ok rs /\
  summaryOf w sid = Ok summary.

(** The context handed to the model for the results [rs]. *)
Definition contextOf (w : World) (rs : list HybridSearchResult) : jsstring :=
  sanitizeContext
    (buildRawContext (filterResults (MIN_CONTEXT_SCORE (config w)) rs)).

(** What the stream of a [streamText] call delivers. *)
Definition deliveryOf (g : Generation) : Result jsstring :=
  match g with
  | GenThrows e => Throw e
  | GenRejects e => Throw e
  | GenText t => Ok t
  end.

(** The cool-down after a failed first attempt. *)
Definition cooldownAfter (w : World) (st : St) : Z :=
  match primaryError w st with
  | Some e => if isRateLimitError e then cooldownEnd w else rateLimitedUntil st
  | None => rateLimitedUntil st
  end.

(** The outcome of the first attempt in state [st]. *)
Definition primaryOutcome (w : World) (st : St) : Generation :=
  streamText w (calls st) (resolveModel (primaryModelId w st))
             (primaryModelId w st).

(** The [streamText] call of the first attempt of a request that reaches
    generation. *)
Definition firstCall (w : World) (query : jsstring)
  (rs : list HybridSearchResult) (summary : jsstring) (st : St) : Event :=
  StreamText (resolveModel (primaryModelId w st)) (primaryModelId w st)
             (primaryLabel w st)
             (buildUserText (trim summary) query (contextOf w rs)).

(** The state in which the first attempt has been called: the user message
    is saved, retrieval has run, the summary is read and [streamText] has
    been called once. *)
Definition firstCalled (w : World) (sid query : jsstring)
  (rs : list HybridSearchResult) (summary : jsstring) (st : St) : St :=
  {| trace := trace (afterRetrieval w sid query st) ++
              [firstCall w query rs summary st];
     calls := S (calls st);
     rateLimitedUntil := rateLimitedUntil st |}.

(** The state after the first attempt: [createStream] has returned or
    thrown, and [onFinish] has run if the stream finished with a text. *)
Definition afterFirstAttempt (w : World) (sid query : jsstring)
  (rs : list HybridSearchResult) (summary : jsstring) (st : St) : St :=
  match primaryOutcome w st with
  | GenText t => snd (onFinish w sid t (firstCalled w sid query rs summary st))
  | _ => firstCalled w sid query rs summary st
  end.

(** The [streamText] call of the fallback. *)
Definition fallbackCall (w : World) (query : jsstring)
  (rs : list HybridSearchResult) (summary : jsstring) : Event :=
  StreamText OpenAI (FALLBACK_MODEL (config w)) (fallbackLabel w)
             (buildUserText (trim summary) query (contextOf w rs)).

(** The outcome of the call for the fallback model that follows the first
    attempt. *)
Definition fallbackOutcome (w : World) (sid query : jsstring)
  (rs : list HybridSearchResult) (summary : jsstring) (st : St)
  : Generation :=
  streamText w (calls (afterFirstAttempt w sid query rs summary st)) OpenAI
             (FALLBACK_MODEL (config w)).

(** The state in which the fallback has been called after a failed first
    attempt. *)
Definition fallbackCalled (w : World) (sid query : jsstring)
  (rs : list HybridSearchResult) (summary : jsstring) (st : St) : St :=
  {| trace := trace (afterFirstAttempt w sid query rs summary st) ++
              [fallbackCall w query rs summary];
     calls := S (calls (afterFirstAttempt w sid query rs summary st));
     rateLimitedUntil := cooldownAfter w st |}.

(** The state after the fallback: [onFinish] has run if its stream finished
    with a text. *)
Definition afterFallback (w : World) (sid query : jsstring)
  (rs : list HybridSearchResult) (summary : jsstring) (st : St) : St :=
  match fallbackOutcome w sid query rs summary st with
  | GenText t =>
      snd (onFinish w sid t (fallbackCalled w sid query rs summary st))
  | _ => fallbackCalled w sid query rs summary st
  end.


(** The paths listed by [router.get("/", ...)]. *)
Definition listedPaths (s : Stores) : list jsstring :=
  map k_filePath (listKnowledge s).


End Vocabulary4.

(* ================================================================== *)
(** * Properties *)

Unset Implicit Arguments.

(** ** Strings *)

Module JsStringFacts.

Lemma eqc_true (a b : ascii) : eqc a b = true <-> a = b.
Proof. unfold eqc. apply Ascii.eqb_eq. Qed.

Lemma eqs_true (a b : jsstring) : eqs a b = true <-> a = b.
Proof.
  revert b. induction a as [|x a IH]; intros [|y b]; simpl;
    try (split; [discriminate | intro H; discriminate H]); [tauto|].
  rewrite andb_true_iff, eqc_true, IH.
  split; [intros [-> ->]; reflexivity | intro H; inversion H; auto].
Qed.

Lemma eqs_refl (a : jsstring) : eqs a a = true.
Proof. apply eqs_true. reflexivity. Qed.

Lemma startsWith_app (p b : jsstring) : startsWith p (p ++ b) = true.
Proof.
  induction p as [|c p IH]; simpl; [reflexivity|].
  rewrite IH, andb_true_r. apply eqc_true. reflexivity.
Qed.

Lemma startsWith_true (p s : jsstring) :
  startsWith p s = true -> exists b, s = p ++ b.
Proof.
  revert s. induction p as [|c p IH]; intros s H.
  - exists s. reflexivity.
  - destruct s as [|d s]; [discriminate|]. simpl in H.
    apply andb_true_iff in H. destruct H as [Hc Hp].
    apply eqc_true in Hc. subst d.
    destruct (IH _ Hp) as [b ->]. exists b. reflexivity.
Qed.

(** [includes] finds exactly the substrings. *)
Lemma includes_app (p a b : jsstring) : includes p (a ++ p ++ b) = true.
Proof.
  induction a as [|c a IH]; simpl.
  - destruct (p ++ b) eqn:E; simpl; rewrite <- E;
      rewrite startsWith_app; reflexivity.
  - rewrite IH. apply orb_true_r.
Qed.

Lemma includes_true (p s : jsstring) :
  includes p s = true -> exists a b, s = a ++ p ++ b.
Proof.
  induction s as [|c s IH]; simpl; intro H.
  - rewrite orb_false_r in H. apply startsWith_true in H.
    destruct H as [b Hb]. exists [], b. exact Hb.
  - apply orb_true_iff in H. destruct H as [H|H].
    + apply startsWith_true in H. destruct H as [b Hb].
      exists [], b. exact Hb.
    + destruct (IH H) as (a & b & ->). exists (c :: a), b. reflexivity.
Qed.

Lemma includes_context (p a s b : jsstring) :
  includes p s = true -> includes p (a ++ s ++ b) = true.
Proof.
  intro H. apply includes_true in H. destruct H as (x & y & ->).
  replace (a ++ (x ++ p ++ y) ++ b) with ((a ++ x) ++ p ++ (y ++ b)).
  - apply includes_app.
  - repeat rewrite <- app_assoc. reflexivity.
Qed.

Lemma splitLines_nonempty (s : jsstring) : splitLines s <> [].
Proof.
  induction s as [|c s IH]; simpl; [discriminate|].
  destruct (code c =? 10); [discriminate|].
  destruct (splitLines s); discriminate.
Qed.

(** Splitting at line feeds and joining again gives the text back. *)
Lemma join_splitLines (s : jsstring) : join LF (splitLines s) = s.
Proof.
  induction s as [|c s IH]; [reflexivity|]. simpl.
  destruct (code c =? 10) eqn:E.
  - assert (c = "010"%char) as ->.
    { apply Nat.eqb_eq in E. unfold code in E.
      rewrite <- (ascii_nat_embedding c), E. reflexivity. }
    pose proof (splitLines_nonempty s) as Hne.
    destruct (splitLines s) as [|l ls] eqn:El; [contradiction|].
    simpl in *. rewrite IH. reflexivity.
  - pose proof (splitLines_nonempty s) as Hne.
    destruct (splitLines s) as [|l ls] eqn:El; [contradiction|].
    destruct ls as [|l' ls]; simpl in *; rewrite <- IH; reflexivity.
Qed.

(** Every line is a substring of the text. *)
Lemma splitLines_In (s line : jsstring) :
  In line (splitLines s) -> exists a b, s = a ++ line ++ b.
Proof.
  revert line. induction s as [|c s IH]; simpl; intros line H.
  - destruct H as [<-|[]]. exists [], []. reflexivity.
  - destruct (code c =? 10).
    + destruct H as [<-|H].
      * exists [], (c :: s). reflexivity.
      * destruct (IH _ H) as (a & b & ->). exists (c :: a), b. reflexivity.
    + pose proof (splitLines_nonempty s) as Hne.
      destruct (splitLines s) as [|l ls] eqn:El; [contradiction|].
      destruct H as [<-|H].
      * destruct (IH l (or_introl eq_refl)) as (a & b & Hs).
        (* the first line starts the text *)
        assert (exists b', s = l ++ b') as [b' ->].
        { clear -El. revert l ls El.
          induction s as [|d s IHs]; simpl; intros l ls El.
          - inversion El. exists []. reflexivity.
          - destruct (code d =? 10).
            + inversion El. exists (d :: s). reflexivity.
            + destruct (splitLines s) as [|l0 ls0] eqn:E0.
              * inversion El. exists s. reflexivity.
              * inversion El; subst.
                destruct (IHs _ _ eq_refl) as [b' ->].
                exists b'. reflexivity. }
        exists [], b'. reflexivity.
      * destruct (IH line (or_intror H)) as (a & b & ->).
        exists (c :: a), b. reflexivity.
Qed.

Lemma toLowerCase_app (a b : jsstring) :
  toLowerCase (a ++ b) = toLowerCase a ++ toLowerCase b.
Proof. apply map_app. Qed.

End JsStringFacts.

(** ** Regular expressions *)

Module RegexFacts.
Import Chat Vocabulary JsStringFacts.

(** Without a match there is nothing to replace. *)
Lemma replaceFirstFrom_nomatch (r : re) (by_ : jsstring) :
  forall s prev, testFrom r prev s = false ->
                 replaceFirstFrom r by_ prev s = s.
Proof.
  induction s as [|c s IH]; intros prev H; simpl in *;
    destruct (matchHere r prev _); try discriminate; [reflexivity|].
  rewrite IH by assumption. reflexivity.
Qed.

Lemma replaceAllFrom_nomatch (r : re) (by_ : jsstring) :
  forall s prev, testFrom r prev s = false ->
                 replaceAllFrom r by_ 0 prev s = s.
Proof.
  induction s as [|c s IH]; intros prev H; simpl in *;
    destruct (matchHere r prev _); try discriminate; [reflexivity|].
  rewrite IH by assumption. reflexivity.
Qed.

(** *** The fuel of unbounded repetition *)

Lemma agree_shorter (s s' : jsstring) (k k' : cont) :
  len s' <= len s -> agree s k k' -> agree s' k k'.
Proof. intros H Ha p t Ht. apply Ha. lia. Qed.

Lemma repMin_local (m : matcher) :
  local m -> forall n, local (fun k => repMin m n k).
Proof.
  intros Hm n. induction n as [|n IH]; intros k k' prev s Ha.
  - simpl. apply Ha. lia.
  - simpl. apply Hm. intros p s' Hs'. apply IH.
    exact (agree_shorter s s' k k' Hs' Ha).
Qed.

Lemma repOpt_local (m : matcher) :
  local m -> forall n, local (fun k => repOpt m n k).
Proof.
  intros Hm n. induction n as [|n IH]; intros k k' prev s Ha.
  - simpl. apply Ha. lia.
  - simpl.
    rewrite (Hm _ (fun prev' s' =>
                     if len s' <? len s then repOpt m n k' prev' s'
                     else None) prev s).
    + rewrite (Ha prev s (le_n _)). reflexivity.
    + intros p s' Hs'. destruct (len s' <? len s); [|reflexivity].
      apply IH. exact (agree_shorter s s' k k' Hs' Ha).
Qed.

Lemma mt_local (r : re) : local (mt r).
Proof.
  induction r as [|p|a IHa b IHb|a IHa b IHb|a IHa lo hi|];
    intros k k' prev s Ha; simpl.
  - apply Ha. lia.
  - destruct s as [|c s']; [reflexivity|].
    destruct (p c); [|reflexivity]. apply Ha. unfold len. simpl. lia.
  - apply IHa. intros p s' Hs'. apply IHb.
    exact (agree_shorter s s' k k' Hs' Ha).
  - rewrite (IHa k k' prev s Ha), (IHb k k' prev s Ha). reflexivity.
  - apply (repMin_local (mt a) IHa lo). intros p s' Hs'.
    destruct hi as [h|].
    + apply (repOpt_local (mt a) IHa (h - lo)).
      exact (agree_shorter s s' k k' Hs' Ha).
    + apply (repOpt_local (mt a) IHa (len s')).
      exact (agree_shorter s s' k k' Hs' Ha).
  - rewrite (Ha prev s (le_n _)). reflexivity.
Qed.

(** A matcher that is given a failing continuation fails. *)
Lemma fails_local (m : matcher) (k : cont) (prev : option ascii)
  (s : jsstring) :
  local m ->
  (forall prev s, m noCont prev s = None) ->
  (forall p s', len s' <= len s -> k p s' = None) ->
  m k prev s = None.
Proof.
  intros Hl Hn Hk. rewrite (Hl k noCont prev s); [apply Hn|].
  intros p s' Hs'. rewrite (Hk p s' Hs'). reflexivity.
Qed.

Lemma repMin_fails (m : matcher) :
  local m -> (forall prev s, m noCont prev s = None) ->
  forall n prev s, repMin m n noCont prev s = None.
Proof.
  intros Hl Hn n. induction n as [|n IH]; intros prev s; [reflexivity|].
  simpl. apply (fails_local m _ prev s Hl Hn). intros p s' _. apply IH.
Qed.

Lemma repOpt_fails (m : matcher) :
  local m -> (forall prev s, m noCont prev s = None) ->
  forall n prev s, repOpt m n noCont prev s = None.
Proof.
  intros Hl Hn n. induction n as [|n IH]; intros prev s; [reflexivity|].
  simpl. rewrite (fails_local m _ prev s Hl Hn); [reflexivity|].
  intros p s' _. destruct (len s' <? len s); [apply IH | reflexivity].
Qed.

Lemma mt_fails (r : re) : forall prev s, mt r noCont prev s = None.
Proof.
  induction r as [|p|a IHa b IHb|a IHa b IHb|a IHa lo hi|];
    intros prev s; simpl.
  - reflexivity.
  - destruct s as [|c s']; [reflexivity|]. destruct (p c); reflexivity.
  - apply (fails_local (mt a) _ prev s (mt_local a) IHa).
    intros p s' _. apply IHb.
  - rewrite IHa, IHb. reflexivity.
  - rewrite (repMin_local (mt a) (mt_local a) lo _ noCont prev s).
    + apply (repMin_fails (mt a) (mt_local a) IHa).
    + intros p s' _. destruct hi as [h|];
        apply (repOpt_fails (mt a) (mt_local a) IHa).
  - destruct (atBoundary prev s); reflexivity.
Qed.

(** Fuel beyond the length of the input changes nothing: an iteration has
    to consume at least one code unit. *)
Lemma repOpt_fuel (r : re) (k : cont) :
  forall bound s, len s <= bound ->
  forall n prev, len s <= n ->
    repOpt (mt r) n k prev s = repOpt (mt r) (len s) k prev s.
Proof.
  induction bound as [|bound IH]; intros s Hb n prev Hn.
  - assert (len s = 0) as E by lia. rewrite E.
    destruct n as [|n]; [reflexivity|]. simpl.
    rewrite (fails_local (mt r) _ prev s (mt_local r) (mt_fails r));
      [reflexivity|].
    intros p s' _. rewrite E. reflexivity.
  - destruct n as [|n].
    + assert (len s = 0) as E by lia. rewrite E. reflexivity.
    + destruct (len s) as [|L] eqn:E.
      * simpl.
        rewrite (fails_local (mt r) _ prev s (mt_local r) (mt_fails r));
          [reflexivity|].
        intros p s' _. rewrite E. reflexivity.
      * simpl. rewrite E.
        rewrite (mt_local r _
                   (fun prev' s' =>
                      if len s' <? S L then repOpt (mt r) L k prev' s'
                      else None) prev s); [reflexivity|].
        intros p s' Hs'. destruct (len s' <? S L) eqn:Elt; [|reflexivity].
        apply Nat.ltb_lt in Elt.
        rewrite (IH s' ltac:(lia) n p ltac:(lia)).
        rewrite (IH s' ltac:(lia) L p ltac:(lia)). reflexivity.
Qed.

(** The unbounded quantifiers [a*], [a+] and [a{lo,}] run on fuel equal to
    the length of the input left; any larger amount gives the same match. *)
Lemma unbounded_fuel_adequate (r : re) (lo : nat) (k : cont)
  (prev : option ascii) (s : jsstring) (extra : nat) :
  mt (Rep r lo None) k prev s =
  repMin (mt r) lo
    (fun prev' s' => repOpt (mt r) (len s' + extra) k prev' s') prev s.
Proof.
  simpl. apply (repMin_local (mt r) (mt_local r) lo). intros p s' _.
  symmetry. apply (repOpt_fuel r k (len s') s' (le_n _)). lia.
Qed.

(** *** Runs of digits between word boundaries *)

Lemma isDigit_word (c : ascii) : isDigit c = true -> isWordChar c = true.
Proof.
  intro H. unfold isWordChar. rewrite H. rewrite orb_true_r. reflexivity.
Qed.

Lemma digitsPrefix_pos_wordAfter (s : jsstring) :
  1 <= digitsPrefix s -> wordAfter s = true.
Proof.
  destruct s as [|c s]; simpl; [lia|].
  destruct (isDigit c) eqn:E; [intros _; apply isDigit_word; exact E | lia].
Qed.

Lemma digitsPrefix_zero_skipn (s : jsstring) :
  digitsPrefix (skipn (digitsPrefix s) s) = 0.
Proof.
  induction s as [|c s IH]; simpl; [reflexivity|].
  destruct (isDigit c) eqn:E; simpl; [exact IH|]. rewrite E. reflexivity.
Qed.

(** The mandatory iterations of [\d{lo,..}]. *)
Lemma repMin_digit (k : cont) :
  forall n prev s,
    repMin (mt digit) n k prev s =
    if n <=? digitsPrefix s
    then k (lastOr prev (firstn n s)) (skipn n s) else None.
Proof.
  induction n as [|n IH]; intros prev s; [reflexivity|].
  destruct s as [|c s]; [reflexivity|]. simpl repMin. simpl mt.
  simpl digitsPrefix. destruct (isDigit c) eqn:E; [|reflexivity].
  rewrite IH. reflexivity.
Qed.

Lemma endWord_after_word (c : ascii) (s : jsstring) :
  isWordChar c = true ->
  endWord (Some c) s = if wordAfter s then None else Some s.
Proof.
  intro H. unfold endWord. simpl. unfold atBoundary. simpl. rewrite H.
  destruct (wordAfter s); reflexivity.
Qed.

(** One optional iteration of a character class. *)
Lemma repOpt_S_chr (p : ascii -> bool) (n : nat) (k : cont)
  (prev : option ascii) (s : jsstring) :
  repOpt (mt (Chr p)) (S n) k prev s =
  match s with
  | c :: s' =>
      if p c then
        match repOpt (mt (Chr p)) n k (Some c) s' with
        | Some r => Some r
        | None => k prev s
        end
      else k prev s
  | [] => k prev s
  end.
Proof.
  destruct s as [|c s']; [reflexivity|]. cbn [repOpt mt]. cbv beta.
  destruct (p c); [|reflexivity].
  assert ((len s' <? len (c :: s')) = true) as ->.
  { apply Nat.ltb_lt. unfold len. simpl. lia. }
  reflexivity.
Qed.

(** The optional iterations of [\d{lo,hi}] before a closing [\b]. *)
Lemma repOpt_digit_endWord :
  forall n c s,
    isDigit c = true ->
    repOpt (mt digit) n endWord (Some c) s =
    let d := digitsPrefix s in
    if (d <=? n) && negb (wordAfter (skipn d s))
    then Some (skipn d s) else None.
Proof.
  unfold digit.
  induction n as [|n IH]; intros c s Hc; cbv zeta.
  - simpl repOpt. rewrite (endWord_after_word c s (isDigit_word c Hc)).
    destruct (digitsPrefix s) as [|d] eqn:Ed.
    + simpl. destruct (wordAfter s); reflexivity.
    + rewrite (digitsPrefix_pos_wordAfter s) by lia. reflexivity.
  - rewrite repOpt_S_chr. rewrite (endWord_after_word c s (isDigit_word c Hc)).
    destruct s as [|c1 s1]; [reflexivity|].
    simpl digitsPrefix. destruct (isDigit c1) eqn:E1.
    + rewrite (IH c1 s1 E1). cbv zeta. simpl skipn.
      change (S (digitsPrefix s1) <=? S n) with (digitsPrefix s1 <=? n).
      destruct ((digitsPrefix s1 <=? n) &&
                negb (wordAfter (skipn (digitsPrefix s1) s1)));
        [reflexivity|].
      simpl wordAfter. rewrite (isDigit_word c1 E1). reflexivity.
    + simpl. destruct (isWordChar c1); reflexivity.
Qed.

Lemma lastOr_firstn_digit (n : nat) :
  forall prev s, 1 <= n -> n <= digitsPrefix s ->
    exists c, lastOr prev (firstn n s) = Some c /\ isDigit c = true.
Proof.
  induction n as [|n IH]; intros prev s H1 H2; [lia|].
  destruct s as [|c s]; simpl in H2; [lia|].
  destruct (isDigit c) eqn:E; [|lia]. simpl.
  destruct n as [|n'].
  - exists c. simpl. auto.
  - apply IH; lia.
Qed.

Lemma digitsPrefix_skipn (n : nat) :
  forall s, n <= digitsPrefix s ->
            digitsPrefix (skipn n s) = digitsPrefix s - n.
Proof.
  induction n as [|n IH]; intros s H; simpl; [lia|].
  destruct s as [|c s]; simpl in *; [reflexivity|].
  destruct (isDigit c); [apply IH; lia | lia].
Qed.

(** A match attempt of [\b\d{lo,hi}\b]. *)
Lemma matchHere_boundedDigits (lo hi : nat) (prev : option ascii)
  (s : jsstring) :
  1 <= lo -> lo <= hi ->
  matchHere (boundedDigits lo hi) prev s = digitsMatch lo hi prev s.
Proof.
  intros Hlo Hhi. unfold matchHere, boundedDigits, bounded, range, digitsMatch.
  cbv zeta. simpl mt. fold endWord.
  rewrite repMin_digit.
  destruct (lo <=? digitsPrefix s) eqn:El.
  - apply Nat.leb_le in El.
    unfold atBoundary. rewrite (digitsPrefix_pos_wordAfter s) by lia.
    destruct (wordBefore prev); [reflexivity|]. simpl xorb. simpl negb.
    destruct (lastOr_firstn_digit lo prev s Hlo El) as (c & -> & Hc).
    rewrite (repOpt_digit_endWord _ _ _ Hc). cbv zeta.
    rewrite (digitsPrefix_skipn lo s El). rewrite skipn_skipn.
    replace (digitsPrefix s - lo + lo) with (digitsPrefix s) by lia.
    replace (digitsPrefix s - lo <=? hi - lo) with (digitsPrefix s <=? hi).
    + reflexivity.
    + destruct (digitsPrefix s <=? hi) eqn:E1; symmetry.
      * apply Nat.leb_le. apply Nat.leb_le in E1. lia.
      * apply Nat.leb_gt. apply Nat.leb_gt in E1. lia.
  - rewrite andb_false_r. simpl. destruct (atBoundary prev s); reflexivity.
Qed.

Lemma digitsPrefix_le_len (s : jsstring) : digitsPrefix s <= len s.
Proof.
  unfold len. induction s as [|c s IH]; simpl; [lia|].
  destruct (isDigit c); lia.
Qed.






Lemma digitsMatch_Some (lo hi : nat) (prev : option ascii)
  (s rest : jsstring) :
  digitsMatch lo hi prev s = Some rest ->
  rest = skipn (digitsPrefix s) s /\ lo <= digitsPrefix s /\
  len s - len rest = digitsPrefix s.
Proof.
  unfold digitsMatch. cbv zeta.
  destruct (negb (wordBefore prev) && (lo <=? digitsPrefix s) &&
            (digitsPrefix s <=? hi) &&
            negb (wordAfter (skipn (digitsPrefix s) s))) eqn:E;
    [|discriminate].
  intro H. inversion H; subst. clear H.
  repeat (apply andb_true_iff in E; destruct E as [E ?]).
  split; [reflexivity|]. split; [apply Nat.leb_le; assumption|].
  unfold len. rewrite length_skipn.
  pose proof (digitsPrefix_le_len s). unfold len in *. lia.
Qed.

Lemma replaceAllFrom_skip_cons (r : re) (by_ : jsstring) (n : nat)
  (prev : option ascii) (c : ascii) (s : jsstring) :
  replaceAllFrom r by_ (S n) prev (c :: s) =
  replaceAllFrom r by_ n (Some c) s.
Proof. reflexivity. Qed.

Lemma replaceAllFrom_scan_cons (r : re) (by_ : jsstring)
  (prev : option ascii) (c : ascii) (s : jsstring) :
  replaceAllFrom r by_ 0 prev (c :: s) =
  match matchHere r prev (c :: s) with
  | Some rest =>
      by_ ++
      (let n := len (c :: s) - len rest in
       if n =? 0 then c :: replaceAllFrom r by_ 0 (Some c) s
       else replaceAllFrom r by_ (n - 1) (Some c) s)
  | None => c :: replaceAllFrom r by_ 0 (Some c) s
  end.
Proof. reflexivity. Qed.

(** Passing over the rest of a match. *)
Lemma replaceAllFrom_skip_app (r : re) (by_ : jsstring) (a b : jsstring) :
  forall prev,
    replaceAllFrom r by_ (List.length a) prev (a ++ b) =
    replaceAllFrom r by_ 0 (lastOr prev a) b.
Proof.
  induction a as [|c a IH]; intro prev; [reflexivity|].
  simpl List.length. simpl app. rewrite replaceAllFrom_skip_cons.
  apply IH.
Qed.


Section ScanDigits.

Variables lo hi : nat.
Hypothesis Hlo : 1 <= lo.
Hypothesis Hhi : lo <= hi.
Variable by_ : jsstring.
Variables run post : jsstring.
Hypothesis Hrun : forallb isDigit run = true.
Hypothesis Hlen : lo <= len run <= hi.
Hypothesis Hpost : wordAfter post = false.

Local Abbreviation P := (boundedDigits lo hi).



End ScanDigits.

End RegexFacts.

Module HybridSearchFacts.
Import HybridSearch Vocabulary Examples.

Lemma insert_In (x y : HybridSearchResult) (l : list HybridSearchResult) :
  In x (insert y l) -> x = y \/ In x l.
Proof.
  induction l as [|z l IH]; simpl.
  - intros [H|[]]; auto.
  - destruct (after y z); simpl; intros [H|H]; auto.
    destruct (IH H); auto.
Qed.

Lemma sortByFinalScore_In (x : HybridSearchResult)
  (l : list HybridSearchResult) :
  In x (sortByFinalScore l) -> In x l.
Proof.
  induction l as [|y l IH]; simpl; [auto|].
  intro H. apply insert_In in H. destruct H as [H|H]; auto.
Qed.

Lemma firstn_In {A : Type} (n : nat) :
  forall (l : list A) (x : A), In x (firstn n l) -> In x l.
Proof.
  induction n as [|n IH]; intros [|y l] x H; simpl in *; try contradiction.
  destruct H as [H|H]; [left; exact H | right; apply IH; exact H].
Qed.

(** Every ranked result comes from one element of [combined] and carries
    that element's raw score times the weight of its own branch. *)
Lemma rank_finalScore (combined : list Doc) (r : HybridSearchResult) :
  In r (rank combined) ->
  (exists d, In d combined /\ r = weigh d) /\ finalScore r = ownWeighted r.
Proof.
  unfold rank. intro H. apply (firstn_In 5) in H.
  apply sortByFinalScore_In in H. apply in_map_iff in H.
  destruct H as (d & <- & Hd). split; [exists d; auto|].
  unfold ownWeighted, weigh. simpl. reflexivity.
Qed.

(** C1 (evaluation at the failing input).  A chunk retrieved by both branches
    is returned twice, once per branch, each entry scored with its own
    weight; no entry carries the sum of the two weighted scores. *)
Theorem hybridSearch_both_branches_not_fused :
  hybridSearch bothBranches (str "deep learning") =
  Ok [ {| content := str "Deep learning";
          meta := Some {| filePath := Some (str "kb.md"); fileHash := None;
                          chunkIndex := None |};
          score := 2%float; source := lexical;
          finalScore := (2 * LEXICAL_WEIGHT)%float |};
       {| content := str "Deep learning";
          meta := Some kbMeta;
          score := 0.75%float; source := semantic;
          finalScore := (0.75 * SEMANTIC_WEIGHT)%float |} ].
Proof. vm_compute. reflexivity. Qed.

(** C2 (evaluation at the failing input).  The scores are not divided by the
    maximum of their list: the only semantic result, at distance 0.5, gets
    0.5 * 0.7 and not 0.7, the only lexical result, with score 4, gets
    4 * 0.3 and not 0.3, and the lexical result is ranked first. *)
Theorem hybridSearch_scores_not_normalized :
  hybridSearch oneEach (str "deep learning") =
  Ok [ {| content := str "Neural networks";
          meta := Some {| filePath := Some (str "kb.md"); fileHash := None;
                          chunkIndex := None |};
          score := 4%float; source := lexical;
          finalScore := (4 * LEXICAL_WEIGHT)%float |};
       {| content := str "Deep learning";
          meta := Some kbMeta;
          score := 0.5%float; source := semantic;
          finalScore := (0.5 * SEMANTIC_WEIGHT)%float |} ]
  /\ (4 * LEXICAL_WEIGHT)%float <> (LEXICAL_WEIGHT * (4 / 4))%float
  /\ (0.5 * SEMANTIC_WEIGHT)%float <> (SEMANTIC_WEIGHT * (0.5 / 0.5))%float.
Proof.
  split; [vm_compute; reflexivity|]. split; intro H.
  - apply (f_equal (fun x => PrimFloat.ltb 1 x)) in H. vm_compute in H.
    discriminate H.
  - apply (f_equal (fun x => PrimFloat.ltb x 0.5)) in H. vm_compute in H.
    discriminate H.
Qed.




(** A failure of the lexical branch is thrown as well. *)
Lemma hybridSearch_lexical_failure_propagates
  (env : Retrieval) (query : jsstring) (e : JsError) :
  trim query <> [] ->
  lexicalSearch env query = Throw e ->
  hybridSearch env query = Throw e.
Proof.
  intros Hq Hl. unfold hybridSearch.
  destruct (trim query) as [|c t]; [contradiction|]. rewrite Hl. reflexivity.
Qed.

End HybridSearchFacts.

(** ** Context sanitiser *)

Module SanitizerFacts.
Import JsString Regex Chat Vocabulary Vocabulary2 JsStringFacts RegexFacts.

Lemma replace_nomatch (p : regexp) (by_ s : jsstring) :
  rtest p s = false -> replace p by_ s = s.
Proof.
  unfold rtest, replace, test, replaceAll, replaceFirst. intro H.
  destruct (global p).
  - apply replaceAllFrom_nomatch. exact H.
  - apply replaceFirstFrom_nomatch. exact H.
Qed.

Lemma redact_fold_clean (ps : list regexp) (text : jsstring) :
  anyMatch ps text = false ->
  fold_left (fun sanitized p => replace p REDACTED sanitized) ps text = text.
Proof.
  induction ps as [|p ps IH]; simpl; intro H; [reflexivity|].
  apply orb_false_iff in H. destruct H as [Hp Hps].
  rewrite (replace_nomatch p REDACTED text Hp). apply IH. exact Hps.
Qed.

Lemma semantic_fold_clean (ps : list regexp) (text : jsstring) :
  anyMatch ps text = false -> fold_left redactStep ps text = text.
Proof.
  induction ps as [|p ps IH]; simpl; intro H; [reflexivity|].
  apply orb_false_iff in H. destruct H as [Hp Hps].
  unfold redactStep at 2. rewrite Hp. apply IH. exact Hps.
Qed.

Lemma filter_all {A : Type} (f : A -> bool) (l : list A) :
  (forall x, In x l -> f x = true) -> filter f l = l.
Proof.
  induction l as [|x l IH]; simpl; intro H; [reflexivity|].
  rewrite (H x (or_introl eq_refl)). f_equal. apply IH.
  intros y Hy. apply H. right. exact Hy.
Qed.

(** A cue inside a line is a cue inside the text. *)
Lemma keepLine_of_text (text line : jsstring) :
  hasCue text = false -> In line (splitLines text) -> keepLine line = true.
Proof.
  intros Hc Hl. unfold keepLine.
  destruct (existsb _ instructionCues) eqn:E; [|reflexivity]. exfalso.
  apply existsb_exists in E. destruct E as (cue & Hin & Hcue).
  apply splitLines_In in Hl. destruct Hl as (a & b & ->).
  assert (hasCue (a ++ line ++ b) = true) as Hyes.
  { unfold hasCue. apply existsb_exists. exists cue. split; [exact Hin|].
    rewrite !toLowerCase_app. apply includes_context. exact Hcue. }
  congruence.
Qed.

Lemma filterInstructionContent_clean (text : jsstring) :
  hasCue text = false -> filterInstructionContent text = text.
Proof.
  intro H. unfold filterInstructionContent.
  rewrite filter_all.
  - apply join_splitLines.
  - intros line Hl. exact (keepLine_of_text text line H Hl).
Qed.

(** C8.  When no pattern of the first redaction list, no cue of the line
    filter and no pattern of the semantic redaction list matches the text,
    the sanitiser returns the text as it is. *)
Theorem sanitizeContext_clean_identity (text : jsstring) :
  anyMatch SENSITIVE_CONTEXT_PATTERNS text = false ->
  hasCue text = false ->
  anyMatch sensitivePatterns text = false ->
  sanitizeContext text = text.
Proof.
  intros H1 H2 H3. unfold sanitizeContext, redactPatterns.
  rewrite (redact_fold_clean _ _ H1).
  rewrite (filterInstructionContent_clean _ H2).
  apply semantic_fold_clean. exact H3.
Qed.

(** The empty text is clean: it maps to itself and its report is all clear;
    so is an ordinary sentence. *)
Lemma sanitizeContext_clean_identity_witness :
  (sanitizeContext [] = [] /\ sanitizeReport [] = allClear) /\
  sanitizeContext (str "Deep learning uses multiple layers.") =
  str "Deep learning uses multiple layers.".
Proof.
  split; [split|].
  - apply (sanitizeContext_clean_identity []); vm_compute; reflexivity.
  - vm_compute. reflexivity.
  - apply (sanitizeContext_clean_identity
             (str "Deep learning uses multiple layers."));
      vm_compute; reflexivity.
Defined.

(** The result of a global replacement is the text itself or contains the
    replacement. *)
Lemma replaceAllFrom_shape (r : re) (m : jsstring) :
  forall s skip prev,
    replaceAllFrom r m skip prev s = skipn skip s \/
    exists a b, replaceAllFrom r m skip prev s = a ++ m ++ b.
Proof.
  induction s as [|c s IH]; intros skip prev.
  - destruct skip; simpl; [|left; reflexivity].
    destruct (matchHere r prev []); [right | left; reflexivity].
    exists [], []. reflexivity.
  - destruct skip as [|n].
    + rewrite replaceAllFrom_scan_cons.
      destruct (matchHere r prev (c :: s)) as [rest|].
      * right. eexists [], _. reflexivity.
      * destruct (IH 0 (Some c)) as [E | (a & b & E)]; rewrite E.
        -- left. reflexivity.
        -- right. exists (c :: a), b. reflexivity.
    + rewrite replaceAllFrom_skip_cons. simpl skipn. apply IH.
Qed.

Lemma replaceFirstFrom_shape (r : re) (m : jsstring) :
  forall s prev,
    replaceFirstFrom r m prev s = s \/
    exists a b, replaceFirstFrom r m prev s = a ++ m ++ b.
Proof.
  induction s as [|c s IH]; intro prev; simpl.
  - destruct (matchHere r prev []) as [rest|]; [right | left; reflexivity].
    exists [], rest. reflexivity.
  - destruct (matchHere r prev (c :: s)) as [rest|].
    + right. exists [], rest. reflexivity.
    + destruct (IH (Some c)) as [E | (a & b & E)]; rewrite E.
      * left. reflexivity.
      * right. exists (c :: a), b. reflexivity.
Qed.

(** A replacement by the marker never removes the last marker. *)
Lemma replace_keeps_marker (p : regexp) (m s : jsstring) :
  includes m s = true -> includes m (replace p m s) = true.
Proof.
  intro H. unfold replace, replaceAll, replaceFirst. destruct (global p).
  - destruct (replaceAllFrom_shape (body p) m s 0 None)
      as [E | (a & b & E)]; rewrite E; [exact H | apply includes_app].
  - destruct (replaceFirstFrom_shape (body p) m s None)
      as [E | (a & b & E)]; rewrite E; [exact H | apply includes_app].
Qed.

Lemma redact_fold_keeps_marker (ps : list regexp) :
  forall s, includes REDACTED s = true ->
  includes REDACTED
    (fold_left (fun sanitized p => replace p REDACTED sanitized) ps s) = true.
Proof.
  induction ps as [|p ps IH]; intros s H; simpl; [exact H|].
  apply IH. apply replace_keeps_marker. exact H.
Qed.

Lemma semantic_keeps_marker (s : jsstring) :
  includes REDACTED s = true ->
  includes REDACTED (semanticRedactContext s) = true.
Proof.
  unfold semanticRedactContext. generalize sensitivePatterns as ps.
  intro ps. revert s. induction ps as [|p ps IH]; intros s H; simpl;
    [exact H|].
  apply IH. unfold redactStep. destruct (rtest p s); [|exact H].
  apply replace_keeps_marker. exact H.
Qed.


Lemma firstPass_eq (text : jsstring) :
  firstPass text = replaceAll (boundedDigits 12 16) REDACTED text.
Proof. reflexivity. Qed.


(** *** What a pass over digit runs leaves behind *)

Section AfterPass.

Variables lo hi : nat.
Hypothesis Hlo : 1 <= lo.
Hypothesis Hhi : lo <= hi.
Variable m : jsstring.
Hypothesis Hm : noDigits m = true.

Local Abbreviation P := (boundedDigits lo hi).

Lemma digitsMatch_no_digit (prev : option ascii) (s : jsstring) :
  digitsPrefix s = 0 -> digitsMatch lo hi prev s = None.
Proof.
  intro H. unfold digitsMatch. cbv zeta. rewrite H.
  assert ((lo <=? 0) = false) as -> by (apply Nat.leb_gt; lia).
  rewrite andb_false_r. reflexivity.
Qed.

Lemma digitsMatch_after_word (prev : option ascii) (s : jsstring) :
  wordBefore prev = true -> digitsMatch lo hi prev s = None.
Proof. intro H. unfold digitsMatch. cbv zeta. rewrite H. reflexivity. Qed.

Lemma testFrom_cons_None (prev : option ascii) (c : ascii) (s : jsstring) :
  digitsMatch lo hi prev (c :: s) = None ->
  testFrom P prev (c :: s) = testFrom P (Some c) s.
Proof.
  intro H. simpl testFrom.
  rewrite (matchHere_boundedDigits lo hi prev (c :: s) Hlo Hhi), H.
  reflexivity.
Qed.

(** No match starts inside the replacement text. *)
Lemma testFrom_marker (x : jsstring) :
  forall mk prev, noDigits mk = true ->
    testFrom P prev (mk ++ x) = testFrom P (lastOr prev mk) x.
Proof.
  induction mk as [|c mk IH]; intros prev H; [reflexivity|].
  simpl in H. apply andb_true_iff in H. destruct H as [Hc Hmk].
  apply negb_true_iff in Hc.
  simpl app. rewrite testFrom_cons_None.
  - simpl lastOr. apply IH. exact Hmk.
  - apply digitsMatch_no_digit. simpl. rewrite Hc. reflexivity.
Qed.

(** Inside a run of digits neither the scan nor a test finds a match. *)
Lemma replaceAllFrom_in_run (t : jsstring) :
  forall r prev, forallb isDigit r = true -> wordBefore prev = true ->
    replaceAllFrom P m 0 prev (r ++ t) =
    r ++ replaceAllFrom P m 0 (lastOr prev r) t.
Proof.
  induction r as [|d r IH]; intros prev Hr Hp; [reflexivity|].
  simpl in Hr. apply andb_true_iff in Hr. destruct Hr as [Hd Hr].
  simpl app. rewrite replaceAllFrom_scan_cons.
  rewrite (matchHere_boundedDigits lo hi prev _ Hlo Hhi).
  rewrite (digitsMatch_after_word prev _ Hp). simpl lastOr.
  rewrite (IH (Some d) Hr (isDigit_word d Hd)). reflexivity.
Qed.

Lemma testFrom_in_run (t : jsstring) :
  forall r prev, forallb isDigit r = true -> wordBefore prev = true ->
    testFrom P prev (r ++ t) = testFrom P (lastOr prev r) t.
Proof.
  induction r as [|d r IH]; intros prev Hr Hp; [reflexivity|].
  simpl in Hr. apply andb_true_iff in Hr. destruct Hr as [Hd Hr].
  simpl app. rewrite testFrom_cons_None.
  - simpl lastOr. apply IH; [exact Hr | exact (isDigit_word d Hd)].
  - apply digitsMatch_after_word. exact Hp.
Qed.

(** The scan of a text that does not begin with a digit begins with the
    same code unit. *)
Lemma replaceAllFrom_head (prev : option ascii) (t : jsstring) :
  digitsPrefix t = 0 ->
  digitsPrefix (replaceAllFrom P m 0 prev t) = 0 /\
  wordAfter (replaceAllFrom P m 0 prev t) = wordAfter t.
Proof.
  intro H. destruct t as [|x t].
  - simpl. rewrite (matchHere_boundedDigits lo hi prev [] Hlo Hhi).
    rewrite (digitsMatch_no_digit prev [] eq_refl). split; reflexivity.
  - rewrite replaceAllFrom_scan_cons.
    rewrite (matchHere_boundedDigits lo hi prev _ Hlo Hhi).
    rewrite (digitsMatch_no_digit prev _ H). simpl in *.
    destruct (isDigit x); [discriminate H | split; reflexivity].
Qed.

Lemma firstn_digits (s : jsstring) :
  forallb isDigit (firstn (digitsPrefix s) s) = true.
Proof.
  induction s as [|c s IH]; simpl; [reflexivity|].
  destruct (isDigit c) eqn:E; simpl; [rewrite E; exact IH | reflexivity].
Qed.

Lemma digitsPrefix_app_run (r t : jsstring) :
  forallb isDigit r = true -> digitsPrefix t = 0 ->
  digitsPrefix (r ++ t) = List.length r.
Proof.
  induction r as [|d r IH]; simpl; intros Hr Ht; [exact Ht|].
  apply andb_true_iff in Hr. destruct Hr as [-> Hr].
  rewrite (IH Hr Ht). reflexivity.
Qed.

(** The attempt at the start of a run depends on the run, on what is before
    it and on whether a word character follows. *)
Lemma digitsMatch_run_None (prev : option ascii) (r t t' : jsstring) :
  forallb isDigit r = true ->
  digitsPrefix t = 0 -> digitsPrefix t' = 0 ->
  wordAfter t' = wordAfter t ->
  digitsMatch lo hi prev (r ++ t) = None ->
  digitsMatch lo hi prev (r ++ t') = None.
Proof.
  intros Hr Ht Ht' Hw. unfold digitsMatch. cbv zeta.
  rewrite (digitsPrefix_app_run r t Hr Ht).
  rewrite (digitsPrefix_app_run r t' Hr Ht').
  rewrite !skipn_app, !skipn_all, Nat.sub_diag. simpl skipn. simpl app.
  rewrite Hw.
  destruct (negb (wordBefore prev) && (lo <=? List.length r) &&
            (List.length r <=? hi) && negb (wordAfter t)); [discriminate|].
  reflexivity.
Qed.

Lemma pass_leaves_no_match :
  forall n s, len s <= n ->
  forall prev prevOut,
    prevOut = prev \/ digitsPrefix s = 0 ->
    testFrom P prevOut (replaceAllFrom P m 0 prev s) = false.
Proof.
  induction n as [|n IH]; intros s Hn prev prevOut Hrel.
  - destruct s as [|c s]; [|unfold len in Hn; simpl in Hn; lia].
    simpl. rewrite (matchHere_boundedDigits lo hi prev [] Hlo Hhi).
    rewrite (digitsMatch_no_digit prev [] eq_refl). simpl.
    rewrite (matchHere_boundedDigits lo hi prevOut [] Hlo Hhi).
    rewrite (digitsMatch_no_digit prevOut [] eq_refl). reflexivity.
  - destruct s as [|c s'].
    + simpl. rewrite (matchHere_boundedDigits lo hi prev [] Hlo Hhi).
      rewrite (digitsMatch_no_digit prev [] eq_refl). simpl.
      rewrite (matchHere_boundedDigits lo hi prevOut [] Hlo Hhi).
      rewrite (digitsMatch_no_digit prevOut [] eq_refl). reflexivity.
    + assert (len s' <= n) as Hn' by (unfold len in *; simpl in Hn; lia).
      rewrite replaceAllFrom_scan_cons.
      rewrite (matchHere_boundedDigits lo hi prev _ Hlo Hhi).
      destruct (digitsMatch lo hi prev (c :: s')) as [rest|] eqn:Em.
      * (* the run is replaced *)
        destruct (digitsMatch_Some lo hi prev _ _ Em) as (Hrest & Hd & Hlen).
        cbv zeta. rewrite Hlen.
        destruct (digitsPrefix (c :: s')) as [|d'] eqn:Ed; [lia|].
        simpl Nat.eqb. cbv iota. simpl Nat.sub. rewrite Nat.sub_0_r.
        simpl skipn in Hrest.
        assert (s' = firstn d' s' ++ rest) as Es'
          by (rewrite Hrest; symmetry; apply firstn_skipn).
        assert (List.length (firstn d' s') = d') as Hfl.
        { apply firstn_length_le.
          pose proof (digitsPrefix_le_len (c :: s')) as Hle.
          rewrite Ed in Hle. unfold len in Hle. simpl in Hle. lia. }
        rewrite Es' at 1. rewrite <- Hfl at 1.
        rewrite replaceAllFrom_skip_app.
        rewrite (testFrom_marker _ m prevOut Hm).
        apply IH.
        -- unfold len in *. rewrite Hrest, length_skipn. lia.
        -- right. rewrite Hrest.
           pose proof (digitsPrefix_zero_skipn (c :: s')) as Hz.
           rewrite Ed in Hz. exact Hz.
      * destruct (isDigit c) eqn:Ec.
        -- (* an unmatched run is copied *)
           destruct Hrel as [-> | Hz]; [|simpl in Hz; rewrite Ec in Hz; lia].
           set (d := digitsPrefix s').
           assert (s' = firstn d s' ++ skipn d s') as Es'
             by (symmetry; apply firstn_skipn).
           pose proof (firstn_digits s') as Hrun. fold d in Hrun.
           pose proof (digitsPrefix_zero_skipn s') as Htail. fold d in Htail.
           rewrite Es'.
           rewrite (replaceAllFrom_in_run (skipn d s') (firstn d s') (Some c)
                      Hrun (isDigit_word c Ec)).
           destruct (replaceAllFrom_head
                       (lastOr (Some c) (firstn d s')) (skipn d s') Htail)
             as [Hout0 HoutW].
           rewrite testFrom_cons_None.
           ++ rewrite (testFrom_in_run _ (firstn d s') (Some c) Hrun
                         (isDigit_word c Ec)).
              apply IH; [|left; reflexivity].
              unfold len in *. rewrite length_skipn. lia.
           ++ apply (digitsMatch_run_None prev (c :: firstn d s')
                       (skipn d s') _).
              ** simpl. rewrite Ec. exact Hrun.
              ** exact Htail.
              ** exact Hout0.
              ** exact HoutW.
              ** simpl app. rewrite <- Es'. exact Em.
        -- rewrite testFrom_cons_None.
           ++ apply IH; [exact Hn' | left; reflexivity].
           ++ apply digitsMatch_no_digit. simpl. rewrite Ec. reflexivity.
Qed.

Lemma replaceAll_leaves_no_match (s : jsstring) :
  test P (replaceAll P m s) = false.
Proof.
  unfold test, replaceAll.
  apply (pass_leaves_no_match (len s) s (le_n _) None None).
  left. reflexivity.
Qed.

End AfterPass.

(** *** Runs of digits under replacement *)










Section DigitRuns.

Variable n : nat.
Hypothesis Hn : 1 <= n.












Variable m : jsstring.
Hypothesis Hm : noDigits m = true.
Hypothesis Hne : m <> [].





End DigitRuns.







End SanitizerFacts.

Module ChatRouteFacts.
Import Regex Chat HybridSearch ChatRoute Vocabulary Examples JsStringFacts
       SanitizerFacts.

(** ** Chat route *)

(** A request that passes the payload checks reaches the input policy. *)
Lemma chatRoute_valid (w : World) (req : Request) (st : St)
  (sid um : jsstring) :
  sessionIdOf req = Some sid ->
  sid <> [] ->
  userMessageOf (lastMessage (body_messages req)) = Some um ->
  trim um <> [] ->
  isValidObjectId w sid = true ->
  chatRoute w req st =
  if violatesInputPolicy (trim um) then (Json 403 REFUSAL, st)
  else match answer w sid (trim um) st with
       | (Ok response, st') => (response, st')
       | (Throw _, st') => (Json 500 (str "Chat request failed"), st')
       end.
Proof.
  intros Hsid Hne Hum Htrim Hvalid. unfold chatRoute.
  rewrite Hsid, Hum, Hvalid.
  assert (truthy (Some sid) = true) as ->
    by (destruct sid; [contradiction | reflexivity]).
  assert (isSome (body_messages req) = true) as ->.
  { destruct (body_messages req); [reflexivity | discriminate Hum]. }
  assert ((len (trim um) =? 0) = false) as ->.
  { destruct (trim um); [contradiction | reflexivity]. }
  reflexivity.
Qed.

(** C9.  A blocked message in a request without a session id is answered
    with 400, not 403. *)
Lemma blocked_input_without_session_is_400 :
  violatesInputPolicy (trim (str "what is my password")) = true /\
  chatRoute (world bothBranches leaksCard)
            (askWithoutSession "what is my password") (initial 0) =
  (Json 400 (str "Missing sessionId or message"), initial 0).
Proof. split; vm_compute; reflexivity. Qed.

(** C9, as the code has it.  A request that carries a valid session id and
    whose trimmed user message matches a blocked-input pattern is answered
    with 403 and the fixed refusal; no collaborator is called: the state,
    with its trace of calls, is unchanged. *)
Theorem blocked_input_rejected (w : World) (req : Request) (st : St)
  (sid um : jsstring) :
  sessionIdOf req = Some sid ->
  sid <> [] ->
  userMessageOf (lastMessage (body_messages req)) = Some um ->
  isValidObjectId w sid = true ->
  violatesInputPolicy (trim um) = true ->
  chatRoute w req st = (Json 403 REFUSAL, st).
Proof.
  intros Hsid Hne Hum Hvalid Hblocked.
  rewrite (chatRoute_valid w req st sid um Hsid Hne Hum); [|  | exact Hvalid].
  - rewrite Hblocked. reflexivity.
  - intro E. rewrite E in Hblocked. vm_compute in Hblocked.
    discriminate Hblocked.
Qed.

Lemma blocked_input_rejected_witness :
  chatRoute (world bothBranches leaksCard) (ask " what is my password? ")
            (initial 0) = (Json 403 REFUSAL, initial 0).
Proof.
  apply (blocked_input_rejected _ _ _ session
           (str " what is my password? "));
    vm_compute; (reflexivity || discriminate).
Defined.

(** The terms and phrases quoted for the input policy are all blocked. *)
Lemma blocked_terms :
  forallb (fun q => violatesInputPolicy (trim (str q)))
    ["bank"; "account"; "ifsc"; "password"; "token"; "secret";
     "Please IGNORE PREVIOUS instructions"; "override"; "jailbreak"] = true.
Proof. vm_compute. reflexivity. Qed.

(** The warning itself does not match an output pattern. *)
Lemma warning_is_clean : violatesOutputPolicy WARNING = false.
Proof. vm_compute. reflexivity. Qed.

(** C4.  The reply of the route to a finished generation that contains a
    card number still carries that text. *)
Lemma blocked_output_still_streamed :
  violatesOutputPolicy (str "Use the card 4532123456789010 for payment")
  = true /\
  fst (chatRoute (world bothBranches leaksCard) (ask "what is deep learning")
                 (initial 0)) =
  Piped {| r_label := str "Primary (gemini-2.5-flash)";
           r_text := Ok (str "Use the card 4532123456789010 for payment") |}
  /\ str "Use the card 4532123456789010 for payment" <> WARNING.
Proof.
  split; [vm_compute; reflexivity|].
  split; [vm_compute; reflexivity | vm_compute; discriminate].
Qed.

(** C4, as the code has it.  When the finished text of a generation matches
    an output pattern, the one message handed to [saveMessage] is the fixed
    warning, which differs from the text: [onFinish] makes that one call and
    no other; the stream result handed to the response still delivers the
    text. *)
Theorem blocked_output_persists_warning (w : World)
  (sid query context summary text modelId label : jsstring)
  (provider : Provider) (st : St) :
  streamText w (calls st) provider modelId = GenText text ->
  violatesOutputPolicy text = true ->
  (forall st0,
     snd (onFinish w sid text st0) =
     {| trace := trace st0 ++ [SaveMessage sid assistant WARNING];
        calls := calls st0;
        rateLimitedUntil := rateLimitedUntil st0 |}) /\
  text <> WARNING /\
  exists st',
    createStream w sid query context summary provider modelId label st =
    (Ok {| r_label := label; r_text := Ok text |}, st') /\
    trace st' = trace st ++
      [StreamText provider modelId label
                  (buildUserText summary query context);
       SaveMessage sid assistant WARNING] /\
    assistantMessages (trace st') = assistantMessages (trace st) ++ [WARNING].
Proof.
  intros Hgen Hbad.
  assert (forall st0,
            snd (onFinish w sid text st0) =
            {| trace := trace st0 ++ [SaveMessage sid assistant WARNING];
               calls := calls st0;
               rateLimitedUntil := rateLimitedUntil st0 |}) as Hfin.
  { intro st0. unfold onFinish. rewrite Hbad.
    unfold bind, emit, liftAt. simpl.
    destruct (saveAssistantMessage w (calls st0) sid WARNING) as [[]|e];
      reflexivity. }
  split; [exact Hfin|]. split.
  - intros ->. rewrite warning_is_clean in Hbad. discriminate Hbad.
  - unfold createStream. rewrite Hgen. eexists. split; [reflexivity|].
    rewrite Hfin. simpl trace. rewrite <- app_assoc. split; [reflexivity|].
    unfold assistantMessages. rewrite flat_map_app. reflexivity.
Qed.

Lemma blocked_output_persists_warning_witness :
  snd (onFinish (world bothBranches leaksCard) session
         (str "Use the card 4532123456789010 for payment") (initial 0)) =
  {| trace := [SaveMessage session assistant WARNING];
     calls := 0; rateLimitedUntil := 0 |} /\
  str "Use the card 4532123456789010 for payment" <> WARNING.
Proof.
  destruct (blocked_output_persists_warning
              (world bothBranches leaksCard) session
              (str "what is deep learning") [] []
              (str "Use the card 4532123456789010 for payment")
              PRIMARY_MODEL (str "Primary (gemini-2.5-flash)") Google
              (initial 0) eq_refl eq_refl) as (H1 & H2 & _).
  split; [exact (H1 (initial 0)) | exact H2].
Defined.

Lemma empty_output_not_rate_limit :
  isRateLimitError (mkError "Empty Gemini output") = false.
Proof. vm_compute. reflexivity. Qed.

Lemma primary_not_fallback_call (w : World) (p : Provider)
  (m l u : jsstring) (x : jsstring) :
  l = str "Primary (" ++ x ->
  isFallbackCall w (StreamText p m l u) = false.
Proof.
  intros ->. unfold isFallbackCall, fallbackLabel.
  destruct p; [reflexivity|]. simpl. apply andb_false_r.
Qed.

Lemma fallback_is_fallback_call (w : World) (u : jsstring) :
  isFallbackCall w
    (StreamText OpenAI (FALLBACK_MODEL (config w)) (fallbackLabel w) u)
  = true.
Proof. unfold isFallbackCall. rewrite !eqs_refl. reflexivity. Qed.

Lemma fallbackCalls_app (w : World) (a b : list Event) :
  fallbackCalls w (a ++ b) = fallbackCalls w a + fallbackCalls w b.
Proof. unfold fallbackCalls. rewrite filter_app, length_app. reflexivity. Qed.

Lemma fallbackCalls_one (w : World) (e : Event) :
  fallbackCalls w [e] = if isFallbackCall w e then 1 else 0.
Proof.
  unfold fallbackCalls. cbn [filter]. destruct (isFallbackCall w e);
    reflexivity.
Qed.

(** C5 (evaluation at the failing input).  The primary answer is empty and
    the first call for the fallback model throws: the handler of the
    surrounding [try] calls the fallback a second time. *)
Theorem empty_primary_fallback_called_twice :
  let w := world bothBranches emptyThenThrow in
  let out := chatRoute w (ask "what is deep learning") (initial 0) in
  fallbackCalls w (trace (snd out)) = 2 /\
  fst out =
  Piped {| r_label := fallbackLabel w;
           r_text := Ok (str "Deep learning uses multiple layers.") |}.
Proof. vm_compute. split; reflexivity. Qed.

(** *** The trace only grows *)

Lemma grows_ret {A : Type} (a : A) : grows (ret a).
Proof. intro st. exists []. simpl. rewrite app_nil_r. reflexivity. Qed.

Lemma grows_throw {A : Type} (e : JsError) : grows (@throw A e).
Proof. intro st. exists []. simpl. rewrite app_nil_r. reflexivity. Qed.

Lemma grows_lift {A : Type} (r : Result A) : grows (lift r).
Proof. intro st. exists []. simpl. rewrite app_nil_r. reflexivity. Qed.

Lemma grows_emit (e : Event) : grows (emit e).
Proof. intro st. exists [e]. reflexivity. Qed.

Lemma grows_liftAt {A : Type} (f : nat -> Result A) : grows (liftAt f).
Proof. intro st. exists []. simpl. rewrite app_nil_r. reflexivity. Qed.

Lemma grows_bind {A B : Type} (m : M A) (f : A -> M B) :
  grows m -> (forall a, grows (f a)) -> grows (bind m f).
Proof.
  intros Hm Hf st. unfold bind. destruct (Hm st) as [more1 H1].
  destruct (m st) as [[a|e] st1]; simpl in H1.
  - destruct (Hf a st1) as [more2 H2]. exists (more1 ++ more2).
    rewrite H2, H1, app_assoc. reflexivity.
  - exists more1. exact H1.
Qed.

Lemma grows_tryCatch {A : Type} (m : M A) (h : JsError -> M A) :
  grows m -> (forall e, grows (h e)) -> grows (tryCatch m h).
Proof.
  intros Hm Hh st. unfold tryCatch. destruct (Hm st) as [more1 H1].
  destruct (m st) as [[a|e] st1]; simpl in H1.
  - exists more1. exact H1.
  - destruct (Hh e st1) as [more2 H2]. exists (more1 ++ more2).
    rewrite H2, H1, app_assoc. reflexivity.
Qed.

Lemma grows_markRateLimited (w : World) (e : JsError) :
  grows (markRateLimited w e).
Proof.
  intro st. unfold markRateLimited. exists [].
  destruct (isRateLimitError e); simpl; rewrite app_nil_r; reflexivity.
Qed.

Lemma grows_summaryStream (w : World) (userText : jsstring) :
  grows (summaryStream w userText).
Proof.
  intro st. unfold summaryStream. eexists [_].
  destruct (streamText w (calls st) _ _); reflexivity.
Qed.

Lemma grows_updateRollingSummary (w : World) (sid : jsstring) :
  grows (updateRollingSummary w sid).
Proof.
  unfold updateRollingSummary.
  apply grows_bind; [apply grows_emit|]. intros _.
  apply grows_bind; [apply grows_liftAt|]. intro total.
  destruct (_ || _); [apply grows_ret|].
  apply grows_bind; [apply grows_emit|]. intros _.
  apply grows_bind; [apply grows_liftAt|]. intro existing.
  apply grows_bind; [apply grows_emit|]. intros _.
  apply grows_bind; [apply grows_liftAt|]. intro recent.
  apply grows_bind; [apply grows_summaryStream|]. intro text.
  destruct (trim text); [apply grows_ret|].
  apply grows_bind; [apply grows_emit|]. intros _. apply grows_liftAt.
Qed.

Lemma grows_maybeUpdateRollingSummary (w : World) (sid : jsstring) :
  grows (maybeUpdateRollingSummary w sid).
Proof.
  intro st. unfold maybeUpdateRollingSummary.
  destruct (_ || _);
    [exists []; simpl; rewrite app_nil_r; reflexivity|].
  destruct (_ <? _)%Z;
    [exists []; simpl; rewrite app_nil_r; reflexivity|].
  apply (grows_tryCatch _ _ (grows_updateRollingSummary w sid)).
  intro e. apply grows_ret.
Qed.

Lemma grows_onFinish (w : World) (sid text : jsstring) :
  grows (onFinish w sid text).
Proof.
  unfold onFinish. destruct (violatesOutputPolicy text).
  - apply grows_bind; [apply grows_emit|]. intros _. apply grows_liftAt.
  - apply grows_bind; [apply grows_emit|]. intros _.
    apply grows_bind; [apply grows_liftAt|]. intros _.
    apply grows_maybeUpdateRollingSummary.
Qed.

(** A call of [createStream] records its [streamText] call first. *)
Lemma createStream_first (w : World) (sid query context summary : jsstring)
  (p : Provider) (m l : jsstring) (st : St) :
  exists more,
    trace (snd (createStream w sid query context summary p m l st)) =
    trace st ++ StreamText p m l (buildUserText summary query context)
             :: more.
Proof.
  unfold createStream. destruct (streamText w (calls st) p m).
  - exists []. reflexivity.
  - exists []. reflexivity.
  - cbn [snd].
    match goal with
    | |- context [onFinish w sid t ?st1] =>
        destruct (grows_onFinish w sid t st1) as [more H]
    end.
    exists more. rewrite H. simpl trace. rewrite <- app_assoc. reflexivity.
Qed.

Lemma grows_createStream (w : World) (sid query context summary : jsstring)
  (p : Provider) (m l : jsstring) :
  grows (createStream w sid query context summary p m l).
Proof.
  intro st.
  destruct (createStream_first w sid query context summary p m l st)
    as [more H].
  eexists. exact H.
Qed.

Lemma grows_ensureOpenAiFallback (w : World)
  (sid query context summary : jsstring) (e : JsError) :
  grows (ensureOpenAiFallback w sid query context summary e).
Proof.
  unfold ensureOpenAiFallback. destruct (truthy _).
  - apply grows_bind; [apply grows_markRateLimited|].
    intros _. apply grows_createStream.
  - apply grows_throw.
Qed.

(** The first call of [generate] is the [streamText] call of the primary
    attempt, with the user text built from the context. *)
Lemma generate_first (w : World) (sid query context summary : jsstring)
  (st : St) :
  exists more,
    trace (snd (generate w sid query context summary st)) =
    trace st ++
    StreamText (resolveModel (primaryModelId w st)) (primaryModelId w st)
               (primaryLabel w st) (buildUserText summary query context)
    :: more.
Proof.
  unfold generate. fold (primaryModelId w st). fold (primaryLabel w st).
  destruct (createStream_first w sid query context summary
              (resolveModel (primaryModelId w st)) (primaryModelId w st)
              (primaryLabel w st) st) as [more1 H1].
  destruct (createStream w sid query context summary
              (resolveModel (primaryModelId w st)) (primaryModelId w st)
              (primaryLabel w st) st) as [[primaryResult|error] st1];
    simpl in H1.
  - match goal with
    | |- exists more, trace (snd (?m st1)) = _ =>
        assert (grows m) as Hg
    end.
    { apply grows_bind.
      - apply grows_tryCatch.
        + apply grows_bind; [apply grows_lift|]. intro primaryText.
          destruct (len (trim primaryText) =? 0); [|apply grows_ret].
          apply grows_bind; [apply grows_ensureOpenAiFallback|].
          intro. apply grows_ret.
        + intro e. apply grows_bind; [apply grows_markRateLimited|].
          intros _. apply grows_bind; [apply grows_ensureOpenAiFallback|].
          intro. apply grows_ret.
      - intros [response|]; apply grows_ret. }
    destruct (Hg st1) as [more2 H2]. exists (more1 ++ more2).
    rewrite H2, H1. rewrite <- app_assoc. reflexivity.
  - match goal with
    | |- exists more, trace (snd (?m st1)) = _ =>
        assert (grows m) as Hg
    end.
    { apply grows_bind; [apply grows_markRateLimited|].
      intros _. apply grows_bind; [apply grows_ensureOpenAiFallback|].
      intro. apply grows_ret. }
    destruct (Hg st1) as [more2 H2]. exists (more1 ++ more2).
    rewrite H2, H1. rewrite <- app_assoc. reflexivity.
Qed.

(** A primary answer that is not blank is piped to the client as it is. *)
Lemma generate_primary_ok (w : World) (sid query context summary : jsstring)
  (st : St) (t : jsstring) :
  streamText w (calls st) (resolveModel (primaryModelId w st))
             (primaryModelId w st) = GenText t ->
  trim t <> [] ->
  fst (generate w sid query context summary st) =
  Ok (Piped {| r_label := primaryLabel w st; r_text := Ok t |}).
Proof.
  intros Hgen Ht. unfold generate.
  fold (primaryModelId w st). fold (primaryLabel w st).
  unfold createStream. rewrite Hgen.
  unfold bind, tryCatch, lift, ret. simpl r_text. cbv beta iota.
  destruct (trim t) as [|c t']; [contradiction|]. reflexivity.
Qed.

Lemma answer_generate (w : World) (sid query : jsstring) (st : St)
  (rs : list HybridSearchResult) (summary : jsstring) :
  saveUserMessage w sid query = Ok tt ->
  hybridSearch (retrieval w) query = Ok rs ->
  summaryOf w sid = Ok summary ->
  answer w sid query st =
  generate w sid query
    (sanitizeContext
       (buildRawContext (filterResults (MIN_CONTEXT_SCORE (config w)) rs)))
    (trim summary) (afterRetrieval w sid query st).
Proof.
  intros Hsave Hrag Hsum. unfold answer, summaryOf, afterRetrieval in *.
  unfold bind, emit, lift. simpl. rewrite Hsave, Hrag.
  destruct (ENABLE_ROLLING_SUMMARY (config w)).
  - unfold bind, emit, lift. simpl. rewrite Hsum.
    rewrite <- !app_assoc. reflexivity.
  - unfold ret. inversion Hsum; subst.
    rewrite <- !app_assoc. simpl. reflexivity.
Qed.

Lemma filterResults_In (minScore : float) (rs : list HybridSearchResult)
  (r : HybridSearchResult) :
  In r (filterResults minScore rs) <->
  In r rs /\ (minScore <=? finalScore r)%float = true.
Proof. unfold filterResults. apply filter_In. Qed.

Lemma filterResults_none (minScore : float) (rs : list HybridSearchResult) :
  (forall r, In r rs -> (minScore <=? finalScore r)%float = false) ->
  filterResults minScore rs = [].
Proof.
  unfold filterResults. induction rs as [|r rs IH]; intro H; [reflexivity|].
  simpl. rewrite (H r (or_introl eq_refl)). apply IH.
  intros r' Hr'. apply H. right. exact Hr'.
Qed.

Lemma includes_suffix (p a : jsstring) : includes p (a ++ p) = true.
Proof.
  rewrite <- (app_nil_r p) at 2. apply includes_app.
Qed.

Lemma includes_trans (p q s : jsstring) :
  includes p q = true -> includes q s = true -> includes p s = true.
Proof.
  intros Hpq Hqs. apply includes_true in Hqs.
  destruct Hqs as (a & b & ->). apply includes_context. exact Hpq.
Qed.

Lemma includes_join_part (sep x : jsstring) (l : list jsstring) :
  In x l -> includes x (join sep l) = true.
Proof.
  induction l as [|y l IH]; intro H; [destruct H|].
  destruct l as [|z l].
  - destruct H as [<- | []]. simpl. apply (includes_suffix y []).
  - change (join sep (y :: z :: l)) with (y ++ sep ++ join sep (z :: l)).
    destruct H as [<- | H].
    + apply (includes_app y []).
    + rewrite app_assoc. apply (includes_context x (y ++ sep) _ []) in IH;
        [|exact H].
      rewrite app_nil_r in IH. exact IH.
Qed.

Lemma mapi_nth {A B : Type} (f : nat -> A -> B) (l : list A) :
  forall k i a, nth_error l i = Some a -> In (f (k + i) a) (mapi f k l).
Proof.
  induction l as [|x l IH]; intros k i a H; [destruct i; discriminate H|].
  destruct i as [|i]; simpl in H.
  - inversion H; subst. rewrite Nat.add_0_r. left. reflexivity.
  - right. replace (k + S i) with (S k + i) by lia. apply IH. exact H.
Qed.

Lemma content_in_sourceBlock (i : nat) (r : HybridSearchResult) :
  includes (content r) (sourceBlock i r) = true.
Proof.
  unfold sourceBlock. rewrite !app_assoc. apply includes_suffix.
Qed.

(** The block of every result handed to [buildRawContext] is in the raw
    context, under its number. *)
Lemma buildRawContext_blocks (kept : list HybridSearchResult) (i : nat)
  (r : HybridSearchResult) :
  nth_error kept i = Some r ->
  includes (sourceBlock i r) (buildRawContext kept) = true.
Proof.
  intro H. unfold buildRawContext. apply includes_join_part.
  exact (mapi_nth sourceBlock kept 0 i r H).
Qed.

(** The user text carries the query, and the context when there is one. *)
Lemma buildUserText_query (summary query context : jsstring) :
  includes query (buildUserText summary query context) = true.
Proof.
  unfold buildUserText. cbv zeta.
  destruct (if len (trim context) =? 0 then [] else _).
  - apply includes_suffix.
  - apply includes_app.
Qed.

Lemma buildUserText_context (summary query context : jsstring) :
  trim context <> [] ->
  includes context (buildUserText summary query context) = true.
Proof.
  intro H. unfold buildUserText. cbv zeta.
  destruct (trim context) as [|c t] eqn:E; [contradiction|].
  cbn [len List.length Nat.eqb]. cbv iota.
  change (str "---" ++ LF ++ str "Context:" ++ LF ++ context)
    with ("-"%char :: (str "--" ++ LF ++ str "Context:" ++ LF) ++ context).
  cbv iota.
  match goal with
  | |- includes _ (?sb ++ _) = true =>
      replace (sb ++ query ++ LF ++ LF ++
               "-"%char :: (str "--" ++ LF ++ str "Context:" ++ LF) ++ context)
        with ((sb ++ query ++ LF ++ LF ++
               "-"%char :: (str "--" ++ LF ++ str "Context:" ++ LF))
              ++ context)
  end.
  - apply includes_suffix.
  - rewrite <- !app_assoc. reflexivity.
Qed.

(** C10.  In a request that reaches retrieval, the context is built from
    the results whose [finalScore] is at least [MIN_CONTEXT_SCORE], and from
    no other: the raw context holds the block of every kept result, with
    its number, its path and its content; it is what the sanitiser is
    applied to, and a raw context without sensitive matches passes it
    unchanged; the generation is called with a user text that carries the
    query and, when it is not blank, the sanitised context.  When every
    result is below the minimum the context is empty and the user text
    carries the query without a context block.  The request does not fail
    for want of context: a primary answer that is not blank is piped to the
    client. *)
Theorem context_from_results_above_minimum (w : World) (req : Request)
  (st : St) (sid um : jsstring) (rs : list HybridSearchResult)
  (summary : jsstring) :
  sessionIdOf req = Some sid ->
  sid <> [] ->
  userMessageOf (lastMessage (body_messages req)) = Some um ->
  trim um <> [] ->
  isValidObjectId w sid = true ->
  violatesInputPolicy (trim um) = false ->
  saveUserMessage w sid (trim um) = Ok tt ->
  hybridSearch (retrieval w) (trim um) = Ok rs ->
  summaryOf w sid = Ok summary ->
  let kept := filterResults (MIN_CONTEXT_SCORE (config w)) rs in
  let rawContext := buildRawContext kept in
  let context := sanitizeContext rawContext in
  let userText := buildUserText (trim summary) (trim um) context in
  (forall r, In r kept <->
             In r rs /\
             (MIN_CONTEXT_SCORE (config w) <=? finalScore r)%float = true) /\
  (forall i r, nth_error kept i = Some r ->
               includes (sourceBlock i r) rawContext = true /\
               includes (content r) rawContext = true) /\
  (anyMatch SENSITIVE_CONTEXT_PATTERNS rawContext = false ->
   hasCue rawContext = false ->
   anyMatch sensitivePatterns rawContext = false ->
   context = rawContext /\
   forall i r, nth_error kept i = Some r ->
               trim rawContext <> [] ->
               includes (sourceBlock i r) userText = true) /\
  In (StreamText (resolveModel (primaryModelId w st)) (primaryModelId w st)
                 (primaryLabel w st) userText)
     (trace (snd (chatRoute w req st))) /\
  includes (trim um) userText = true /\
  (trim context <> [] -> includes context userText = true) /\
  ((forall r, In r rs ->
              (MIN_CONTEXT_SCORE (config w) <=? finalScore r)%float = false)
   -> kept = [] /\ rawContext = [] /\ context = [] /\
      userText = buildUserText (trim summary) (trim um) []) /\
  (forall t,
      streamText w (calls st) (resolveModel (primaryModelId w st))
                 (primaryModelId w st) = GenText t ->
      trim t <> [] ->
      fst (chatRoute w req st) =
      Piped {| r_label := primaryLabel w st; r_text := Ok t |}).
Proof.
  intros Hsid Hne Hum Htrim Hvalid Hpolicy Hsave Hrag Hsum
         kept rawContext context userText.
  split; [intro r; apply filterResults_In|].
  assert (forall i r, nth_error kept i = Some r ->
                      includes (sourceBlock i r) rawContext = true) as Hblock.
  { intros i r Hr. apply buildRawContext_blocks. exact Hr. }
  split.
  { intros i r Hr. split; [exact (Hblock i r Hr)|].
    apply (includes_trans _ (sourceBlock i r));
      [apply content_in_sourceBlock | exact (Hblock i r Hr)]. }
  split.
  { intros H1 H2 H3.
    assert (context = rawContext) as Hid.
    { unfold context, sanitizeContext, redactPatterns.
      rewrite (redact_fold_clean _ _ H1).
      rewrite (filterInstructionContent_clean _ H2).
      apply semantic_fold_clean. exact H3. }
    split; [exact Hid|]. intros i r Hr Hraw.
    apply (includes_trans _ rawContext); [exact (Hblock i r Hr)|].
    unfold userText. rewrite Hid. apply buildUserText_context. exact Hraw. }
  split.
  { rewrite (chatRoute_valid w req st sid um Hsid Hne Hum Htrim Hvalid).
    rewrite Hpolicy.
    rewrite (answer_generate w sid (trim um) st rs summary Hsave Hrag Hsum).
    fold kept. fold rawContext. fold context.
    destruct (generate_first w sid (trim um) context (trim summary)
                (afterRetrieval w sid (trim um) st)) as [more Hmore].
    assert (forall x : Result Response * St,
              snd (match x with
                   | (Ok response, st') => (response, st')
                   | (Throw _, st') =>
                       (Json 500 (str "Chat request failed"), st')
                   end) = snd x) as Hsnd.
    { intros [[resp|e] st']; reflexivity. }
    rewrite Hsnd, Hmore. apply in_or_app. right. left. reflexivity. }
  split; [apply buildUserText_query|].
  split; [apply buildUserText_context|].
  split.
  - intro Hlow. assert (kept = []) as Hk
      by (apply filterResults_none; exact Hlow).
    split; [exact Hk|]. unfold userText, context, rawContext. rewrite Hk.
    repeat split; reflexivity.
  - intros t Hgen Ht.
    rewrite (chatRoute_valid w req st sid um Hsid Hne Hum Htrim Hvalid).
    rewrite Hpolicy.
    rewrite (answer_generate w sid (trim um) st rs summary Hsave Hrag Hsum).
    fold kept. fold rawContext. fold context.
    pose proof (generate_primary_ok w sid (trim um) context (trim summary)
                  (afterRetrieval w sid (trim um) st) t Hgen Ht) as Hok.
    destruct (generate w sid (trim um) context (trim summary)
                (afterRetrieval w sid (trim um) st)) as [[resp|e] st'];
      simpl in Hok; inversion Hok. reflexivity.
Qed.

Lemma context_from_results_above_minimum_witness :
  In (StreamText Google PRIMARY_MODEL (str "Primary (gemini-2.5-flash)")
        (str "what is deep learning" ++ LF ++ LF ++
         str "---" ++ LF ++ str "Context:" ++ LF ++
         str "Source 1 (kb.md):" ++ LF ++ str "Deep learning" ++ LF ++ LF ++
         str "Source 2 (kb.md):" ++ LF ++ str "Deep learning"))
     (trace (snd (chatRoute (world bothBranches answers)
                            (ask " what is deep learning ") (initial 0)))).
Proof.
  pose proof (context_from_results_above_minimum
                (world bothBranches answers) (ask " what is deep learning ")
                (initial 0) session (str " what is deep learning ")
                (rank (semanticDocs
                         {| documents := Some [[Some (str "Deep learning")]];
                            metadatas := Some [[Some kbMeta]];
                            distances := Some [[Some 0.25%float]] |} ++
                       lexicalDocs lexicalHits)) []) as T.
  assert (session <> []) as H2 by (vm_compute; discriminate).
  assert (trim (str " what is deep learning ") <> []) as H4
    by (vm_compute; discriminate).
  assert (violatesInputPolicy (trim (str " what is deep learning "))
          = false) as H6 by (vm_compute; reflexivity).
  specialize (T eq_refl H2 eq_refl H4 eq_refl H6 eq_refl eq_refl eq_refl).
  destruct T as (_ & _ & _ & H & _).
  vm_compute in H. vm_compute. exact H.
Defined.

(** A failure of retrieval ends the request with the general 500 answer. *)
Lemma chatRoute_retrieval_failure (w : World) (req : Request) (st : St)
  (sid um : jsstring) (e : JsError) :
  sessionIdOf req = Some sid ->
  sid <> [] ->
  userMessageOf (lastMessage (body_messages req)) = Some um ->
  trim um <> [] ->
  isValidObjectId w sid = true ->
  violatesInputPolicy (trim um) = false ->
  saveUserMessage w sid (trim um) = Ok tt ->
  hybridSearch (retrieval w) (trim um) = Throw e ->
  fst (chatRoute w req st) = Json 500 (str "Chat request failed").
Proof.
  intros Hsid Hne Hum Htrim Hvalid Hpolicy Hsave Hrag.
  rewrite (chatRoute_valid w req st sid um Hsid Hne Hum Htrim Hvalid).
  rewrite Hpolicy. unfold answer, bind, emit, lift. simpl.
  rewrite Hsave, Hrag. reflexivity.
Qed.

End ChatRouteFacts.

Module IngestFacts.
Import Regex Chat HybridSearch ChatRoute Ingest Vocabulary Examples
       JsStringFacts.

(** ** Ingestion *)

Lemma getWhere_deleteWhere (fp : jsstring) (c : list VectorRecord) :
  getWhere fp (deleteWhere fp c) = [].
Proof.
  unfold getWhere, deleteWhere. induction c as [|r c IH]; [reflexivity|].
  simpl. destruct (hasPath fp (v_meta r)) eqn:E; simpl; [exact IH|].
  rewrite E. exact IH.
Qed.

Lemma getWhere_app (fp : jsstring) (a b : list VectorRecord) :
  getWhere fp (a ++ b) = getWhere fp a ++ getWhere fp b.
Proof. unfold getWhere. apply filter_app. Qed.

(** [addAll] either adds every document, in order, or stops at a duplicate
    id. *)
Lemma addAll_Ok (docs : list LexicalDoc) :
  forall index index',
    addAll docs index = (Ok tt, index') -> index' = index ++ docs.
Proof.
  induction docs as [|d ds IH]; intros index index' H; simpl in H.
  - inversion H. rewrite app_nil_r. reflexivity.
  - destruct (existsb _ index); [discriminate H|].
    rewrite (IH _ _ H), <- app_assoc. reflexivity.
Qed.

Lemma addAll_duplicate (d : LexicalDoc) (ds index : list LexicalDoc) :
  (exists x, In x index /\ id x = id d) ->
  exists e, addAll (d :: ds) index = (Throw e, index).
Proof.
  intros (x & Hx & Hid). simpl.
  assert (existsb (fun y => eqs (id y) (id d)) index = true) as ->.
  { apply existsb_exists. exists x. split; [exact Hx|].
    rewrite Hid. apply eqs_refl. }
  eexists. reflexivity.
Qed.

Section IngestionFacts.

Variable splitText : jsstring -> list jsstring.
Variable hashContent : jsstring -> jsstring.
Variable embedTexts : list jsstring -> Result (list (list float)).

Local Abbreviation ingest := (ingestRoute splitText hashContent embedTexts).

(** What a successful ingestion leaves behind. *)
Lemma ingested_state (fp text : jsstring) (s s1 : Stores) :
  ingest (Some fp) (Some text) s = (Ingested fp, s1) ->
  exists chunk chunks e es,
    splitText text = chunk :: chunks /\
    collection s1 =
      deleteWhere fp (collection s) ++
      zipRecords fp (hashContent text) 0 (chunk :: chunks) (e :: es) /\
    miniSearch s1 =
      miniSearch s ++ lexicalDocsOf fp (chunk :: chunks).
Proof.
  unfold ingestRoute. intro H.
  destruct (negb (truthy (Some fp)) || negb (truthy (Some text)));
    [discriminate H|].
  destruct (isPDFFile fp); [discriminate H|].
  destruct (negb (withinLimits splitText text)); [discriminate H|].
  cbv zeta in H.
  destruct (match existingHash fp (collection s) with
            | Some h => eqs h (hashContent text)
            | None => false
            end); [discriminate H|].
  unfold ingestTextIntoChroma in H.
  destruct (len (trim text) =? 0); [discriminate H|].
  destruct (splitText text) as [|chunk chunks] eqn:Es; [discriminate H|].
  simpl miniSearch in H. simpl collection in H.
  destruct (addAll (lexicalDocsOf fp (chunk :: chunks)) (miniSearch s))
    as [[[]|e0] index] eqn:Ea; [|discriminate H].
  destruct (embedTexts (chunk :: chunks)) as [embeddings|e0];
    [|discriminate H].
  destruct (negb (List.length embeddings =? List.length (chunk :: chunks)))
    eqn:El; [discriminate H|].
  inversion H; subst; clear H. simpl.
  destruct embeddings as [|e es]; [discriminate El|].
  exists chunk, chunks, e, es. split; [reflexivity|]. split; [reflexivity|].
  apply (addAll_Ok _ _ _ Ea).
Qed.

(** After a successful ingestion the stored hash of the source is the hash
    of its text. *)
Lemma ingested_hash (fp text : jsstring) (s s1 : Stores) :
  ingest (Some fp) (Some text) s = (Ingested fp, s1) ->
  existingHash fp (collection s1) = Some (hashContent text).
Proof.
  intro H. destruct (ingested_state fp text s s1 H)
    as (chunk & chunks & e & es & _ & Hc & _).
  unfold existingHash. rewrite Hc, getWhere_app, getWhere_deleteWhere.
  simpl. unfold hasPath. simpl. rewrite eqs_refl. reflexivity.
Qed.

(** Idempotence: a second request with the same path and text is skipped
    and changes neither store. *)
Lemma reingest_same_content_skipped (fp text : jsstring) (s s1 : Stores) :
  ingest (Some fp) (Some text) s = (Ingested fp, s1) ->
  ingest (Some fp) (Some text) s1 = (Skipped, s1).
Proof.
  intro H. pose proof (ingested_hash fp text s s1 H) as Hh.
  unfold ingestRoute in *.
  destruct (negb (truthy (Some fp)) || negb (truthy (Some text)));
    [discriminate H|].
  destruct (isPDFFile fp); [discriminate H|].
  destruct (negb (withinLimits splitText text)); [discriminate H|].
  cbv zeta. rewrite Hh, eqs_refl. reflexivity.
Qed.

(** C7 (the failing case).  After a successful ingestion of a source, a
    request for the same path with a text of another hash deletes the
    source's records from the vector store and then fails on the first
    chunk, whose id is still in the lexical index: the answer is 500, the
    vector store has lost the source, and the lexical index keeps the old
    chunks. *)
Theorem reingest_changed_content_fails (fp text1 text2 : jsstring)
  (s s1 : Stores) :
  ingest (Some fp) (Some text1) s = (Ingested fp, s1) ->
  hashContent text2 <> hashContent text1 ->
  trim text2 <> [] ->
  splitText text2 <> [] ->
  withinLimits splitText text2 = true ->
  ingest (Some fp) (Some text2) s1 =
    (Failed 500 (str "Ingest failed"),
     {| collection := deleteWhere fp (collection s1);
        miniSearch := miniSearch s1 |})
  /\ getWhere fp (deleteWhere fp (collection s1)) = []
  /\ (exists d, In d (miniSearch s1) /\ id d = chunkId fp 0).
Proof.
  intros H Hhash Htrim Hsplit Hlimits.
  pose proof (ingested_hash fp text1 s s1 H) as Hh.
  destruct (ingested_state fp text1 s s1 H)
    as (chunk & chunks & e & es & _ & _ & Hm).
  assert (exists d, In d (miniSearch s1) /\ id d = chunkId fp 0) as Hold.
  { exists {| id := chunkId fp 0; doc_content := chunk;
              doc_filePath := fp |}.
    split; [|reflexivity]. rewrite Hm. apply in_or_app. right. left.
    reflexivity. }
  split; [|split; [apply getWhere_deleteWhere | exact Hold]].
  unfold ingestRoute in *.
  destruct (negb (truthy (Some fp))) eqn:Efp; [discriminate H|].
  assert (isPDFFile fp = false) as Hpdf.
  { destruct (isPDFFile fp) eqn:E; [|reflexivity].
    destruct (negb (truthy (Some text1))); discriminate H. }
  assert (truthy (Some text2) = true) as ->.
  { destruct text2; [contradiction Htrim; reflexivity | reflexivity]. }
  simpl orb. cbv iota. rewrite Hpdf, Hlimits. simpl negb. cbv iota zeta.
  rewrite Hh.
  assert (eqs (hashContent text1) (hashContent text2) = false) as ->.
  { destruct (eqs (hashContent text1) (hashContent text2)) eqn:E;
      [|reflexivity].
    apply eqs_true in E. congruence. }
  unfold ingestTextIntoChroma.
  assert ((len (trim text2) =? 0) = false) as ->.
  { destruct (trim text2); [contradiction | reflexivity]. }
  destruct (splitText text2) as [|c2 cs2]; [contradiction|].
  simpl miniSearch. simpl collection.
  destruct (addAll_duplicate
              {| id := chunkId fp 0; doc_content := c2; doc_filePath := fp |}
              (mapi (fun index chunk =>
                       {| id := chunkId fp index; doc_content := chunk;
                          doc_filePath := fp |}) 1 cs2)
              (miniSearch s1) Hold) as [e0 He0].
  change (lexicalDocsOf fp (c2 :: cs2)) with
    ({| id := chunkId fp 0; doc_content := c2; doc_filePath := fp |} ::
     mapi (fun index chunk =>
             {| id := chunkId fp index; doc_content := chunk;
                doc_filePath := fp |}) 1 cs2).
  rewrite He0. reflexivity.
Qed.

End IngestionFacts.

Lemma reingest_changed_content_fails_witness :
  ingestRoute oneChunk plainHash flatEmbedding
              (Some kbPath) (Some kbText2) afterFirstIngest =
  (Failed 500 (str "Ingest failed"),
   {| collection := []; miniSearch := miniSearch afterFirstIngest |}).
Proof.
  refine (proj1 (reingest_changed_content_fails
                   oneChunk plainHash flatEmbedding
                   kbPath kbText1 kbText2 emptyStores afterFirstIngest
                   _ _ _ _ _));
    vm_compute; (reflexivity || discriminate).
Defined.

(** The same path and text a second time: skipped, stores unchanged. *)
Lemma reingest_same_content_example :
  ingestRoute oneChunk plainHash flatEmbedding
              (Some kbPath) (Some kbText1) afterFirstIngest =
  (Skipped, afterFirstIngest).
Proof.
  apply (reingest_same_content_skipped oneChunk plainHash flatEmbedding
           kbPath kbText1 emptyStores).
  vm_compute. reflexivity.
Qed.

End IngestFacts.

Module HybridSearchMore.
Import JsString Regex Chat HybridSearch ChatRoute Vocabulary Vocabulary2
       Examples Examples2 JsStringFacts.

(** ** Hybrid search: further properties *)

Lemma trimStart_blank (s : jsstring) : blank s = true -> trimStart s = [].
Proof.
  induction s as [|c s IH]; simpl; intro H; [reflexivity|].
  apply andb_true_iff in H. destruct H as [Hc Hs]. rewrite Hc. exact (IH Hs).
Qed.

Lemma trim_blank (s : jsstring) : blank s = true -> trim s = [].
Proof.
  intro H. unfold trim, trimEnd. rewrite (trimStart_blank s H). reflexivity.
Qed.

(** X1.  A query made of white space only is answered with the empty list,
    whatever the state of the two retrieval services. *)
Theorem hybridSearch_blank_query (env : Retrieval) (query : jsstring) :
  blank query = true -> hybridSearch env query = Ok [].
Proof.
  intro H. unfold hybridSearch. rewrite (trim_blank query H). reflexivity.
Qed.

Lemma hybridSearch_blank_query_witness :
  hybridSearch semanticDown (str "   ") = Ok [].
Proof.
  apply (hybridSearch_blank_query semanticDown (str "   ")).
  vm_compute. reflexivity.
Defined.

Lemma insert_length (x : HybridSearchResult) (l : list HybridSearchResult) :
  List.length (insert x l) = S (List.length l).
Proof.
  induction l as [|y l IH]; simpl; [reflexivity|].
  destruct (after x y); simpl; [rewrite IH|]; reflexivity.
Qed.

Lemma sortByFinalScore_length (l : list HybridSearchResult) :
  List.length (sortByFinalScore l) = List.length l.
Proof.
  induction l as [|x l IH]; simpl; [reflexivity|].
  rewrite insert_length, IH. reflexivity.
Qed.

Lemma semanticRows_length (qr : QueryResult) (docs : list (option jsstring)) :
  forall i, List.length (semanticRows qr i docs) =
            List.length (filter (@isSome jsstring) docs).
Proof.
  induction docs as [|d docs IH]; intro i; simpl; [reflexivity|].
  destruct d as [c|]; simpl; rewrite IH; reflexivity.
Qed.

(** X2.  When both services answer, the result holds the five best of all
    candidates: its length is the smaller of 5 and the number of candidates
    (the documents of the first row that are not null, plus the lexical
    hits). *)
Theorem hybridSearch_length (env : Retrieval) (query : jsstring)
  (hits : list LexicalHit) (qr : QueryResult) :
  trim query <> [] ->
  lexicalSearch env query = Ok hits ->
  getOrCreateCollection env = Ok tt ->
  collectionQuery env query = Ok qr ->
  exists rs,
    hybridSearch env query = Ok rs /\
    List.length rs = Nat.min 5 (presentDocs qr + List.length hits).
Proof.
  intros Hq Hl Hc Hs. unfold hybridSearch.
  destruct (trim query) as [|c t]; [contradiction|].
  rewrite Hl, Hc, Hs. eexists. split; [reflexivity|].
  unfold rank. rewrite length_firstn, sortByFinalScore_length, length_map.
  rewrite length_app. f_equal. f_equal.
  - unfold semanticDocs, presentDocs.
    destruct (documents qr) as [[|row rows]|]; try reflexivity.
    apply semanticRows_length.
  - unfold lexicalDocs. apply length_map.
Qed.

Lemma hybridSearch_length_witness :
  exists rs,
    hybridSearch bothBranches (str "deep learning") = Ok rs /\
    List.length rs = 2.
Proof.
  destruct (hybridSearch_length bothBranches (str "deep learning")
              lexicalHits
              {| documents := Some [[Some (str "Deep learning")]];
                 metadatas := Some [[Some kbMeta]];
                 distances := Some [[Some 0.25%float]] |})
    as (rs & H1 & H2);
    try reflexivity.
  - vm_compute. discriminate.
  - exists rs. split; [exact H1 | exact H2].
Defined.

Lemma insert_Permutation (x : HybridSearchResult)
  (l : list HybridSearchResult) : Permutation (insert x l) (x :: l).
Proof.
  induction l as [|y l IH]; simpl; [apply Permutation_refl|].
  destruct (after x y); [|apply Permutation_refl].
  apply perm_trans with (y :: x :: l);
    [apply perm_skip; exact IH | apply perm_swap].
Qed.

Lemma sortByFinalScore_Permutation (l : list HybridSearchResult) :
  Permutation (sortByFinalScore l) l.
Proof.
  induction l as [|x l IH]; simpl; [apply perm_nil|].
  apply perm_trans with (x :: sortByFinalScore l);
    [apply insert_Permutation | apply perm_skip; exact IH].
Qed.

Lemma descending_cons (a b : HybridSearchResult)
  (l : list HybridSearchResult) :
  descending (a :: b :: l) = negb (after a b) && descending (b :: l).
Proof. reflexivity. Qed.

Lemma insert_head (x : HybridSearchResult) (l : list HybridSearchResult) :
  match insert x l with
  | h :: _ => h = x \/ (exists t, l = h :: t /\ after x h = true)
  | [] => False
  end.
Proof.
  destruct l as [|y l]; simpl; [left; reflexivity|].
  destruct (after x y) eqn:E; [right; exists l; auto | left; reflexivity].
Qed.

Lemma insert_descending (x : HybridSearchResult)
  (l : list HybridSearchResult) :
  (forall y, In y l -> after x y = true -> after y x = false) ->
  descending l = true -> descending (insert x l) = true.
Proof.
  induction l as [|y l IH]; intros Hc Hd; [reflexivity|].
  simpl insert. destruct (after x y) eqn:E.
  - assert (descending (insert x l) = true) as Hrec.
    { apply IH.
      - intros z Hz. apply Hc. right. exact Hz.
      - destruct l as [|z l']; [reflexivity|].
        rewrite descending_cons in Hd. apply andb_true_iff in Hd. tauto. }
    pose proof (insert_head x l) as Hh.
    destruct (insert x l) as [|h t] eqn:Ei; [contradiction|].
    rewrite descending_cons, Hrec, andb_true_r.
    destruct Hh as [-> | (t' & -> & _)].
    + rewrite (Hc y (or_introl eq_refl) E). reflexivity.
    + rewrite descending_cons in Hd. apply andb_true_iff in Hd.
      destruct Hd as [Hd _]. exact Hd.
  - rewrite descending_cons, E, Hd. reflexivity.
Qed.

Lemma sortByFinalScore_descending (l : list HybridSearchResult) :
  consistent l -> descending (sortByFinalScore l) = true.
Proof.
  induction l as [|x l IH]; intro Hc; [reflexivity|].
  simpl. apply insert_descending.
  - intros y Hy. apply Hc; [left; reflexivity|].
    right. apply (Permutation_in y (sortByFinalScore_Permutation l) Hy).
  - apply IH. intros a b Ha Hb. apply Hc; right; assumption.
Qed.

Lemma firstn_descending (n : nat) :
  forall l, descending l = true -> descending (firstn n l) = true.
Proof.
  induction n as [|n IH]; intros l H; [reflexivity|].
  destruct l as [|a l]; [reflexivity|]. simpl firstn.
  destruct l as [|b l']; [destruct n; reflexivity|].
  rewrite descending_cons in H. apply andb_true_iff in H.
  destruct H as [Hab Hrest]. specialize (IH (b :: l') Hrest).
  destruct n as [|n']; [reflexivity|].
  simpl firstn in *. rewrite descending_cons, Hab. exact IH.
Qed.

(** X3.  The ranking is the first five of a rearrangement of the weighed
    candidates; when the comparator orders no two of them both ways, no
    result is followed by one with a greater [finalScore]. *)
Theorem rank_sorted (combined : list Doc) :
  consistent (map weigh combined) ->
  (exists sorted,
     Permutation sorted (map weigh combined) /\
     rank combined = firstn 5 sorted) /\
  descending (rank combined) = true.
Proof.
  intro Hc. split.
  - exists (sortByFinalScore (map weigh combined)).
    split; [apply sortByFinalScore_Permutation | reflexivity].
  - unfold rank. apply firstn_descending.
    apply sortByFinalScore_descending. exact Hc.
Qed.

Lemma rank_sorted_witness : descending (rank threeDocs) = true.
Proof.
  refine (proj2 (rank_sorted threeDocs _)).
  intros a b Ha Hb. unfold threeDocs in Ha, Hb. simpl in Ha, Hb.
  destruct Ha as [<- | [<- | [<- | []]]];
    destruct Hb as [<- | [<- | [<- | []]]];
    vm_compute; intro H; first [reflexivity | discriminate H].
Defined.

End HybridSearchMore.

Module SanitizerMore.
Import JsString Regex Chat HybridSearch ChatRoute Vocabulary Vocabulary2
       Examples JsStringFacts RegexFacts SanitizerFacts.

(** ** Context sanitiser: further properties *)

Lemma includes_nil (s : jsstring) : includes [] s = true.
Proof. destruct s; reflexivity. Qed.

(** A text found in [a ++ x :: b] that does not contain [x] lies in [a] or
    in [b]. *)
Lemma includes_split (p a b : jsstring) (x : ascii) :
  ~ In x p ->
  includes p (a ++ x :: b) = true ->
  includes p a = true \/ includes p b = true.
Proof.
  intros Hx H. apply includes_true in H. destruct H as (u & v & E).
  apply app_eq_app in E. destruct E as (l & [[Ea Ep] | [Eu Eb]]).
  - apply app_eq_app in Ep.
    destruct Ep as (l2 & [[Ep Eb] | [El Ev]]).
    + destruct l2 as [|y l2].
      * left. rewrite Ea, Ep, app_nil_r.
        replace (u ++ l) with (u ++ l ++ []) by (rewrite app_nil_r; reflexivity).
        apply includes_app.
      * exfalso. apply Hx. inversion Eb; subst. apply in_or_app. right.
        left. reflexivity.
    + left. rewrite Ea, El. apply includes_app.
  - destruct l as [|y l].
    + simpl in Eb. destruct p as [|y p]; [left; apply includes_nil|].
      exfalso. apply Hx. inversion Eb. left. reflexivity.
    + right. inversion Eb; subst. apply includes_app.
Qed.

Lemma includes_join (p : jsstring) (x : ascii) (ls : list jsstring) :
  ~ In x p -> p <> [] ->
  includes p (join [x] ls) = true ->
  exists l, In l ls /\ includes p l = true.
Proof.
  intros Hx Hp. induction ls as [|l ls IH]; intro H.
  - destruct p; [contradiction | discriminate H].
  - destruct ls as [|l' ls'].
    + exists l. split; [left; reflexivity | exact H].
    + change (join [x] (l :: l' :: ls'))
        with (l ++ x :: join [x] (l' :: ls')) in H.
      destruct (includes_split p l _ x Hx H) as [Hl | Hr].
      * exists l. split; [left; reflexivity | exact Hl].
      * destruct (IH Hr) as (l0 & Hin & Hl0). exists l0.
        split; [right; exact Hin | exact Hl0].
Qed.

Lemma toLowerCase_join (ls : list jsstring) :
  toLowerCase (join LF ls) = join LF (map toLowerCase ls).
Proof.
  induction ls as [|l ls IH]; [reflexivity|].
  destruct ls as [|l' ls']; [reflexivity|].
  change (join LF (l :: l' :: ls')) with (l ++ LF ++ join LF (l' :: ls')).
  rewrite !toLowerCase_app, IH. reflexivity.
Qed.

(** X4.  After the line filter no cue is left: the text that goes on to semantic
    redaction contains none of "always say", "ignore", "override" and "new
    instructions", in any case. *)
Theorem filterInstructionContent_no_cue (text : jsstring) :
  hasCue (filterInstructionContent text) = false.
Proof.
  unfold hasCue, filterInstructionContent.
  destruct (existsb _ instructionCues) eqn:E; [|reflexivity]. exfalso.
  apply existsb_exists in E. destruct E as (cue & Hcue & Hin).
  rewrite toLowerCase_join in Hin.
  assert (~ In "010"%char cue /\ cue <> []) as [Hx Hne].
  { simpl in Hcue.
    repeat (destruct Hcue as [<- | Hcue];
            [split; [vm_compute; intuition discriminate | discriminate]|]).
    contradiction. }
  destruct (includes_join cue "010"%char _ Hx Hne Hin) as (l & Hl & Hinc).
  apply in_map_iff in Hl. destruct Hl as (line & <- & Hline).
  apply filter_In in Hline. destruct Hline as [_ Hkeep].
  unfold keepLine in Hkeep. apply negb_true_iff in Hkeep.
  assert (existsb (fun cue0 => includes cue0 (toLowerCase line))
                  instructionCues = true) as Hyes.
  { apply existsb_exists. exists cue. split; assumption. }
  congruence.
Qed.

(** A match leaves a marker. *)
Lemma replaceAllFrom_match_marker (r : re) (m : jsstring) :
  forall s prev, testFrom r prev s = true ->
    exists a b, replaceAllFrom r m 0 prev s = a ++ m ++ b.
Proof.
  induction s as [|c s IH]; intros prev H.
  - simpl in *. destruct (matchHere r prev []); [|discriminate].
    exists [], []. reflexivity.
  - rewrite replaceAllFrom_scan_cons. simpl in H.
    destruct (matchHere r prev (c :: s)) as [rest|].
    + eexists [], _. reflexivity.
    + destruct (IH (Some c) H) as (a & b & E). rewrite E.
      exists (c :: a), b. reflexivity.
Qed.

Lemma replaceFirstFrom_match_marker (r : re) (m : jsstring) :
  forall s prev, testFrom r prev s = true ->
    exists a b, replaceFirstFrom r m prev s = a ++ m ++ b.
Proof.
  induction s as [|c s IH]; intros prev H; simpl in *.
  - destruct (matchHere r prev []) as [rest|]; [|discriminate].
    exists [], rest. reflexivity.
  - destruct (matchHere r prev (c :: s)) as [rest|].
    + exists [], rest. reflexivity.
    + destruct (IH (Some c) H) as (a & b & E). rewrite E.
      exists (c :: a), b. reflexivity.
Qed.

Lemma replace_match_marker (p : regexp) (m s : jsstring) :
  rtest p s = true -> includes m (replace p m s) = true.
Proof.
  unfold rtest, replace, test, replaceAll, replaceFirst. intro H.
  destruct (global p).
  - destruct (replaceAllFrom_match_marker (body p) m s None H)
      as (a & b & ->). apply includes_app.
  - destruct (replaceFirstFrom_match_marker (body p) m s None H)
      as (a & b & ->). apply includes_app.
Qed.

Lemma redact_fold_match_marker (ps : list regexp) :
  forall text, anyMatch ps text = true ->
  includes REDACTED
    (fold_left (fun sanitized p => replace p REDACTED sanitized) ps text)
  = true.
Proof.
  induction ps as [|p ps IH]; intros text H; [discriminate H|].
  simpl in *. destruct (rtest p text) eqn:E.
  - apply redact_fold_keeps_marker. apply replace_match_marker. exact E.
  - rewrite (replace_nomatch p REDACTED text E). apply IH. exact H.
Qed.

(** X5.  Whenever a pattern of the first redaction list matches the text, the
    text leaves the pattern stage with a redaction marker, and the cleaned
    output has one too unless the line filter drops a line. *)
Theorem redactPatterns_match_marker (text : jsstring) :
  anyMatch SENSITIVE_CONTEXT_PATTERNS text = true ->
  includes REDACTED (redactPatterns text) = true /\
  (hasCue (redactPatterns text) = false ->
   includes REDACTED (sanitizeContext text) = true).
Proof.
  intro H.
  assert (includes REDACTED (redactPatterns text) = true) as Hm
    by (apply redact_fold_match_marker; exact H).
  split; [exact Hm|]. intro Hcue. unfold sanitizeContext.
  rewrite (filterInstructionContent_clean _ Hcue).
  apply semantic_keeps_marker. exact Hm.
Qed.

Lemma redactPatterns_match_marker_witness :
  includes REDACTED (redactPatterns (str "the Password is hunter2")) = true.
Proof.
  refine (proj1 (redactPatterns_match_marker
                   (str "the Password is hunter2") _)).
  vm_compute. reflexivity.
Defined.

Lemma semantic_fold_match_marker (ps : list regexp) :
  forall text, anyMatch ps text = true ->
  includes REDACTED (fold_left redactStep ps text) = true.
Proof.
  induction ps as [|p ps IH]; intros text H; [discriminate H|].
  simpl in *. unfold redactStep at 2. destruct (rtest p text) eqn:E.
  - assert (forall qs s, includes REDACTED s = true ->
                         includes REDACTED (fold_left redactStep qs s) = true)
      as Hkeep.
    { induction qs as [|q qs IHq]; intros s Hs; simpl; [exact Hs|].
      apply IHq. unfold redactStep. destruct (rtest q s); [|exact Hs].
      apply replace_keeps_marker. exact Hs. }
    apply Hkeep. apply replace_match_marker. exact E.
  - apply IH. exact H.
Qed.

(** X6.  Whenever a pattern of semantic redaction matches the text, the result
    of [semanticRedactContext] contains a redaction marker. *)
Theorem semanticRedactContext_match_marker (text : jsstring) :
  anyMatch sensitivePatterns text = true ->
  includes REDACTED (semanticRedactContext text) = true.
Proof. apply semantic_fold_match_marker. Qed.

Lemma semanticRedactContext_match_marker_witness :
  includes REDACTED (semanticRedactContext (str "acct # 123-456 is due"))
  = true.
Proof.
  apply (semanticRedactContext_match_marker (str "acct # 123-456 is due")).
  vm_compute. reflexivity.
Defined.

(** X7.  The first pass leaves no run of 12 to 16 digits between word
    boundaries: its pattern does not match its result, and a second pass
    changes nothing. *)
Theorem firstPass_complete (text : jsstring) :
  test (boundedDigits 12 16) (firstPass text) = false /\
  firstPass (firstPass text) = firstPass text.
Proof.
  assert (test (boundedDigits 12 16) (firstPass text) = false) as H.
  { rewrite firstPass_eq.
    apply (replaceAll_leaves_no_match 12 16 ltac:(lia) ltac:(lia) REDACTED).
    vm_compute. reflexivity. }
  split; [exact H|].
  rewrite (firstPass_eq (firstPass text)). unfold replaceAll.
  apply replaceAllFrom_nomatch. exact H.
Qed.

End SanitizerMore.

Module PolicyFacts.
Import JsString Regex Chat HybridSearch ChatRoute Vocabulary Vocabulary2
       Examples JsStringFacts RegexFacts SanitizerFacts ChatRouteFacts.

(** ** Input policy and rate-limit detection: phrases in any case *)

Lemma mt_seqOf_cons (r : re) (rs : list re) (k : cont)
  (prev : option ascii) (s : jsstring) :
  mt (seqOf (r :: rs)) k prev s = mt r (mt (seqOf rs) k) prev s.
Proof. destruct rs; reflexivity. Qed.

(** A literal under the [i] flag matches every text that folds to it. *)
Lemma mt_liti_fold (k : cont) (rest : jsstring) :
  forall (v : jsstring) (prev : option ascii),
    mt (seqOf (map lit1i (foldCase v))) k prev (v ++ rest) =
    k (lastOr prev v) rest.
Proof.
  induction v as [|x v IH]; intro prev; [reflexivity|].
  change (foldCase (x :: v)) with (lowerAscii x :: foldCase v).
  change (map lit1i (lowerAscii x :: foldCase v))
    with (lit1i (lowerAscii x) :: map lit1i (foldCase v)).
  rewrite mt_seqOf_cons. unfold lit1i at 1. simpl app.
  change (mt (Chr (ci (eqc (lowerAscii x)))) ?k0 prev (x :: ?t))
    with (if ci (eqc (lowerAscii x)) x then k0 (Some x) t else None).
  assert (ci (eqc (lowerAscii x)) x = true) as ->.
  { unfold ci. assert (eqc (lowerAscii x) (lowerAscii x) = true) as ->
      by (apply eqc_true; reflexivity). reflexivity. }
  simpl lastOr. apply IH.
Qed.

Lemma matchHere_liti (phrase : string) (v rest : jsstring)
  (prev : option ascii) :
  foldCase v = str phrase ->
  matchHere (liti phrase) prev (v ++ rest) = Some rest.
Proof.
  intro H. unfold matchHere, liti. rewrite <- H. apply mt_liti_fold.
Qed.

Lemma mt_altOf_In (rs : list re) (prev : option ascii) (s : jsstring) :
  forall r, In r rs -> mt r accept prev s <> None ->
            mt (altOf rs) accept prev s <> None.
Proof.
  induction rs as [|r0 rs IH]; intros r Hin Hr; [contradiction|].
  destruct rs as [|r1 rs'].
  - destruct Hin as [<- | []]. exact Hr.
  - change (altOf (r0 :: r1 :: rs')) with (Alt r0 (altOf (r1 :: rs'))).
    simpl mt. destruct (mt r0 accept prev s) eqn:E0; [discriminate|].
    destruct Hin as [<- | Hin]; [congruence|].
    apply (IH r Hin Hr).
Qed.

Lemma matchHere_wordsi (ps : list string) (phrase : string)
  (v rest : jsstring) (prev : option ascii) :
  In phrase ps -> foldCase v = str phrase ->
  matchHere (wordsi ps) prev (v ++ rest) <> None.
Proof.
  intros Hin Hv. unfold matchHere, wordsi.
  apply (mt_altOf_In _ prev _ (liti phrase)).
  - apply in_map. exact Hin.
  - fold (matchHere (liti phrase) prev (v ++ rest)).
    rewrite (matchHere_liti phrase v rest prev Hv). discriminate.
Qed.

(** A match at some position makes [test] succeed. *)
Lemma testFrom_app (r : re) (s : jsstring) :
  forall a prev, matchHere r (lastOr prev a) s <> None ->
                 testFrom r prev (a ++ s) = true.
Proof.
  induction a as [|c a IH]; intros prev H.
  - simpl in *. destruct s; simpl;
      destruct (matchHere r prev _); congruence.
  - simpl app. simpl testFrom.
    destruct (matchHere r prev (c :: a ++ s)); [reflexivity|].
    apply IH. exact H.
Qed.

Lemma rtest_wordsi (ps : list string) (phrase : string) (a v b : jsstring) :
  In phrase ps -> foldCase v = str phrase ->
  rtest (rx (wordsi ps)) (a ++ v ++ b) = true.
Proof.
  intros Hin Hv. unfold rtest, test. simpl body.
  apply testFrom_app. apply (matchHere_wordsi ps phrase v b _ Hin Hv).
Qed.

Lemma violatesInputPolicy_In (p : regexp) (q : jsstring) :
  In p BLOCKED_PATTERNS -> rtest p q = true -> violatesInputPolicy q = true.
Proof.
  intros Hin Hp. unfold violatesInputPolicy. cbv zeta.
  assert (In p (filter (fun p0 => rtest p0 q) BLOCKED_PATTERNS)) as Hf
    by (apply filter_In; split; assumption).
  destruct (filter (fun p0 => rtest p0 q) BLOCKED_PATTERNS);
    [contradiction | reflexivity].
Qed.

Lemma blocked_phrase_list (ps : list string) (phrase : string)
  (a v b : jsstring) :
  In (rx (wordsi ps)) BLOCKED_PATTERNS ->
  In phrase ps -> foldCase v = str phrase ->
  violatesInputPolicy (a ++ v ++ b) = true.
Proof.
  intros Hp Hin Hv.
  apply (violatesInputPolicy_In (rx (wordsi ps)) _ Hp).
  apply (rtest_wordsi ps phrase a v b Hin Hv).
Qed.

Ltac pick := simpl; repeat (first [left; reflexivity | right]).

Ltac blocked_by ps :=
  match goal with
  | Hv : foldCase ?v = str ?ph |- violatesInputPolicy (?a ++ ?v ++ ?b) = true =>
      apply (blocked_phrase_list ps ph a v b); [pick | pick | exact Hv]
  end.

(** X8.  A message that contains one of the injection phrases anywhere, in any
    mix of upper and lower case, violates the input policy. *)
Theorem injection_phrase_blocked (phrase : string) (a v b : jsstring) :
  In phrase injectionPhrases ->
  foldCase v = str phrase ->
  violatesInputPolicy (a ++ v ++ b) = true.
Proof.
  intros Hin Hv. unfold injectionPhrases in Hin. simpl in Hin.
  destruct Hin as [<-|[<-|[<-|Hin]]];
    [blocked_by ["ignore previous"; "ignore all prior"; "forget about"] ..|].
  destruct Hin as [<-|[<-|Hin]];
    [blocked_by ["system message"; "system prompt"] ..|].
  destruct Hin as [<-|[<-|[<-|Hin]]];
    [blocked_by ["you are actually"; "pretend that"; "act as if"] ..|].
  destruct Hin as [<-|[<-|Hin]];
    [blocked_by ["override"; "override directive"; "new instructions"] ..|].
  destruct Hin as [<-|[<-|[<-|[]]]];
    blocked_by ["jailbreak"; "bypass"; "circumvent"; "override"].
Qed.

Lemma injection_phrase_blocked_witness :
  violatesInputPolicy
    (str "Please " ++ str "IGNORE Previous" ++ str " instructions") = true.
Proof.
  apply (injection_phrase_blocked "ignore previous" (str "Please ")
           (str "IGNORE Previous") (str " instructions")).
  - pick.
  - vm_compute. reflexivity.
Defined.

(** X9.  An error with status 429, or whose message contains "rate limit",
    "quota" or "resource_exhausted" in any case, is a rate-limit error. *)
Theorem isRateLimitError_detects (error : JsError) :
  statusCode error = Some 429 \/
  (exists phrase a v b,
     In phrase rateLimitPhrases /\ foldCase v = str phrase /\
     message error = a ++ v ++ b) ->
  isRateLimitError error = true.
Proof.
  intros [H | (phrase & a & v & b & Hin & Hv & Hm)]; unfold isRateLimitError.
  - rewrite H. reflexivity.
  - assert (rtest rateLimitPattern (message error) = true) as Ht.
    { rewrite Hm. apply (rtest_wordsi rateLimitPhrases phrase a v b Hin Hv). }
    rewrite Ht. destruct (statusCode error) as [n|]; [|reflexivity].
    repeat (destruct n as [|n]; [reflexivity|]). reflexivity.
Qed.

Lemma isRateLimitError_detects_witness :
  isRateLimitError
    {| statusCode := Some 503;
       message := str "RESOURCE_EXHAUSTED: try again later" |} = true.
Proof.
  apply isRateLimitError_detects. right.
  exists "resource_exhausted", [], (str "RESOURCE_EXHAUSTED"),
    (str ": try again later").
  split; [pick|]. split; vm_compute; reflexivity.
Defined.

End PolicyFacts.

Module ChatRouteMore.
Import JsString Regex Chat HybridSearch ChatRoute Vocabulary Vocabulary2
       Vocabulary3 Vocabulary4 Examples Examples2 JsStringFacts
       ChatRouteFacts.
Local Open Scope chat_scope.

(** ** The payload checks *)

Lemma wellFormed_true (w : World) (req : Request) :
  wellFormed w req = true ->
  exists sid um,
    sessionIdOf req = Some sid /\ sid <> [] /\
    userMessageOf (lastMessage (body_messages req)) = Some um /\
    trim um <> [] /\ isValidObjectId w sid = true.
Proof.
  unfold wellFormed. intro H.
  destruct (sessionIdOf req) as [sid|]; [|discriminate H].
  destruct (userMessageOf (lastMessage (body_messages req))) as [um|];
    [|discriminate H].
  apply andb_prop in H. destruct H as [H Hvalid].
  apply andb_prop in H. destruct H as [Htruthy Htrim].
  exists sid, um. repeat split; try assumption.
  - intros ->. discriminate Htruthy.
  - intro E. rewrite E in Htrim. discriminate Htrim.
Qed.

Lemma wellFormed_false (w : World) (req : Request) (st : St) :
  wellFormed w req = false ->
  exists msg, chatRoute w req st = (Json 400 msg, st).
Proof.
  unfold wellFormed, chatRoute. intro H.
  destruct (sessionIdOf req) as [sid|];
    [|eexists; reflexivity].
  destruct (userMessageOf (lastMessage (body_messages req))) as [um|];
    [|destruct (sessionIdOf req); eexists; reflexivity].
  destruct (truthy (Some sid)); simpl in *; [|eexists; reflexivity].
  destruct (isSome (body_messages req)); simpl; [|eexists; reflexivity].
  destruct (len (trim um) =? 0); simpl in *; [eexists; reflexivity|].
  rewrite H. simpl. eexists; reflexivity.
Qed.

(** ** What a finished stream adds to the state *)

Lemma modelsCalled_app (a b : list Event) :
  modelsCalled (a ++ b) = modelsCalled a ++ modelsCalled b.
Proof. unfold modelsCalled. apply flat_map_app. Qed.

Lemma summaryCalls_app (a b : list Event) :
  summaryCalls (a ++ b) = summaryCalls a + summaryCalls b.
Proof. unfold summaryCalls. rewrite filter_app, length_app. reflexivity. Qed.

Lemma savedText_clean (t : jsstring) :
  violatesOutputPolicy (savedText t) = false.
Proof.
  unfold savedText. destruct (violatesOutputPolicy t) eqn:E;
    [apply warning_is_clean | exact E].
Qed.

Ltac onFinish_cases :=
  unfold onFinish, maybeUpdateRollingSummary, updateRollingSummary,
    summaryStream, tryCatch, bind, emit, liftAt, ret;
  repeat (cbv beta iota zeta;
          cbn [fst snd trace calls rateLimitedUntil];
          match goal with
          | |- context [saveAssistantMessage ?w ?n ?s ?x] =>
              destruct (saveAssistantMessage w n s x) as [[]|?] eqn:?
          | |- context [(finishNow ?w ?n <? ?r)%Z] =>
              destruct (finishNow w n <? r)%Z eqn:?
          | |- context [countMessagesBySession ?w ?n ?s] =>
              destruct (countMessagesBySession w n s) eqn:?
          | |- context [summaryAtFinish ?w ?n ?s] =>
              destruct (summaryAtFinish w n s) eqn:?
          | |- context [getRecentMessagesBySession ?w ?n ?s ?l] =>
              destruct (getRecentMessagesBySession w n s l) eqn:?
          | |- context [streamText ?w ?n ?p ?m] =>
              destruct (streamText w n p m) eqn:?
          | |- context [updateChatSessionSummary ?w ?n ?s ?x] =>
              destruct (updateChatSessionSummary w n s x) as [[]|?] eqn:?
          | |- context [match trim ?t with [] => _ | _ :: _ => _ end] =>
              destruct (trim t) eqn:?
          | |- context [(?a =? 0) || negb ?b] =>
              destruct ((a =? 0) || negb b) eqn:?
          end);
  cbv beta iota zeta;
  cbn [fst snd trace calls rateLimitedUntil].

(** What [onFinish] does to the state: it records the save of the text (or
    of the warning) and then, at most, one update of the rolling summary,
    with at most one call of [streamText]; the cool-down is untouched. *)
Lemma onFinish_effect (w : World) (sid t : jsstring) (st : St) :
  exists rest,
    trace (snd (onFinish w sid t st)) =
      trace st ++ [SaveMessage sid assistant (savedText t)] ++ rest /\
    calls (snd (onFinish w sid t st)) = calls st + summaryCalls rest /\
    rateLimitedUntil (snd (onFinish w sid t st)) = rateLimitedUntil st /\
    modelsCalled rest = [] /\
    fallbackCalls w rest = 0 /\
    summaryCalls rest <= 1 /\
    (forall st0, Forall (generationEvent w st0 sid) rest) /\
    (summaryOff w = true -> rest = []) /\
    (violatesOutputPolicy t = true -> rest = []) /\
    ((finishNow w (calls st) < rateLimitedUntil st)%Z -> rest = []) /\
    (exists k u s, rest = firstn k (summarySteps w sid u s)).
Proof.
  unfold savedText.
  destruct (summaryOff w) eqn:Hoff; unfold summaryOff in Hoff;
  destruct (violatesOutputPolicy t) eqn:Hpol;
  unfold onFinish; rewrite Hpol;
  unfold maybeUpdateRollingSummary; rewrite ?Hoff;
  onFinish_cases.
  all: eexists; (split; [rewrite <- ?app_assoc; reflexivity|]).
  all: split; [cbn; lia|]; split; [reflexivity|]; split; [reflexivity|].
  all: split; [reflexivity|]; split; [cbn; lia|].
  all: split; [intro st0; repeat constructor; unfold summaryOff; assumption|].
  all: split; [intro; try reflexivity; discriminate|].
  all: split; [intro; try reflexivity; discriminate|].
  all: split;
    [intro Hg; try reflexivity; apply Z.ltb_lt in Hg; congruence|].
  all: first [ exists 0, [], []; reflexivity
             | exists 1, [], []; reflexivity
             | exists 2, [], []; reflexivity
             | exists 3, [], []; reflexivity
             | exists 4; eexists; exists []; reflexivity
             | exists 5; eexists; eexists; reflexivity ].
Qed.

Lemma onFinish_rateLimitedUntil (w : World) (sid t : jsstring) (st : St) :
  rateLimitedUntil (snd (onFinish w sid t st)) = rateLimitedUntil st.
Proof.
  destruct (onFinish_effect w sid t st) as (rest & _ & _ & H & _). exact H.
Qed.

Lemma savedEvent_generation (w : World) (st0 : St) (sid t : jsstring) :
  generationEvent w st0 sid (SaveMessage sid assistant (savedText t)).
Proof.
  simpl. split; [reflexivity|]. split; [reflexivity|]. apply savedText_clean.
Qed.

Lemma modelsCalled_saved (sid t : jsstring) :
  modelsCalled [SaveMessage sid assistant (savedText t)] = [].
Proof. reflexivity. Qed.

Lemma summaryCalls_saved (sid t : jsstring) :
  summaryCalls [SaveMessage sid assistant (savedText t)] = 0.
Proof. reflexivity. Qed.

Lemma modelsCalled_stream (p : Provider) (m l u : jsstring) :
  modelsCalled [StreamText p m l u] = [m].
Proof. reflexivity. Qed.

Lemma summaryCalls_stream (p : Provider) (m l u : jsstring) :
  summaryCalls [StreamText p m l u] = 0.
Proof. reflexivity. Qed.

(** ** Case analysis of [generate] *)

Ltac generate_cases :=
  unfold generate, ensureOpenAiFallback, createStream, markRateLimited,
    bind, tryCatch, lift, ret, throw;
  repeat (cbv beta iota zeta;
          cbn [fst snd trace calls rateLimitedUntil r_text r_label];
          match goal with
          | |- context [streamText ?w ?n ?p ?m] =>
              destruct (streamText w n p m) eqn:?
          | |- context [isRateLimitError ?e] =>
              destruct (isRateLimitError e) eqn:?
          | |- context [truthy ?k] => destruct (truthy k) eqn:?
          | |- context [len (trim ?t) =? 0] =>
              destruct (len (trim t) =? 0) eqn:?
          end);
  cbv beta iota zeta;
  cbn [fst snd trace calls rateLimitedUntil r_text r_label].

(** Replace the state after a finished stream by what [onFinish] makes of
    the state before it, the innermost first. *)
Ltac finish_effects w sid :=
  repeat match goal with
         | |- context [onFinish w sid ?t ?ST] =>
             lazymatch ST with
             | context [onFinish] => fail
             | _ =>
                 let rest := fresh "rest" in
                 let Htr := fresh "Htr" in
                 let Hc := fresh "Hc" in
                 let Hr := fresh "Hr" in
                 let Hm := fresh "Hm" in
                 let Hf := fresh "Hf" in
                 let Hs := fresh "Hs" in
                 let HQ := fresh "HQ" in
                 let Hoff := fresh "Hoff" in
                 let Hpol := fresh "Hpol" in
                 let Hg := fresh "Hg" in
                 destruct (onFinish_effect w sid t ST)
                   as (rest & Htr & Hc & Hr & Hm & Hf & Hs & HQ & Hoff &
                       Hpol & Hg & _);
                 cbn [trace calls rateLimitedUntil] in Htr, Hc, Hr, Hg;
                 rewrite ?Htr, ?Hc, ?Hr;
                 clear Htr Hc Hr
             end
         end.

Ltac count_calls :=
  rewrite ?modelsCalled_app, ?summaryCalls_app;
  rewrite ?modelsCalled_saved, ?summaryCalls_saved, ?modelsCalled_stream,
    ?summaryCalls_stream;
  repeat match goal with
         | H : modelsCalled ?r = [] |- _ => rewrite !H
         end;
  rewrite ?length_app; cbn [List.length app].

Ltac all_generation :=
  repeat match goal with
         | |- Forall _ (_ ++ _) => apply Forall_app; split
         | |- Forall _ [_] => apply Forall_cons; [|apply Forall_nil]
         | H : forall st0, Forall _ ?r |- Forall _ ?r => apply H
         | |- generationEvent _ _ _ (SaveMessage _ _ _) =>
             apply savedEvent_generation
         | |- generationEvent _ _ _ (StreamText _ _ _ _) =>
             simpl; first [left; split; reflexivity
                          | right; split; reflexivity]
         end.

Ltac no_summary :=
  repeat match goal with
         | H : ?P -> ?r = [] |- _ =>
             let E := fresh "E" in
             assert (r = []) as E by (apply H; assumption);
             clear H; subst r
         end.

(** What generation adds to the state. *)
Lemma generate_trace (w : World) (sid query context summary : jsstring)
  (st : St) :
  exists more,
    trace (snd (generate w sid query context summary st)) = trace st ++ more
    /\ Forall (generationEvent w st sid) more
    /\ calls (snd (generate w sid query context summary st)) =
       calls st + List.length (modelsCalled more) + summaryCalls more
    /\ 1 <= List.length (modelsCalled more) <= 3
    /\ summaryCalls more <= 2
    /\ (summaryOff w = true -> summaryCalls more = 0)
    /\ (coolThrough w st -> summaryCalls more = 0).
Proof.
  generate_cases; finish_effects w sid.
  all: eexists; (split; [rewrite <- ?app_assoc; reflexivity|]).
  all: split; [all_generation|].
  all: split; [count_calls; lia|].
  all: split; [count_calls; lia|].
  all: split; [count_calls; lia|].
  all: split; intro Hyp.
  all: try (unfold coolThrough, cooldownEnd in Hyp).
  all: repeat match goal with
              | H : summaryOff _ = true -> ?r = [] |- _ =>
                  first [ assert (r = []) by (apply H; exact Hyp);
                          clear H; subst r
                        | clear H ]
              end.
  all: repeat match goal with
              | H : (finishNow _ ?n < _)%Z -> ?r = [] |- _ =>
                  first [ assert (r = []) by (apply H; apply Hyp);
                          clear H; subst r
                        | clear H ]
              end.
  all: reflexivity.
Qed.

Lemma generate_piped (w : World) (sid query context summary : jsstring)
  (st : St) (r : Response) :
  fst (generate w sid query context summary st) = Ok r ->
  exists result, r = Piped result.
Proof.
  generate_cases; intro H; inversion H; eexists; reflexivity.
Qed.

(** ** From the route to generation *)

Lemma primaryModelId_trace (w : World) (st st' : St) :
  rateLimitedUntil st' = rateLimitedUntil st ->
  primaryModelId w st' = primaryModelId w st.
Proof. unfold primaryModelId. intros ->. reflexivity. Qed.

Lemma summaryOff_false (w : World) :
  summaryOff w = false -> ENABLE_ROLLING_SUMMARY (config w) = true.
Proof.
  unfold summaryOff. intro H. apply orb_false_iff in H.
  destruct H as [H _]. apply negb_false_iff in H. exact H.
Qed.

Lemma generationEvent_route (w : World) (req : Request) (st st1 : St)
  (sid : jsstring) (e : Event) :
  sessionIdOf req = Some sid ->
  rateLimitedUntil st1 = rateLimitedUntil st ->
  generationEvent w st1 sid e -> routeEvent w req st e.
Proof.
  intros Hsid Hrl. destruct e; simpl; try contradiction.
  - intros (-> & -> & Hc). split; [exact Hsid|]. right. split; auto.
  - intros (-> & Hoff). split; [exact Hsid | exact (summaryOff_false w Hoff)].
  - rewrite (primaryModelId_trace w st st1 Hrl). auto.
  - intros (-> & Hoff). split; assumption.
  - intros (-> & Hoff). split; assumption.
  - auto.
  - intros (-> & Hoff). split; assumption.
Qed.

Lemma snd_respond (x : Result Response * St) :
  snd (match x with
       | (Ok response, st') => (response, st')
       | (Throw _, st') => (Json 500 (str "Chat request failed"), st')
       end) = snd x.
Proof. destruct x as [[resp|e] st']; reflexivity. Qed.

Lemma fst_respond (x : Result Response * St) :
  fst (match x with
       | (Ok response, st') => (response, st')
       | (Throw _, st') => (Json 500 (str "Chat request failed"), st')
       end) =
  match fst x with
  | Ok response => response
  | Throw _ => Json 500 (str "Chat request failed")
  end.
Proof. destruct x as [[resp|e] st']; reflexivity. Qed.

(** The body of [answer] stops at a collaborator that fails before
    generation, or goes on to generation. *)
Lemma answer_cases (w : World) (sid query : jsstring) (st : St) :
  (exists e pre,
     answer w sid query st =
     (Throw e, {| trace := trace st ++ pre; calls := calls st;
                  rateLimitedUntil := rateLimitedUntil st |}) /\
     (pre = [SaveMessage sid user query] \/
      pre = [SaveMessage sid user query; Search query] \/
      (pre = [SaveMessage sid user query; Search query; GetSummary sid] /\
       ENABLE_ROLLING_SUMMARY (config w) = true))) \/
  (exists rs summary,
     answer w sid query st =
     generate w sid query (contextOf w rs) (trim summary)
              (afterRetrieval w sid query st)).
Proof.
  destruct (saveUserMessage w sid query) as [[]|e] eqn:Hsave.
  2:{ left. exists e, [SaveMessage sid user query].
      split; [|left; reflexivity].
      unfold answer, bind, emit, lift. simpl. rewrite Hsave. reflexivity. }
  destruct (hybridSearch (retrieval w) query) as [rs|e] eqn:Hrag.
  2:{ left. exists e, [SaveMessage sid user query; Search query].
      split; [|right; left; reflexivity].
      unfold answer, bind, emit, lift. simpl. rewrite Hsave, Hrag.
      rewrite <- app_assoc. reflexivity. }
  destruct (summaryOf w sid) as [summary|e] eqn:Hsum.
  - right. exists rs, summary.
    exact (answer_generate w sid query st rs summary Hsave Hrag Hsum).
  - left. unfold summaryOf in Hsum.
    destruct (ENABLE_ROLLING_SUMMARY (config w)) eqn:Eroll;
      [|discriminate Hsum].
    exists e, [SaveMessage sid user query; Search query; GetSummary sid].
    split; [|right; right; split; reflexivity].
    unfold answer, bind, emit, lift. simpl. rewrite Hsave, Hrag, Eroll.
    unfold bind, emit, lift. simpl. rewrite Hsum.
    rewrite <- !app_assoc. reflexivity.
Qed.

Lemma answer_piped (w : World) (sid query : jsstring) (st : St)
  (r : Response) :
  fst (answer w sid query st) = Ok r -> exists result, r = Piped result.
Proof.
  destruct (answer_cases w sid query st)
    as [(e & pre & -> & _) | (rs & summary & ->)]; [discriminate|].
  apply generate_piped.
Qed.

(** What the body of [answer] adds to the state. *)
Lemma answer_trace (w : World) (req : Request) (st : St)
  (sid um : jsstring) :
  sessionIdOf req = Some sid ->
  userMessageOf (lastMessage (body_messages req)) = Some um ->
  trim um <> [] ->
  violatesInputPolicy (trim um) = false ->
  exists more,
    trace (snd (answer w sid (trim um) st)) = trace st ++ more
    /\ Forall (routeEvent w req st) more
    /\ calls (snd (answer w sid (trim um) st)) =
       calls st + List.length (modelsCalled more) + summaryCalls more
    /\ List.length (modelsCalled more) <= 3
    /\ summaryCalls more <= 2
    /\ (summaryOff w = true -> summaryCalls more = 0)
    /\ (coolThrough w st -> summaryCalls more = 0).
Proof.
  intros Hsid Hum Htrim Hpolicy.
  assert (routeEvent w req st (SaveMessage sid user (trim um))) as Qsave.
  { simpl. split; [exact Hsid|]. left. split; [reflexivity|].
    rewrite Hum. split; [reflexivity|]. split; assumption. }
  assert (routeEvent w req st (Search (trim um))) as Qsearch.
  { simpl. rewrite Hum. reflexivity. }
  destruct (answer_cases w sid (trim um) st)
    as [(e & pre & -> & Hpre) | (rs & summary & ->)].
  - exists pre. cbn [snd trace calls]. split; [reflexivity|].
    destruct Hpre as [-> | [-> | [-> Eroll]]];
      (split; [repeat constructor; try assumption;
               simpl; split; assumption|]);
      cbn; repeat split; intros; lia.
  - destruct (generate_trace w sid (trim um) (contextOf w rs) (trim summary)
                (afterRetrieval w sid (trim um) st))
      as (more & Htr & HQ & Hcalls & Hn & Hs & Hoff & Hcool).
    rewrite Htr, Hcalls. unfold afterRetrieval. cbn [trace calls].
    assert (Forall (routeEvent w req st) more) as HQ'.
    { eapply Forall_impl; [|exact HQ]. intro e.
      apply (generationEvent_route w req st _ sid e Hsid). reflexivity. }
    assert (forall l, modelsCalled l = [] -> summaryCalls l = 0 ->
                      Forall (routeEvent w req st) l ->
            exists more0,
              (trace st ++ l) ++ more = trace st ++ more0 /\
              Forall (routeEvent w req st) more0 /\
              calls st + List.length (modelsCalled more) + summaryCalls more
              = calls st + List.length (modelsCalled more0)
                + summaryCalls more0 /\
              List.length (modelsCalled more0) <= 3 /\
              summaryCalls more0 <= 2 /\
              (summaryOff w = true -> summaryCalls more0 = 0) /\
              (coolThrough w st -> summaryCalls more0 = 0)) as Hpost.
    { intros l Hl0 Hl1 Hl2. exists (l ++ more).
      rewrite modelsCalled_app, summaryCalls_app, Hl0, Hl1. cbn [app].
      split; [rewrite app_assoc; reflexivity|].
      split; [apply Forall_app; split; assumption|].
      split; [lia|]. split; [lia|]. split; [lia|].
      split; [exact Hoff|]. exact Hcool. }
    match goal with
    | |- exists more0, (trace st ++ ?l) ++ more = _ /\ _ => apply (Hpost l)
    end.
    + destruct (ENABLE_ROLLING_SUMMARY (config w)); reflexivity.
    + destruct (ENABLE_ROLLING_SUMMARY (config w)); reflexivity.
    + destruct (ENABLE_ROLLING_SUMMARY (config w)) eqn:Eroll;
        repeat constructor; try assumption; simpl; split; assumption.
Qed.

(** What a request adds to the state: every call is one of the calls of
    [routeEvent], and the counter of [streamText] calls advances by the
    calls made for generation and for the summary. *)
Lemma chatRoute_trace (w : World) (req : Request) (st : St) :
  exists more,
    trace (snd (chatRoute w req st)) = trace st ++ more
    /\ Forall (routeEvent w req st) more
    /\ calls (snd (chatRoute w req st)) =
       calls st + List.length (modelsCalled more) + summaryCalls more
    /\ List.length (modelsCalled more) <= 3
    /\ summaryCalls more <= 2
    /\ (summaryOff w = true -> summaryCalls more = 0)
    /\ (coolThrough w st -> summaryCalls more = 0).
Proof.
  assert (exists more,
            trace st = trace st ++ more
            /\ Forall (routeEvent w req st) more
            /\ calls st =
               calls st + List.length (modelsCalled more) + summaryCalls more
            /\ List.length (modelsCalled more) <= 3
            /\ summaryCalls more <= 2
            /\ (summaryOff w = true -> summaryCalls more = 0)
            /\ (coolThrough w st -> summaryCalls more = 0)) as Hnone.
  { exists []. rewrite app_nil_r. cbn. repeat split; try constructor; lia. }
  destruct (wellFormed w req) eqn:Hwf.
  - destruct (wellFormed_true w req Hwf)
      as (sid & um & Hsid & Hne & Hum & Htrim & Hvalid).
    rewrite (chatRoute_valid w req st sid um Hsid Hne Hum Htrim Hvalid).
    destruct (violatesInputPolicy (trim um)) eqn:Hpolicy; [exact Hnone|].
    rewrite snd_respond.
    apply (answer_trace w req st sid um Hsid Hum Htrim Hpolicy).
  - destruct (wellFormed_false w req st Hwf) as [msg ->]. exact Hnone.
Qed.

Lemma reachesGeneration_valid (w : World) (req : Request)
  (sid query : jsstring) (rs : list HybridSearchResult) (summary : jsstring) :
  reachesGeneration w req sid query rs summary ->
  exists um,
    query = trim um /\
    sessionIdOf req = Some sid /\ sid <> [] /\
    userMessageOf (lastMessage (body_messages req)) = Some um /\
    trim um <> [] /\ isValidObjectId w sid = true.
Proof.
  intros (Hwf & Hsid & Hq & _).
  destruct (wellFormed_true w req Hwf)
    as (sid' & um & Hsid' & Hne & Hum & Htrim & Hvalid).
  rewrite Hsid in Hsid'. inversion Hsid'; subst sid'.
  rewrite Hum in Hq. simpl in Hq. inversion Hq; subst query.
  exists um. repeat split; assumption.
Qed.

Lemma chatRoute_generate (w : World) (req : Request) (st : St)
  (sid query : jsstring) (rs : list HybridSearchResult) (summary : jsstring) :
  reachesGeneration w req sid query rs summary ->
  chatRoute w req st =
  match generate w sid query (contextOf w rs) (trim summary)
                 (afterRetrieval w sid query st) with
  | (Ok response, st') => (response, st')
  | (Throw _, st') => (Json 500 (str "Chat request failed"), st')
  end.
Proof.
  intro H.
  destruct (reachesGeneration_valid w req sid query rs summary H)
    as (um & -> & Hsid & Hne & Hum & Htrim & Hvalid).
  destruct H as (_ & _ & _ & Hpolicy & Hsave & Hrag & Hsum).
  rewrite (chatRoute_valid w req st sid um Hsid Hne Hum Htrim Hvalid).
  rewrite Hpolicy.
  rewrite (answer_generate w sid (trim um) st rs summary Hsave Hrag Hsum).
  reflexivity.
Qed.

(** The status of the answer to a request that passes the payload
    checks. *)
Lemma wellFormed_status (w : World) (req : Request) (st : St) :
  wellFormed w req = true ->
  (statusOf (fst (chatRoute w req st)) = 403 /\
   snd (chatRoute w req st) = st) \/
  statusOf (fst (chatRoute w req st)) = 200 \/
  statusOf (fst (chatRoute w req st)) = 500.
Proof.
  intro Hwf.
  destruct (wellFormed_true w req Hwf)
    as (sid & um & Hsid & Hne & Hum & Htrim & Hvalid).
  rewrite (chatRoute_valid w req st sid um Hsid Hne Hum Htrim Hvalid).
  destruct (violatesInputPolicy (trim um)).
  - left. split; reflexivity.
  - right. rewrite fst_respond.
    destruct (fst (answer w sid (trim um) st)) as [r|e] eqn:E.
    + destruct (answer_piped w sid (trim um) st r E) as [result ->].
      left. reflexivity.
    + right. reflexivity.
Qed.


(** X10.  The route answers with status 400 exactly when the request fails
    the payload checks: no session id, no text part in the last message, a
    blank message, or a session id that is not a valid object id. *)
Theorem chatRoute_400_iff_malformed (w : World) (req : Request) (st : St) :
  (statusOf (fst (chatRoute w req st)) =? 400) = negb (wellFormed w req).
Proof.
  destruct (wellFormed w req) eqn:Hwf.
  - destruct (wellFormed_status w req st Hwf) as [[-> _] | [-> | ->]];
      reflexivity.
  - destruct (wellFormed_false w req st Hwf) as [msg ->]. reflexivity.
Qed.

(** X11.  A request that is answered with 400 or 403 has called no
    collaborator: nothing is saved, searched or generated, and the
    cool-down is untouched. *)
Theorem chatRoute_rejection_calls_nothing (w : World) (req : Request)
  (st : St) :
  statusOf (fst (chatRoute w req st)) = 400 \/
  statusOf (fst (chatRoute w req st)) = 403 ->
  snd (chatRoute w req st) = st.
Proof.
  intro H. destruct (wellFormed w req) eqn:Hwf.
  - destruct (wellFormed_status w req st Hwf) as [[_ Hst] | [E | E]];
      [exact Hst | |]; rewrite E in H; destruct H; discriminate.
  - destruct (wellFormed_false w req st Hwf) as [msg ->]. reflexivity.
Qed.

Lemma chatRoute_rejection_calls_nothing_witness :
  snd (chatRoute (world bothBranches answers) (ask "   ") (initial 0))
  = initial 0.
Proof.
  apply (chatRoute_rejection_calls_nothing
           (world bothBranches answers) (ask "   ") (initial 0)).
  left. vm_compute. reflexivity.
Defined.

(** X12.  A request makes at most three calls of [streamText] for
    generation (the first attempt, the fallback, and the fallback once more
    when the first fallback call throws) and at most two for the rolling
    summary, one after each stream that finished with a text: at most five
    in all, and at most three when rolling summaries are off.  The counter
    of calls advances by exactly these calls. *)
Theorem chatRoute_calls_bound (w : World) (req : Request) (st : St) :
  exists more,
    trace (snd (chatRoute w req st)) = trace st ++ more /\
    calls (snd (chatRoute w req st)) =
      calls st + List.length (modelsCalled more) + summaryCalls more /\
    List.length (modelsCalled more) <= 3 /\
    summaryCalls more <= 2 /\
    (summaryOff w = true -> summaryCalls more = 0) /\
    calls st <= calls (snd (chatRoute w req st)) <= calls st + 5.
Proof.
  destruct (chatRoute_trace w req st)
    as (more & Htr & _ & Hcalls & Hn & Hs & Hoff & _).
  exists more. repeat split; try assumption; lia.
Qed.

(** The bounds are met: a blank first answer, a first fallback call that
    throws and a second one that answers make three calls for generation,
    and the two finished streams make one call each for the summary. *)
Lemma chatRoute_five_calls :
  let out := chatRoute (summarising blankThenThrow)
                       (ask "what is deep learning") (initial 0) in
  calls (snd out) = 5 /\
  modelsCalled (trace (snd out)) =
    [PRIMARY_MODEL; DEFAULT_FALLBACK_MODEL; DEFAULT_FALLBACK_MODEL] /\
  summaryCalls (trace (snd out)) = 2.
Proof. vm_compute. repeat split; reflexivity. Qed.

(** X13.  No message that the route persists for the assistant matches an
    output pattern: a finished text that does is replaced by the warning
    before it is saved. *)
Theorem chatRoute_keeps_assistant_clean (w : World) (req : Request)
  (st : St) :
  cleanAssistant (trace st) ->
  cleanAssistant (trace (snd (chatRoute w req st))).
Proof.
  intro Hclean. destruct (chatRoute_trace w req st) as (more & -> & Q & _).
  unfold cleanAssistant, assistantMessages in *. intros c Hc.
  rewrite flat_map_app in Hc. apply in_app_or in Hc.
  destruct Hc as [Hc | Hc]; [exact (Hclean c Hc)|].
  apply in_flat_map in Hc. destruct Hc as (e & He & Hc).
  rewrite Forall_forall in Q. specialize (Q e He).
  destruct e; simpl in Hc; try contradiction.
  destruct (eqs role assistant) eqn:Er; [|contradiction].
  destruct Hc as [<- | []]. simpl in Q.
  destruct Q as (_ & [(-> & _) | (_ & Hok)]); [discriminate Er | exact Hok].
Qed.

Lemma chatRoute_keeps_assistant_clean_witness :
  cleanAssistant
    (trace (snd (chatRoute (world bothBranches leaksCard)
                           (ask "what is deep learning") (initial 0)))).
Proof.
  apply (chatRoute_keeps_assistant_clean
           (world bothBranches leaksCard) (ask "what is deep learning")
           (initial 0)).
  intros c [].
Defined.

(** X14.  Every user message that the route hands to [saveMessage] passed
    the input policy and is not empty. *)
Theorem chatRoute_saves_admissible_users (w : World) (req : Request)
  (st : St) :
  admissibleUsers (trace st) ->
  admissibleUsers (trace (snd (chatRoute w req st))).
Proof.
  intro Hadm. destruct (chatRoute_trace w req st) as (more & -> & Q & _).
  unfold admissibleUsers, userMessages in *. intros c Hc.
  rewrite flat_map_app in Hc. apply in_app_or in Hc.
  destruct Hc as [Hc | Hc]; [exact (Hadm c Hc)|].
  apply in_flat_map in Hc. destruct Hc as (e & He & Hc).
  rewrite Forall_forall in Q. specialize (Q e He).
  destruct e; simpl in Hc; try contradiction.
  destruct (eqs role user) eqn:Er; [|contradiction].
  destruct Hc as [<- | []]. simpl in Q.
  destruct Q as (_ & [(_ & _ & Hok) | (-> & _)]);
    [exact Hok | discriminate Er].
Qed.

Lemma chatRoute_saves_admissible_users_witness :
  admissibleUsers
    (trace (snd (chatRoute (world bothBranches answers)
                           (ask " what is deep learning ") (initial 0)))).
Proof.
  apply (chatRoute_saves_admissible_users
           (world bothBranches answers) (ask " what is deep learning ")
           (initial 0)).
  intros c [].
Defined.

(** X15.  During a cool-down every call of [streamText] made for
    generation is for the fallback model: the first attempt uses it, and so
    does the fallback.  A call made for the rolling summary is for
    [SUMMARY_MODEL]; [maybeUpdateRollingSummary] reads the clock again when
    a stream has finished, and no such call is made when the cool-down
    lasts until then. *)
Theorem cooldown_calls_only_fallback (w : World) (req : Request) (st : St) :
  (now w < rateLimitedUntil st)%Z ->
  exists more,
    trace (snd (chatRoute w req st)) = trace st ++ more /\
    (forall m, In m (modelsCalled more) -> m = FALLBACK_MODEL (config w)) /\
    (forall p m s u, In (SummaryStream p m s u) more ->
       m = SUMMARY_MODEL (config w) /\ p = resolveModel m /\
       summaryOff w = false) /\
    (coolThrough w st -> summaryCalls more = 0).
Proof.
  intro Hcool.
  destruct (chatRoute_trace w req st)
    as (more & H & Q & _ & _ & _ & _ & Hthrough).
  exists more. split; [exact H|]. rewrite Forall_forall in Q.
  split; [|split; [|exact Hthrough]].
  - intros m Hm. unfold modelsCalled in Hm. apply in_flat_map in Hm.
    destruct Hm as (e & He & Hm). specialize (Q e He).
    destruct e; simpl in Hm; try contradiction.
    destruct Hm as [<- | []]. simpl in Q.
    destruct Q as [(-> & _) | (-> & _)]; [|reflexivity].
    unfold primaryModelId. apply Z.ltb_lt in Hcool. rewrite Hcool.
    reflexivity.
  - intros p m s u Hin. exact (Q _ Hin).
Qed.

Lemma cooldown_calls_only_fallback_witness :
  let st1 := snd (chatRoute (world bothBranches rateLimited)
                            (ask "what is deep learning") (initial 0)) in
  exists more,
    trace (snd (chatRoute (later (world bothBranches rateLimited))
                          (ask "what are neural networks") st1)) =
    trace st1 ++ more /\
    (forall m, In m (modelsCalled more) -> m = DEFAULT_FALLBACK_MODEL) /\
    (forall p m s u, In (SummaryStream p m s u) more ->
       m = PRIMARY_MODEL /\ p = resolveModel m /\
       summaryOff (later (world bothBranches rateLimited)) = false) /\
    (coolThrough (later (world bothBranches rateLimited)) st1 ->
     summaryCalls more = 0).
Proof.
  intro st1.
  apply (cooldown_calls_only_fallback
           (later (world bothBranches rateLimited))
           (ask "what are neural networks") st1).
  vm_compute. reflexivity.
Defined.

(** During a cool-down that has lapsed when the stream finishes, the call
    for the summary is made, and it is for [SUMMARY_MODEL], here the primary
    model. *)
Lemma summary_call_after_lapsed_cooldown :
  let w := lapsed (summarising answerThenSummary) in
  let out := chatRoute w (ask "what is deep learning") (initial 2000) in
  (now w < rateLimitedUntil (initial 2000))%Z /\
  modelsCalled (trace (snd out)) = [DEFAULT_FALLBACK_MODEL] /\
  summaryCalls (trace (snd out)) = 1 /\
  In (SummaryStream Google PRIMARY_MODEL summarySystemText
        (summaryUserText (str "- the user studies learning")
           (str "USER: what is deep learning" ++ LF ++
            str "ASSISTANT: Layers.")))
     (trace (snd out)).
Proof.
  vm_compute. split; [reflexivity|]. split; [reflexivity|].
  split; [reflexivity|]. do 8 right. left. reflexivity.
Qed.

(** ** Paths through generation *)

Lemma afterRetrieval_fallbackCalls (w : World) (sid query : jsstring)
  (st : St) :
  fallbackCalls w (trace (afterRetrieval w sid query st)) =
  fallbackCalls w (trace st).
Proof.
  unfold afterRetrieval. simpl trace. rewrite !fallbackCalls_app.
  destruct (ENABLE_ROLLING_SUMMARY (config w)); unfold fallbackCalls; simpl;
    lia.
Qed.

Lemma St_eta (s : St) (until : Z) :
  rateLimitedUntil s = until ->
  {| trace := trace s; calls := calls s; rateLimitedUntil := until |} = s.
Proof. intros <-. destruct s; reflexivity. Qed.

Lemma markRateLimited_run (w : World) (e : JsError) (st : St) :
  markRateLimited w e st =
  (Ok tt, {| trace := trace st; calls := calls st;
             rateLimitedUntil :=
               if isRateLimitError e then cooldownEnd w
               else rateLimitedUntil st |}).
Proof.
  unfold markRateLimited, cooldownEnd. destruct (isRateLimitError e);
    [reflexivity|]. destruct st; reflexivity.
Qed.

(** The state after a stream that was called in state [called]. *)
Local Abbreviation finishedFrom w sid g called :=
  (match g with
   | GenText t => snd (onFinish w sid t called)
   | _ => called
   end).

Section Paths.

Variable w : World.
Variables sid query context summary : jsstring.

Local Abbreviation primaryCalled st :=
  {| trace := trace st ++
              [StreamText (resolveModel (primaryModelId w st))
                          (primaryModelId w st) (primaryLabel w st)
                          (buildUserText summary query context)];
     calls := S (calls st);
     rateLimitedUntil := rateLimitedUntil st |}.

Local Abbreviation fallbackCalledFrom st until :=
  {| trace := trace st ++
              [StreamText OpenAI (FALLBACK_MODEL (config w))
                          (fallbackLabel w)
                          (buildUserText summary query context)];
     calls := S (calls st);
     rateLimitedUntil := until |}.

(** The handler of a failed first attempt. *)
Local Abbreviation handler e :=
  (markRateLimited w e ;;;
   fallbackResult <- ensureOpenAiFallback w sid query context summary e ;;
   ret (Piped fallbackResult)).

Lemma finishedFrom_rateLimitedUntil (g : Generation) (called : St) :
  rateLimitedUntil (finishedFrom w sid g called) = rateLimitedUntil called.
Proof. destruct g; try reflexivity. apply onFinish_rateLimitedUntil. Qed.

(** The fallback with a key: the cool-down is set for a rate-limit error and
    [createStream] is called for the fallback model. *)
Lemma ensureOpenAiFallback_call (e : JsError) (st : St) :
  truthy (OPENAI_API_KEY (config w)) = true ->
  ensureOpenAiFallback w sid query context summary e st =
  let g := streamText w (calls st) OpenAI (FALLBACK_MODEL (config w)) in
  let called :=
    fallbackCalledFrom st (if isRateLimitError e then cooldownEnd w
                           else rateLimitedUntil st) in
  (match g with
   | GenThrows e' => Throw e'
   | _ => Ok {| r_label := fallbackLabel w; r_text := deliveryOf g |}
   end, finishedFrom w sid g called).
Proof.
  intro Hkey. unfold ensureOpenAiFallback. rewrite Hkey. unfold bind.
  rewrite markRateLimited_run. unfold createStream.
  cbn [trace calls rateLimitedUntil]. cbv zeta.
  destruct (streamText w (calls st) OpenAI (FALLBACK_MODEL (config w)));
    reflexivity.
Qed.

Lemma ensureOpenAiFallback_no_key (e : JsError) (st : St) :
  truthy (OPENAI_API_KEY (config w)) = false ->
  ensureOpenAiFallback w sid query context summary e st = (Throw e, st).
Proof. intro Hkey. unfold ensureOpenAiFallback. rewrite Hkey. reflexivity. Qed.

(** [generate] after the first call of [streamText], by its outcome. *)
Lemma generate_thrown (st : St) (e : JsError) :
  primaryOutcome w st = GenThrows e ->
  generate w sid query context summary st = handler e (primaryCalled st).
Proof.
  unfold primaryOutcome. intro H. unfold generate. cbv zeta.
  fold (primaryModelId w st). fold (primaryLabel w st).
  unfold createStream at 1. rewrite H. reflexivity.
Qed.

Lemma generate_rejected (st : St) (e : JsError) :
  primaryOutcome w st = GenRejects e ->
  generate w sid query context summary st = handler e (primaryCalled st).
Proof.
  unfold primaryOutcome. intro H. unfold generate. cbv zeta.
  fold (primaryModelId w st). fold (primaryLabel w st).
  unfold createStream at 1. rewrite H.
  unfold bind, tryCatch, lift, ret. cbn [r_text].
  destruct (markRateLimited w e _) as [[[]|e1] st1]; [|reflexivity].
  destruct (ensureOpenAiFallback w sid query context summary e st1)
    as [[r|e2] st2]; reflexivity.
Qed.

Lemma generate_blank (st : St) (t : jsstring) :
  primaryOutcome w st = GenText t ->
  trim t = [] ->
  generate w sid query context summary st =
  match ensureOpenAiFallback w sid query context summary
          (mkError "Empty Gemini output")
          (snd (onFinish w sid t (primaryCalled st))) with
  | (Ok fallbackResult, st') => (Ok (Piped fallbackResult), st')
  | (Throw e, st') => handler e st'
  end.
Proof.
  unfold primaryOutcome. intros H Ht. unfold generate. cbv zeta.
  fold (primaryModelId w st). fold (primaryLabel w st).
  unfold createStream at 1. rewrite H.
  unfold bind, tryCatch, lift, ret. cbn [r_text]. rewrite Ht.
  cbn [len List.length Nat.eqb].
  destruct (ensureOpenAiFallback w sid query context summary
              (mkError "Empty Gemini output") _) as [[r|e1] st1];
    [reflexivity|].
  destruct (markRateLimited w e1 st1) as [[[]|e2] st2]; [|reflexivity].
  destruct (ensureOpenAiFallback w sid query context summary e1 st2)
    as [[r|e3] st3]; reflexivity.
Qed.

Lemma generate_primary_state (st : St) (t : jsstring) :
  primaryOutcome w st = GenText t ->
  trim t <> [] ->
  generate w sid query context summary st =
  (Ok (Piped {| r_label := primaryLabel w st; r_text := Ok t |}),
   snd (onFinish w sid t (primaryCalled st))).
Proof.
  unfold primaryOutcome. intros Hgen Ht. unfold generate. cbv zeta.
  fold (primaryModelId w st). fold (primaryLabel w st).
  unfold createStream. rewrite Hgen.
  unfold bind, tryCatch, lift, ret. cbn [r_text].
  destruct (trim t) as [|c t']; [contradiction|]. reflexivity.
Qed.

(** The handler with a key, when the call for the fallback model does not
    throw. *)
Lemma handler_fallback (e : JsError) (st : St) :
  truthy (OPENAI_API_KEY (config w)) = true ->
  (forall e', streamText w (calls st) OpenAI (FALLBACK_MODEL (config w))
              <> GenThrows e') ->
  handler e st =
  (Ok (Piped {| r_label := fallbackLabel w;
                r_text := deliveryOf
                            (streamText w (calls st) OpenAI
                               (FALLBACK_MODEL (config w))) |}),
   finishedFrom w sid
     (streamText w (calls st) OpenAI (FALLBACK_MODEL (config w)))
     (fallbackCalledFrom st (if isRateLimitError e then cooldownEnd w
                             else rateLimitedUntil st))).
Proof.
  intros Hkey Hno. unfold bind. rewrite markRateLimited_run.
  rewrite (ensureOpenAiFallback_call e _ Hkey).
  cbv zeta. cbn [trace calls rateLimitedUntil].
  destruct (streamText w (calls st) OpenAI (FALLBACK_MODEL (config w)))
    as [e'|e'|t] eqn:E.
  - exfalso. exact (Hno e' eq_refl).
  - unfold ret. destruct (isRateLimitError e); reflexivity.
  - unfold ret. destruct (isRateLimitError e); reflexivity.
Qed.

Lemma handler_no_key (e : JsError) (st : St) :
  truthy (OPENAI_API_KEY (config w)) = false ->
  handler e st =
  (Throw e, {| trace := trace st; calls := calls st;
               rateLimitedUntil :=
                 if isRateLimitError e then cooldownEnd w
                 else rateLimitedUntil st |}).
Proof.
  intro Hkey. unfold bind. rewrite markRateLimited_run.
  rewrite (ensureOpenAiFallback_no_key e _ Hkey). reflexivity.
Qed.

(** The state after the first attempt and the call that follows it. *)
Local Abbreviation firstAttempt st :=
  (finishedFrom w sid (primaryOutcome w st) (primaryCalled st)).

Local Abbreviation cooldownFrom st :=
  (match primaryOutcome w st with
   | GenThrows e | GenRejects e =>
       if isRateLimitError e then cooldownEnd w else rateLimitedUntil st
   | GenText _ => rateLimitedUntil st
   end).

Lemma generate_fallback (st : St) :
  primaryFails w st ->
  truthy (OPENAI_API_KEY (config w)) = true ->
  (forall e, streamText w (calls (firstAttempt st)) OpenAI
                        (FALLBACK_MODEL (config w)) <> GenThrows e) ->
  generate w sid query context summary st =
  (Ok (Piped {| r_label := fallbackLabel w;
                r_text := deliveryOf
                            (streamText w (calls (firstAttempt st)) OpenAI
                               (FALLBACK_MODEL (config w))) |}),
   finishedFrom w sid
     (streamText w (calls (firstAttempt st)) OpenAI
                 (FALLBACK_MODEL (config w)))
     (fallbackCalledFrom (firstAttempt st) (cooldownFrom st))).
Proof.
  unfold primaryFails. fold (primaryOutcome w st). intros Hfails Hkey.
  destruct (primaryOutcome w st) as [e|e|t] eqn:Hout; intro Hno.
  - rewrite (generate_thrown st e Hout).
    exact (handler_fallback e _ Hkey Hno).
  - rewrite (generate_rejected st e Hout).
    exact (handler_fallback e _ Hkey Hno).
  - rewrite (generate_blank st t Hout Hfails).
    rewrite (ensureOpenAiFallback_call _ _ Hkey). cbv zeta.
    rewrite empty_output_not_rate_limit.
    rewrite onFinish_rateLimitedUntil. cbn [rateLimitedUntil].
    destruct (streamText w (calls (snd (onFinish w sid t (primaryCalled st))))
                OpenAI (FALLBACK_MODEL (config w))) as [e'|e'|t'] eqn:E.
    + exfalso. exact (Hno e' eq_refl).
    + reflexivity.
    + reflexivity.
Qed.

Lemma generate_no_key (st : St) :
  primaryFails w st ->
  truthy (OPENAI_API_KEY (config w)) = false ->
  exists e,
    generate w sid query context summary st =
    (Throw e, {| trace := trace (firstAttempt st);
                 calls := calls (firstAttempt st);
                 rateLimitedUntil := cooldownFrom st |}).
Proof.
  unfold primaryFails. fold (primaryOutcome w st). intros Hfails Hkey.
  destruct (primaryOutcome w st) as [e|e|t] eqn:Hout.
  - exists e. rewrite (generate_thrown st e Hout).
    exact (handler_no_key e _ Hkey).
  - exists e. rewrite (generate_rejected st e Hout).
    exact (handler_no_key e _ Hkey).
  - exists (mkError "Empty Gemini output").
    rewrite (generate_blank st t Hout Hfails).
    rewrite (ensureOpenAiFallback_no_key _ _ Hkey).
    rewrite (handler_no_key _ _ Hkey).
    rewrite empty_output_not_rate_limit.
    rewrite onFinish_rateLimitedUntil. reflexivity.
Qed.

Lemma ensureOpenAiFallback_cooldown (e : JsError) (st : St) :
  rateLimitedUntil st = cooldownEnd w ->
  rateLimitedUntil
    (snd (ensureOpenAiFallback w sid query context summary e st))
  = cooldownEnd w.
Proof.
  intro H. destruct (truthy (OPENAI_API_KEY (config w))) eqn:Hkey.
  - rewrite (ensureOpenAiFallback_call e st Hkey). cbv zeta. cbn [snd].
    rewrite finishedFrom_rateLimitedUntil. cbn [rateLimitedUntil].
    destruct (isRateLimitError e); [reflexivity | exact H].
  - rewrite (ensureOpenAiFallback_no_key e st Hkey). exact H.
Qed.

Lemma handler_cooldown (e : JsError) (st : St) :
  isRateLimitError e = true \/ rateLimitedUntil st = cooldownEnd w ->
  rateLimitedUntil (snd (handler e st)) = cooldownEnd w.
Proof.
  intro H. unfold bind. rewrite markRateLimited_run.
  match goal with
  | |- context [ensureOpenAiFallback w sid query context summary e ?ST] =>
      pose proof (ensureOpenAiFallback_cooldown e ST) as Hc;
      destruct (ensureOpenAiFallback w sid query context summary e ST)
        as [[r|e'] st']
  end; cbn [snd rateLimitedUntil] in *; apply Hc;
    destruct H as [-> | H]; [reflexivity | | reflexivity |];
    destruct (isRateLimitError e); try reflexivity; exact H.
Qed.

Lemma generate_rate_limited (st : St) (e : JsError) :
  primaryError w st = Some e ->
  isRateLimitError e = true ->
  rateLimitedUntil (snd (generate w sid query context summary st)) =
  cooldownEnd w.
Proof.
  unfold primaryError. fold (primaryOutcome w st). intros He Hrl.
  destruct (primaryOutcome w st) as [e0|e0|t] eqn:Hout;
    inversion He; subst e0.
  - rewrite (generate_thrown st e Hout). apply handler_cooldown.
    left. exact Hrl.
  - rewrite (generate_rejected st e Hout). apply handler_cooldown.
    left. exact Hrl.
Qed.

End Paths.

(** ** The states of a request that reaches generation *)

Lemma cooldownAfter_eq (w : World) (st : St) :
  cooldownAfter w st =
  match primaryOutcome w st with
  | GenThrows e | GenRejects e =>
      if isRateLimitError e then cooldownEnd w else rateLimitedUntil st
  | GenText _ => rateLimitedUntil st
  end.
Proof.
  unfold cooldownAfter, primaryError, primaryOutcome.
  destruct (streamText w (calls st) _ _); reflexivity.
Qed.

Lemma finished_effect (w : World) (sid : jsstring) (g : Generation)
  (called : St) :
  exists rest,
    trace (finishedFrom w sid g called) = trace called ++ rest /\
    calls (finishedFrom w sid g called) = calls called + summaryCalls rest /\
    rateLimitedUntil (finishedFrom w sid g called) = rateLimitedUntil called
    /\ modelsCalled rest = [] /\
    fallbackCalls w rest = 0 /\
    summaryCalls rest <= 1 /\
    (summaryOff w = true -> summaryCalls rest = 0) /\
    ((forall t, g <> GenText t) -> rest = []).
Proof.
  destruct g as [e|e|t].
  1,2: exists []; rewrite app_nil_r; cbn; repeat split; intros; lia.
  destruct (onFinish_effect w sid t called)
    as (rest & Htr & Hc & Hr & Hm & Hf & Hs & _ & Hoff & _).
  exists ([SaveMessage sid assistant (savedText t)] ++ rest).
  rewrite modelsCalled_app, summaryCalls_app, fallbackCalls_app.
  rewrite modelsCalled_saved, summaryCalls_saved, Hm, Hf.
  split; [exact Htr|]. split; [exact Hc|]. split; [exact Hr|].
  split; [reflexivity|]. split; [reflexivity|]. split; [exact Hs|].
  split.
  - intro H. rewrite (Hoff H). reflexivity.
  - intro H. exfalso. exact (H t eq_refl).
Qed.

Lemma afterFirstAttempt_effect (w : World) (sid query : jsstring)
  (rs : list HybridSearchResult) (summary : jsstring) (st : St) :
  exists more,
    trace (afterFirstAttempt w sid query rs summary st) =
      trace st ++ [SaveMessage sid user query; Search query] ++
      (if ENABLE_ROLLING_SUMMARY (config w) then [GetSummary sid] else []) ++
      [firstCall w query rs summary st] ++ more /\
    calls (afterFirstAttempt w sid query rs summary st) =
      S (calls st) + summaryCalls more /\
    rateLimitedUntil (afterFirstAttempt w sid query rs summary st) =
      rateLimitedUntil st /\
    modelsCalled more = [] /\
    fallbackCalls w more = 0 /\
    summaryCalls more <= 1 /\
    (summaryOff w = true -> summaryCalls more = 0) /\
    (forall e, primaryError w st = Some e -> more = []).
Proof.
  destruct (finished_effect w sid (primaryOutcome w st)
              (firstCalled w sid query rs summary st))
    as (rest & Htr & Hc & Hr & Hm & Hf & Hs & Hoff & Hnone).
  exists rest.
  change (finishedFrom w sid (primaryOutcome w st)
            (firstCalled w sid query rs summary st))
    with (afterFirstAttempt w sid query rs summary st) in Htr, Hc, Hr.
  rewrite Htr, Hc, Hr. unfold firstCalled, afterRetrieval.
  cbn [trace calls rateLimitedUntil]. rewrite <- !app_assoc.
  repeat split; try assumption.
  intros e He. apply Hnone. intros t Ht. unfold primaryError in He.
  unfold primaryOutcome in Ht. rewrite Ht in He. discriminate He.
Qed.

Lemma afterFallback_effect (w : World) (sid query : jsstring)
  (rs : list HybridSearchResult) (summary : jsstring) (st : St) :
  exists more,
    trace (afterFallback w sid query rs summary st) =
      trace (afterFirstAttempt w sid query rs summary st) ++
      [fallbackCall w query rs summary] ++ more /\
    calls (afterFallback w sid query rs summary st) =
      S (calls (afterFirstAttempt w sid query rs summary st)) +
      summaryCalls more /\
    rateLimitedUntil (afterFallback w sid query rs summary st) =
      cooldownAfter w st /\
    modelsCalled more = [] /\
    fallbackCalls w more = 0 /\
    summaryCalls more <= 1 /\
    (summaryOff w = true -> summaryCalls more = 0).
Proof.
  destruct (finished_effect w sid (fallbackOutcome w sid query rs summary st)
              (fallbackCalled w sid query rs summary st))
    as (rest & Htr & Hc & Hr & Hm & Hf & Hs & Hoff & _).
  exists rest.
  change (finishedFrom w sid (fallbackOutcome w sid query rs summary st)
            (fallbackCalled w sid query rs summary st))
    with (afterFallback w sid query rs summary st) in Htr, Hc, Hr.
  rewrite Htr, Hc, Hr. unfold fallbackCalled.
  cbn [trace calls rateLimitedUntil]. rewrite <- !app_assoc.
  repeat split; assumption.
Qed.

(** X16.  A request whose first attempt answers with a text that is not
    blank calls its collaborators in this order: the user message is saved,
    the knowledge base is searched, the summary is read when rolling
    summaries are on, [streamText] is called once for generation, and
    [onFinish] runs on the text: it saves the text, or the warning in its
    place, and then makes the calls of an update of the rolling summary as
    far as that update gets, among them at most one more call of
    [streamText].  The stream of the first call is piped to the client and
    the cool-down is untouched.  No update is begun when summaries are off,
    when the text is blocked or when [onFinish] finds a cool-down. *)
Theorem primary_answer_call_sequence (w : World) (req : Request) (st : St)
  (sid query : jsstring) (rs : list HybridSearchResult)
  (summary t : jsstring) :
  reachesGeneration w req sid query rs summary ->
  primaryOutcome w st = GenText t ->
  trim t <> [] ->
  chatRoute w req st =
    (Piped {| r_label := primaryLabel w st; r_text := Ok t |},
     snd (onFinish w sid t (firstCalled w sid query rs summary st))) /\
  exists rest,
    trace (snd (chatRoute w req st)) =
      trace st ++ [SaveMessage sid user query; Search query] ++
      (if ENABLE_ROLLING_SUMMARY (config w) then [GetSummary sid] else []) ++
      [firstCall w query rs summary st] ++
      [SaveMessage sid assistant (savedText t)] ++ rest /\
    (exists k u s, rest = firstn k (summarySteps w sid u s)) /\
    calls (snd (chatRoute w req st)) = S (calls st) + summaryCalls rest /\
    summaryCalls rest <= 1 /\
    rateLimitedUntil (snd (chatRoute w req st)) = rateLimitedUntil st /\
    (summaryOff w = true -> rest = []) /\
    (violatesOutputPolicy t = true -> rest = []) /\
    ((finishNow w (S (calls st)) < rateLimitedUntil st)%Z -> rest = []).
Proof.
  intros Hreach Hgen Ht.
  assert (chatRoute w req st =
          (Piped {| r_label := primaryLabel w st; r_text := Ok t |},
           snd (onFinish w sid t (firstCalled w sid query rs summary st))))
    as Hroute.
  { rewrite (chatRoute_generate w req st sid query rs summary Hreach).
    rewrite (generate_primary_state w sid query (contextOf w rs)
               (trim summary) (afterRetrieval w sid query st) t Hgen Ht).
    reflexivity. }
  split; [exact Hroute|]. rewrite Hroute. cbn [snd].
  destruct (onFinish_effect w sid t (firstCalled w sid query rs summary st))
    as (rest & Htr & Hc & Hr & _ & _ & Hs & _ & Hoff & Hpol & Hg & Hk).
  exists rest. rewrite Htr, Hc, Hr. unfold firstCalled, afterRetrieval.
  cbn [trace calls rateLimitedUntil] in *. rewrite <- !app_assoc.
  repeat split; assumption.
Qed.

Lemma primary_answer_call_sequence_witness :
  let w := summarising answerThenSummary in
  let rs := rank (semanticDocs
                    {| documents := Some [[Some (str "Deep learning")]];
                       metadatas := Some [[Some kbMeta]];
                       distances := Some [[Some 0.25%float]] |} ++
                  lexicalDocs lexicalHits) in
  let out := chatRoute w (ask " what is deep learning ") (initial 0) in
  fst out =
    Piped {| r_label := str "Primary (gemini-2.5-flash)";
             r_text := Ok (str "Deep learning uses multiple layers.") |} /\
  trace (snd out) =
    [SaveMessage session user (str "what is deep learning");
     Search (str "what is deep learning");
     GetSummary session;
     StreamText Google PRIMARY_MODEL (str "Primary (gemini-2.5-flash)")
       (buildUserText (str "- the user studies learning")
          (str "what is deep learning") (contextOf w rs));
     SaveMessage session assistant
       (str "Deep learning uses multiple layers.");
     CountMessages session;
     GetSummary session;
     RecentMessages session 12;
     SummaryStream Google PRIMARY_MODEL summarySystemText
       (summaryUserText (str "- the user studies learning")
          (str "USER: what is deep learning" ++ LF ++
           str "ASSISTANT: Layers."));
     UpdateSummary session (str "- the user studies deep learning")] /\
  calls (snd out) = 2 /\
  rateLimitedUntil (snd out) = 0%Z.
Proof.
  intros w rs out.
  assert (reachesGeneration w (ask " what is deep learning ") session
            (str "what is deep learning") rs
            (str "- the user studies learning")) as Hreach
    by (repeat split; vm_compute; reflexivity).
  assert (primaryOutcome w (initial 0) =
          GenText (str "Deep learning uses multiple layers.")) as Hgen
    by (vm_compute; reflexivity).
  assert (trim (str "Deep learning uses multiple layers.") <> []) as Ht
    by (vm_compute; discriminate).
  destruct (primary_answer_call_sequence w (ask " what is deep learning ")
              (initial 0) session (str "what is deep learning") rs
              (str "- the user studies learning")
              (str "Deep learning uses multiple layers.") Hreach Hgen Ht)
    as [Hroute _].
  unfold out. rewrite Hroute. vm_compute. repeat split; reflexivity.
Defined.

(** X17.  When the first attempt fails (the call throws, its stream fails or
    its text is blank), a fallback key is set and the call for the fallback
    model that follows does not throw, the request is answered with the
    stream of that one fallback call.  Two calls of [streamText] are made
    for generation, the first attempt and the fallback; a stream that
    finished with a text, blank or not, has been handed to [onFinish],
    which may call [streamText] once more for the summary.  The cool-down
    starts only when the first attempt failed with a rate-limit error. *)
Theorem primary_failure_falls_back (w : World) (req : Request) (st : St)
  (sid query : jsstring) (rs : list HybridSearchResult) (summary : jsstring) :
  reachesGeneration w req sid query rs summary ->
  primaryFails w st ->
  truthy (OPENAI_API_KEY (config w)) = true ->
  (forall e, fallbackOutcome w sid query rs summary st <> GenThrows e) ->
  chatRoute w req st =
    (Piped {| r_label := fallbackLabel w;
              r_text := deliveryOf
                          (fallbackOutcome w sid query rs summary st) |},
     afterFallback w sid query rs summary st) /\
  (exists more1 more2,
     trace (afterFallback w sid query rs summary st) =
       trace st ++ [SaveMessage sid user query; Search query] ++
       (if ENABLE_ROLLING_SUMMARY (config w) then [GetSummary sid] else []) ++
       [firstCall w query rs summary st] ++ more1 ++
       [fallbackCall w query rs summary] ++ more2 /\
     modelsCalled more1 = [] /\ modelsCalled more2 = [] /\
     calls (afterFallback w sid query rs summary st) =
       calls st + 2 + summaryCalls more1 + summaryCalls more2 /\
     summaryCalls more1 <= 1 /\ summaryCalls more2 <= 1 /\
     (summaryOff w = true ->
      summaryCalls more1 = 0 /\ summaryCalls more2 = 0)) /\
  fallbackCalls w (trace (afterFallback w sid query rs summary st)) =
    fallbackCalls w (trace st) + 1 /\
  rateLimitedUntil (afterFallback w sid query rs summary st) =
    cooldownAfter w st.
Proof.
  intros Hreach Hfails Hkey Hno.
  destruct (afterFirstAttempt_effect w sid query rs summary st)
    as (more1 & Htr1 & Hc1 & Hr1 & Hm1 & Hf1 & Hs1 & Hoff1 & _).
  destruct (afterFallback_effect w sid query rs summary st)
    as (more2 & Htr2 & Hc2 & Hr2 & Hm2 & Hf2 & Hs2 & Hoff2).
  split; [|split; [|split; [|exact Hr2]]].
  - rewrite (chatRoute_generate w req st sid query rs summary Hreach).
    rewrite (generate_fallback w sid query (contextOf w rs) (trim summary)
               (afterRetrieval w sid query st) Hfails Hkey Hno).
    unfold afterFallback, fallbackCalled. rewrite cooldownAfter_eq.
    reflexivity.
  - exists more1, more2. rewrite Htr2, Hc2, Htr1, Hc1.
    rewrite <- !app_assoc.
    repeat split; try assumption; try lia; auto.
  - rewrite Htr2, Htr1. rewrite !fallbackCalls_app, !fallbackCalls_one.
    rewrite Hf1, Hf2. unfold fallbackCall.
    rewrite fallback_is_fallback_call. unfold firstCall, primaryLabel.
    rewrite (primary_not_fallback_call w _ _ _ _ _ eq_refl).
    destruct (ENABLE_ROLLING_SUMMARY (config w)); cbn; lia.
Qed.

Lemma primary_failure_falls_back_witness :
  let w := world bothBranches rateLimited in
  let rs := rank (semanticDocs
                    {| documents := Some [[Some (str "Deep learning")]];
                       metadatas := Some [[Some kbMeta]];
                       distances := Some [[Some 0.25%float]] |} ++
                  lexicalDocs lexicalHits) in
  let out := chatRoute w (ask "what is deep learning") (initial 0) in
  fst out =
    Piped {| r_label := str "Fallback (openai/gpt-oss-120b:free)";
             r_text := Ok (str "Deep learning uses multiple layers.") |} /\
  snd out =
    afterFallback w session (str "what is deep learning") rs [] (initial 0) /\
  calls (snd out) = 2 /\
  fallbackCalls w (trace (snd out)) = 1 /\
  rateLimitedUntil (snd out) = 61000%Z.
Proof.
  intros w rs out.
  assert (reachesGeneration w (ask "what is deep learning") session
            (str "what is deep learning") rs []) as Hreach
    by (repeat split; vm_compute; reflexivity).
  assert (primaryFails w (initial 0)) as Hfails by (vm_compute; exact I).
  assert (truthy (OPENAI_API_KEY (config w)) = true) as Hkey
    by (vm_compute; reflexivity).
  assert (forall e, fallbackOutcome w session (str "what is deep learning")
                      rs [] (initial 0) <> GenThrows e) as Hno
    by (intro e; vm_compute; discriminate).
  destruct (primary_failure_falls_back w (ask "what is deep learning")
              (initial 0) session (str "what is deep learning") rs []
              Hreach Hfails Hkey Hno) as [Hroute _].
  unfold out. rewrite Hroute. cbn [fst snd].
  split; [vm_compute; reflexivity|]. split; [reflexivity|].
  vm_compute. repeat split; reflexivity.
Defined.

(** X18.  When the first attempt fails and no fallback key is set, the
    request ends with the general 500 answer after that one call of
    [streamText] for generation; a text that finished blank has still been
    handed to [onFinish], which may call [streamText] once for the summary.
    After an error of the first attempt nothing more is called. *)
Theorem primary_failure_without_key (w : World) (req : Request) (st : St)
  (sid query : jsstring) (rs : list HybridSearchResult) (summary : jsstring) :
  reachesGeneration w req sid query rs summary ->
  primaryFails w st ->
  truthy (OPENAI_API_KEY (config w)) = false ->
  chatRoute w req st =
    (Json 500 (str "Chat request failed"),
     {| trace := trace (afterFirstAttempt w sid query rs summary st);
        calls := calls (afterFirstAttempt w sid query rs summary st);
        rateLimitedUntil := cooldownAfter w st |}) /\
  exists more,
    trace (afterFirstAttempt w sid query rs summary st) =
      trace st ++ [SaveMessage sid user query; Search query] ++
      (if ENABLE_ROLLING_SUMMARY (config w) then [GetSummary sid] else []) ++
      [firstCall w query rs summary st] ++ more /\
    calls (afterFirstAttempt w sid query rs summary st) =
      S (calls st) + summaryCalls more /\
    modelsCalled more = [] /\
    fallbackCalls w more = 0 /\
    summaryCalls more <= 1 /\
    (summaryOff w = true -> summaryCalls more = 0) /\
    (forall e, primaryError w st = Some e -> more = []).
Proof.
  intros Hreach Hfails Hkey. split.
  - rewrite (chatRoute_generate w req st sid query rs summary Hreach).
    destruct (generate_no_key w sid query (contextOf w rs) (trim summary)
                (afterRetrieval w sid query st) Hfails Hkey) as (e & ->).
    rewrite cooldownAfter_eq. reflexivity.
  - destruct (afterFirstAttempt_effect w sid query rs summary st)
      as (more & Htr & Hc & _ & Hm & Hf & Hs & Hoff & Herr).
    exists more. repeat split; assumption.
Qed.

Lemma primary_failure_without_key_witness :
  fst (chatRoute (noKey rateLimited) (ask "what is deep learning")
                 (initial 0)) = Json 500 (str "Chat request failed") /\
  calls (snd (chatRoute (noKey rateLimited) (ask "what is deep learning")
                        (initial 0))) = 1 /\
  rateLimitedUntil
    (snd (chatRoute (noKey rateLimited) (ask "what is deep learning")
                    (initial 0))) = 61000%Z.
Proof.
  assert (reachesGeneration (noKey rateLimited)
            (ask "what is deep learning") session
            (str "what is deep learning")
            (rank (semanticDocs
                      {| documents := Some [[Some (str "Deep learning")]];
                         metadatas := Some [[Some kbMeta]];
                         distances := Some [[Some 0.25%float]] |} ++
                    lexicalDocs lexicalHits)) [])
    as Hreach by (repeat split; vm_compute; reflexivity).
  assert (primaryFails (noKey rateLimited) (initial 0)) as Hfails
    by (vm_compute; exact I).
  destruct (primary_failure_without_key
              (noKey rateLimited) (ask "what is deep learning")
              (initial 0) session (str "what is deep learning")
              (rank (semanticDocs
                      {| documents := Some [[Some (str "Deep learning")]];
                         metadatas := Some [[Some kbMeta]];
                         distances := Some [[Some 0.25%float]] |} ++
                    lexicalDocs lexicalHits)) [] Hreach Hfails eq_refl) as [Hroute _].
  rewrite Hroute. vm_compute. repeat split; reflexivity.
Defined.

(** X19.  A rate-limit error of the first attempt (status 429, or a message
    that names a rate limit or quota) starts the cool-down, whatever
    becomes of the fallback: after the request [rateLimitedUntil] is the
    time of the request plus [RATE_LIMIT_BACKOFF_MS]. *)
Theorem rate_limit_starts_cooldown (w : World) (req : Request) (st : St)
  (sid query : jsstring) (rs : list HybridSearchResult) (summary : jsstring)
  (e : JsError) :
  reachesGeneration w req sid query rs summary ->
  primaryError w st = Some e ->
  isRateLimitError e = true ->
  rateLimitedUntil (snd (chatRoute w req st)) = cooldownEnd w.
Proof.
  intros Hreach He Hrl.
  rewrite (chatRoute_generate w req st sid query rs summary Hreach).
  rewrite snd_respond.
  apply (generate_rate_limited w sid query (contextOf w rs) (trim summary)
           (afterRetrieval w sid query st) e He Hrl).
Qed.

Lemma rate_limit_starts_cooldown_witness :
  rateLimitedUntil
    (snd (chatRoute (world bothBranches rateLimited)
                    (ask "what is deep learning") (initial 0))) = 61000%Z.
Proof.
  refine (rate_limit_starts_cooldown
            (world bothBranches rateLimited) (ask "what is deep learning")
            (initial 0) session (str "what is deep learning")
            (rank (semanticDocs
                     {| documents := Some [[Some (str "Deep learning")]];
                        metadatas := Some [[Some kbMeta]];
                        distances := Some [[Some 0.25%float]] |} ++
                   lexicalDocs lexicalHits)) [] tooManyRequests _ _ _).
  - repeat split; vm_compute; reflexivity.
  - vm_compute. reflexivity.
  - vm_compute. reflexivity.
Defined.

(** X20.  When saving the user message fails, the request ends with the
    general 500 answer; nothing is searched and nothing is generated. *)
Theorem save_failure_stops_request (w : World) (req : Request) (st : St)
  (sid um : jsstring) (e : JsError) :
  wellFormed w req = true ->
  sessionIdOf req = Some sid ->
  userMessageOf (lastMessage (body_messages req)) = Some um ->
  violatesInputPolicy (trim um) = false ->
  saveUserMessage w sid (trim um) = Throw e ->
  chatRoute w req st =
  (Json 500 (str "Chat request failed"),
   {| trace := trace st ++ [SaveMessage sid user (trim um)];
      calls := calls st;
      rateLimitedUntil := rateLimitedUntil st |}).
Proof.
  intros Hwf Hsid Hum Hpolicy Hsave.
  destruct (wellFormed_true w req Hwf)
    as (sid' & um' & Hsid' & Hne & Hum' & Htrim & Hvalid).
  rewrite Hsid in Hsid'. inversion Hsid'; subst sid'.
  rewrite Hum in Hum'. inversion Hum'; subst um'.
  rewrite (chatRoute_valid w req st sid um Hsid Hne Hum Htrim Hvalid).
  rewrite Hpolicy. unfold answer, bind, emit, lift. simpl.
  rewrite Hsave. reflexivity.
Qed.

Lemma save_failure_stops_request_witness :
  chatRoute noDatabase (ask "what is deep learning") (initial 0) =
  (Json 500 (str "Chat request failed"),
   {| trace := [SaveMessage session user (str "what is deep learning")];
      calls := 0; rateLimitedUntil := 0 |}).
Proof.
  apply (save_failure_stops_request noDatabase (ask "what is deep learning")
           (initial 0) session (str "what is deep learning") dbDown);
    vm_compute; reflexivity.
Defined.

End ChatRouteMore.

Module IngestMore.
Import JsString Chat HybridSearch ChatRoute Ingest Knowledge Vocabulary
       Vocabulary4 Examples Examples2 JsStringFacts IngestFacts.

(** ** Ingestion: the stores *)

Lemma eqs_false (a b : jsstring) : a <> b -> eqs a b = false.
Proof.
  intro H. destruct (eqs a b) eqn:E; [|reflexivity].
  apply eqs_true in E. contradiction.
Qed.

Lemma hasPath_other (fp fp' : jsstring) (m : Meta) :
  fp' <> fp -> hasPath fp' m = true -> hasPath fp m = false.
Proof.
  unfold hasPath. intros Hne H. destruct (filePath m) as [f|]; [|reflexivity].
  apply eqs_true in H. subst f. apply eqs_false. exact Hne.
Qed.

Lemma getWhere_deleteWhere_other (fp fp' : jsstring) (c : list VectorRecord) :
  fp' <> fp -> getWhere fp' (deleteWhere fp c) = getWhere fp' c.
Proof.
  intro Hne. unfold getWhere, deleteWhere.
  induction c as [|r c IH]; [reflexivity|]. simpl.
  destruct (hasPath fp' (v_meta r)) eqn:E'.
  - rewrite (hasPath_other fp fp' _ Hne E'). simpl. rewrite E', IH.
    reflexivity.
  - destruct (hasPath fp (v_meta r)); simpl; [|rewrite E']; exact IH.
Qed.

Lemma getWhere_zipRecords (fp hash : jsstring) (chunks : list jsstring) :
  forall (i : nat) (es : list (list float)),
    getWhere fp (zipRecords fp hash i chunks es) =
    zipRecords fp hash i chunks es.
Proof.
  unfold getWhere. induction chunks as [|c cs IH]; intros i es;
    [reflexivity|].
  destruct es as [|e es]; [reflexivity|]. simpl.
  unfold hasPath at 1. simpl. rewrite eqs_refl, IH. reflexivity.
Qed.

Lemma getWhere_zipRecords_other (fp fp' hash : jsstring)
  (chunks : list jsstring) :
  fp' <> fp ->
  forall (i : nat) (es : list (list float)),
    getWhere fp' (zipRecords fp hash i chunks es) = [].
Proof.
  intro Hne. unfold getWhere. induction chunks as [|c cs IH]; intros i es;
    [reflexivity|].
  destruct es as [|e es]; [reflexivity|]. simpl.
  unfold hasPath at 1. simpl. rewrite (eqs_false fp fp'), IH;
    [reflexivity|]. intro E. apply Hne. symmetry. exact E.
Qed.

Lemma zipRecords_documents (fp hash : jsstring) (chunks : list jsstring) :
  forall (i : nat) (es : list (list float)),
    List.length es = List.length chunks ->
    map v_document (zipRecords fp hash i chunks es) = chunks /\
    map v_id (zipRecords fp hash i chunks es) =
      map (chunkId fp) (seq i (List.length chunks)) /\
    map v_embedding (zipRecords fp hash i chunks es) = es.
Proof.
  induction chunks as [|c cs IH]; intros i es Hlen.
  - destruct es; [|discriminate Hlen]. repeat split; reflexivity.
  - destruct es as [|e es]; [discriminate Hlen|]. simpl in Hlen.
    injection Hlen as Hlen. destruct (IH (S i) es Hlen) as (H1 & H2 & H3).
    simpl. rewrite H1, H2, H3. repeat split; reflexivity.
Qed.

Lemma zipRecords_hash (fp hash : jsstring) (chunks : list jsstring) :
  forall (i : nat) (es : list (list float)) (r : VectorRecord),
    In r (zipRecords fp hash i chunks es) ->
    fileHash (v_meta r) = Some hash /\ filePath (v_meta r) = Some fp.
Proof.
  induction chunks as [|c cs IH]; intros i es r Hr; [destruct Hr|].
  destruct es as [|e es]; [destruct Hr|]. destruct Hr as [<- | Hr].
  - split; reflexivity.
  - exact (IH _ _ _ Hr).
Qed.

Section IngestionMore.

Variable splitText : jsstring -> list jsstring.
Variable hashContent : jsstring -> jsstring.
Variable embedTexts : list jsstring -> Result (list (list float)).

Local Abbreviation ingest := (ingestRoute splitText hashContent embedTexts).

(** The shapes that the stores can have after a request. *)
Lemma ingest_state_shapes (fp text : jsstring) (s : Stores) :
  snd (ingest (Some fp) (Some text) s) = s \/
  collection (snd (ingest (Some fp) (Some text) s)) =
    deleteWhere fp (collection s) \/
  exists es, collection (snd (ingest (Some fp) (Some text) s)) =
     deleteWhere fp (collection s) ++
     zipRecords fp (hashContent text) 0 (splitText text) es.
Proof.
  unfold ingestRoute.
  destruct (negb (truthy (Some fp)) || negb (truthy (Some text)));
    [left; reflexivity|].
  destruct (isPDFFile fp); [left; reflexivity|].
  destruct (negb (withinLimits splitText text)); [left; reflexivity|].
  cbv zeta.
  destruct (match existingHash fp (collection s) with
            | Some h => eqs h (hashContent text)
            | None => false
            end); [left; reflexivity|].
  unfold ingestTextIntoChroma.
  destruct (len (trim text) =? 0); [right; left; reflexivity|].
  destruct (splitText text) as [|chunk chunks] eqn:Es;
    [right; left; reflexivity|].
  cbn [miniSearch collection].
  destruct (addAll (lexicalDocsOf fp (chunk :: chunks)) (miniSearch s))
    as [[[]|e0] index]; [|right; left; reflexivity].
  destruct (embedTexts (chunk :: chunks)) as [embeddings|e0];
    [|right; left; reflexivity].
  destruct (negb (List.length embeddings =? List.length (chunk :: chunks)));
    [right; left; reflexivity|].
  right. right. exists embeddings. reflexivity.
Qed.

End IngestionMore.


Section IngestionExtras.

Variable splitText : jsstring -> list jsstring.
Variable hashContent : jsstring -> jsstring.
Variable embedTexts : list jsstring -> Result (list (list float)).

Local Abbreviation ingest := (ingestRoute splitText hashContent embedTexts).

(** X21.  Whatever the outcome of a request for one source, the vector
    records of every other source are left as they were. *)
Theorem ingest_leaves_other_sources (fp text fp' : jsstring) (s : Stores) :
  fp' <> fp ->
  getWhere fp' (collection (snd (ingest (Some fp) (Some text) s))) =
  getWhere fp' (collection s).
Proof.
  intro Hne.
  destruct (ingest_state_shapes splitText hashContent embedTexts fp text s)
    as [-> | [-> | [es ->]]].
  - reflexivity.
  - apply getWhere_deleteWhere_other. exact Hne.
  - rewrite getWhere_app, (getWhere_zipRecords_other fp fp' _ _ Hne),
      app_nil_r.
    apply getWhere_deleteWhere_other. exact Hne.
Qed.

(** X22.  After a successful ingestion the vector store holds, for the
    source, exactly the chunks of the text, in order, under the ids
    [path_0], [path_1], ..., each with the hash of the text; the lexical
    index has grown by one document per chunk, and the chunks are between
    1 and 300. *)
Theorem ingested_source_is_its_chunks (fp text : jsstring) (s s1 : Stores) :
  ingest (Some fp) (Some text) s = (Ingested fp, s1) ->
  map v_document (getWhere fp (collection s1)) = splitText text /\
  map v_id (getWhere fp (collection s1)) =
    map (chunkId fp) (seq 0 (List.length (splitText text))) /\
  (forall r, In r (getWhere fp (collection s1)) ->
             fileHash (v_meta r) = Some (hashContent text)) /\
  miniSearch s1 = miniSearch s ++ lexicalDocsOf fp (splitText text) /\
  0 < List.length (splitText text) <= CHROMA_RECORD_QUOTA.
Proof.
  intro H. unfold ingestRoute in H.
  destruct (negb (truthy (Some fp)) || negb (truthy (Some text)));
    [discriminate H|].
  destruct (isPDFFile fp); [discriminate H|].
  destruct (negb (withinLimits splitText text)) eqn:Elim; [discriminate H|].
  cbv zeta in H.
  destruct (match existingHash fp (collection s) with
            | Some h => eqs h (hashContent text)
            | None => false
            end); [discriminate H|].
  unfold ingestTextIntoChroma in H. unfold withinLimits in Elim.
  destruct (len (trim text) =? 0); [discriminate H|].
  destruct (splitText text) as [|chunk chunks] eqn:Es; [discriminate H|].
  simpl miniSearch in H. simpl collection in H.
  destruct (addAll (lexicalDocsOf fp (chunk :: chunks)) (miniSearch s))
    as [[[]|e0] index] eqn:Ea; [|discriminate H].
  destruct (embedTexts (chunk :: chunks)) as [embeddings|e0];
    [|discriminate H].
  destruct (negb (List.length embeddings =? List.length (chunk :: chunks)))
    eqn:El; [discriminate H|].
  apply (f_equal snd) in H. cbn [snd] in H. subst s1.
  cbn [collection miniSearch].
  apply negb_false_iff in El. apply Nat.eqb_eq in El.
  rewrite getWhere_app, getWhere_deleteWhere, getWhere_zipRecords.
  rewrite app_nil_l.
  destruct (zipRecords_documents fp (hashContent text) (chunk :: chunks)
              0 embeddings El) as (H1 & H2 & _).
  split; [exact H1|]. split; [exact H2|]. split.
  - intros r Hr.
    exact (proj1 (zipRecords_hash fp (hashContent text) _ _ _ r Hr)).
  - split; [apply (addAll_Ok _ _ _ Ea)|].
    apply negb_false_iff in Elim. apply andb_prop in Elim.
    destruct Elim as [_ Elim]. apply Nat.leb_le in Elim.
    split; [simpl; lia | exact Elim].
Qed.


End IngestionExtras.

Lemma ingest_leaves_other_sources_witness :
  getWhere otherPath
    (collection (snd (ingestRoute oneChunk plainHash flatEmbedding
                        (Some kbPath) (Some kbText2) twoSources))) =
  getWhere otherPath (collection twoSources).
Proof.
  apply (ingest_leaves_other_sources oneChunk plainHash flatEmbedding
           kbPath kbText2 otherPath twoSources).
  vm_compute. discriminate.
Defined.

Lemma ingested_source_is_its_chunks_witness :
  map v_document (getWhere kbPath (collection afterFirstIngest)) = [kbText1].
Proof.
  refine (proj1 (ingested_source_is_its_chunks
                   oneChunk plainHash flatEmbedding kbPath kbText1
                   emptyStores afterFirstIngest _)).
  vm_compute. reflexivity.
Defined.


(** The same request for the path of a PDF file is answered 400 and leaves
    the stores as they were. *)
Lemma blank_content_for_pdf_path :
  ingestRoute oneChunk plainHash flatEmbedding
              (Some (str "paper.PDF")) (Some (str "   ")) afterFirstIngest =
  (Failed 400 (str "Invalid payload"), afterFirstIngest).
Proof. vm_compute. reflexivity. Qed.

End IngestMore.

Module KnowledgeFacts.
Import JsString Chat HybridSearch ChatRoute Ingest Knowledge Sessions
       TokenEstimator Vocabulary Vocabulary4 Examples Examples2 JsStringFacts
       IngestFacts IngestMore.

(** ** Knowledge routes *)

Lemma existsb_eqs (p : jsstring) (l : list jsstring) :
  existsb (eqs p) l = true <-> In p l.
Proof.
  rewrite existsb_exists. split.
  - intros (x & Hx & E). apply eqs_true in E. subst x. exact Hx.
  - intro H. exists p. split; [exact H | apply eqs_refl].
Qed.

Lemma addPath_In (seen : list jsstring) (path p : jsstring) :
  In p (addPath seen path) <-> In p seen \/ p = path.
Proof.
  unfold addPath. destruct (existsb (eqs path) seen) eqn:E.
  - apply existsb_eqs in E. split; [auto|]. intros [H | ->]; assumption.
  - rewrite in_app_iff. simpl. split.
    + intros [H | [-> | []]]; auto.
    + intros [H | ->]; auto.
Qed.

Lemma addPath_NoDup (seen : list jsstring) (path : jsstring) :
  NoDup seen -> NoDup (addPath seen path).
Proof.
  intro H. unfold addPath. destruct (existsb (eqs path) seen) eqn:E;
    [exact H|].
  apply NoDup_app; [exact H | constructor; [intros [] | constructor] |].
  intros x Hx [Hx' | []]. subst x.
  assert (existsb (eqs path) seen = true) as E'
    by (apply existsb_eqs; exact Hx).
  congruence.
Qed.

Lemma filePaths_fold_In (p : jsstring) (c : list VectorRecord) :
  forall seen,
    In p (fold_left (fun seen r =>
                       match filePath (v_meta r) with
                       | Some (x :: q) => addPath seen (x :: q)
                       | _ => seen
                       end) c seen) <->
    In p seen \/
    (p <> [] /\ exists r, In r c /\ filePath (v_meta r) = Some p).
Proof.
  induction c as [|r c IH]; intro seen; simpl.
  - split; [auto|]. intros [H | (_ & r & [] & _)]. exact H.
  - rewrite IH. destruct (filePath (v_meta r)) as [[|x q]|] eqn:E.
    + split.
      * intros [H | (Hp & r' & Hr' & E')]; [auto|].
        right. split; [exact Hp|]. exists r'. auto.
      * intros [H | (Hp & r' & [<- | Hr'] & E')]; [auto | |].
        -- rewrite E in E'. inversion E'. subst p. contradiction.
        -- right. split; [exact Hp|]. exists r'. auto.
    + rewrite addPath_In. split.
      * intros [[H | ->] | (Hp & r' & Hr' & E')]; [auto | |].
        -- right. split; [discriminate|]. exists r. auto.
        -- right. split; [exact Hp|]. exists r'. auto.
      * intros [H | (Hp & r' & [<- | Hr'] & E')]; [auto | |].
        -- rewrite E in E'. inversion E'. auto.
        -- right. split; [exact Hp|]. exists r'. auto.
    + split.
      * intros [H | (Hp & r' & Hr' & E')]; [auto|].
        right. split; [exact Hp|]. exists r'. auto.
      * intros [H | (Hp & r' & [<- | Hr'] & E')]; [auto | |].
        -- rewrite E in E'. discriminate E'.
        -- right. split; [exact Hp|]. exists r'. auto.
Qed.

Lemma filePaths_fold_NoDup (c : list VectorRecord) :
  forall seen,
    NoDup seen ->
    NoDup (fold_left (fun seen r =>
                        match filePath (v_meta r) with
                        | Some (x :: q) => addPath seen (x :: q)
                        | _ => seen
                        end) c seen).
Proof.
  induction c as [|r c IH]; intros seen H; simpl; [exact H|].
  apply IH. destruct (filePath (v_meta r)) as [[|x q]|]; try exact H.
  apply addPath_NoDup. exact H.
Qed.

Lemma getWhere_nonempty (p : jsstring) (c : list VectorRecord) :
  getWhere p c <> [] <-> exists r, In r c /\ filePath (v_meta r) = Some p.
Proof.
  unfold getWhere. split.
  - intro H. destruct (filter _ c) as [|r l] eqn:E; [contradiction|].
    assert (In r (filter (fun r => hasPath p (v_meta r)) c)) as Hr
      by (rewrite E; left; reflexivity).
    apply filter_In in Hr. destruct Hr as [Hr Hp]. exists r.
    split; [exact Hr|]. unfold hasPath in Hp.
    destruct (filePath (v_meta r)) as [f|]; [|discriminate Hp].
    apply eqs_true in Hp. subst f. reflexivity.
  - intros (r & Hr & E) Hnil.
    assert (In r (filter (fun r => hasPath p (v_meta r)) c)) as Hin.
    { apply filter_In. split; [exact Hr|]. unfold hasPath. rewrite E.
      apply eqs_refl. }
    rewrite Hnil in Hin. destruct Hin.
Qed.

Lemma listedPaths_In (s : Stores) (p : jsstring) :
  In p (listedPaths s) <-> p <> [] /\ getWhere p (collection s) <> [].
Proof.
  unfold listedPaths, listKnowledge. rewrite map_map. simpl.
  rewrite map_id. unfold filePathsOf. rewrite filePaths_fold_In.
  rewrite getWhere_nonempty. split.
  - intros [[] | H]. exact H.
  - intro H. right. exact H.
Qed.

Lemma getWhere_deleteIds (fp : jsstring) (c : list VectorRecord) :
  getWhere fp (deleteIds (map v_id (getWhere fp c)) c) = [].
Proof.
  destruct (getWhere fp (deleteIds (map v_id (getWhere fp c)) c))
    as [|r l] eqn:E; [reflexivity|].
  assert (In r (getWhere fp (deleteIds (map v_id (getWhere fp c)) c)))
    as Hr by (rewrite E; left; reflexivity).
  unfold getWhere at 1 in Hr. apply filter_In in Hr.
  destruct Hr as [Hr Hp]. unfold deleteIds in Hr. apply filter_In in Hr.
  destruct Hr as [Hr Hid]. apply negb_true_iff in Hid.
  assert (existsb (eqs (v_id r)) (map v_id (getWhere fp c)) = true) as Hin.
  { apply existsb_eqs. apply in_map. unfold getWhere. apply filter_In.
    split; assumption. }
  congruence.
Qed.

Lemma deleteIds_deleteWhere (fp : jsstring) (c : list VectorRecord) :
  NoDup (map v_id c) ->
  deleteIds (map v_id (getWhere fp c)) c = deleteWhere fp c.
Proof.
  intro Hnd. unfold deleteIds, deleteWhere. apply filter_ext_in.
  intros r Hr. f_equal.
  destruct (hasPath fp (v_meta r)) eqn:Hp.
  - apply existsb_eqs. apply in_map. unfold getWhere. apply filter_In.
    split; assumption.
  - destruct (existsb (eqs (v_id r)) (map v_id (getWhere fp c))) eqn:E;
      [|reflexivity].
    apply existsb_eqs in E. apply in_map_iff in E.
    destruct E as (r' & Hid & Hr'). unfold getWhere in Hr'.
    apply filter_In in Hr'. destruct Hr' as [Hr' Hp'].
    assert (r' = r) as ->; [|congruence].
    clear Hp Hp'. induction c as [|x c IH]; [destruct Hr|].
    simpl in Hnd. inversion Hnd as [|? ? Hx Hnd']; subst.
    destruct Hr as [-> | Hr], Hr' as [-> | Hr'].
    + reflexivity.
    + exfalso. apply Hx. rewrite <- Hid. apply in_map. exact Hr'.
    + exfalso. apply Hx. rewrite Hid. apply in_map. exact Hr.
    + exact (IH Hnd' Hr Hr').
Qed.


(** X24.  The listing of the knowledge base names every path that has a
    record in the vector store, each once, and no other path. *)
Theorem listKnowledge_paths (s : Stores) :
  NoDup (listedPaths s) /\
  forall p, In p (listedPaths s) <->
            p <> [] /\ getWhere p (collection s) <> [].
Proof.
  split; [|intro p; apply listedPaths_In].
  unfold listedPaths, listKnowledge. rewrite map_map. simpl.
  rewrite map_id. apply filePaths_fold_NoDup. constructor.
Qed.


(** X26.  A deletion removes every vector record of the path and reports
    their number; the path is no longer listed, and the lexical index is
    left as it was.  When record ids are unique, the records of other
    paths are kept. *)
Theorem delete_removes_source (fp fp' : jsstring) (n : nat) (s s1 : Stores) :
  deleteKnowledge (Some fp) s = (Deleted fp' n, s1) ->
  fp' = fp /\
  n = List.length (getWhere fp (collection s)) /\ 0 < n /\
  getWhere fp (collection s1) = [] /\
  ~ In fp (listedPaths s1) /\
  miniSearch s1 = miniSearch s /\
  (NoDup (map v_id (collection s)) ->
   collection s1 = deleteWhere fp (collection s)).
Proof.
  unfold deleteKnowledge. intro H.
  destruct (negb (truthy (Some fp))); [discriminate H|].
  cbv zeta in H. rewrite length_map in H.
  destruct (List.length (getWhere fp (collection s)) =? 0) eqn:El;
    [discriminate H|].
  apply Nat.eqb_neq in El. inversion H; subst; clear H.
  cbn [collection miniSearch].
  split; [reflexivity|]. split; [reflexivity|]. split; [lia|].
  split; [apply getWhere_deleteIds|]. split.
  - intro Hin. apply listedPaths_In in Hin. destruct Hin as [_ Hin].
    apply Hin. cbn [collection]. apply getWhere_deleteIds.
  - split; [reflexivity|]. apply deleteIds_deleteWhere.
Qed.


Lemma delete_removes_source_witness :
  getWhere kbPath
    (collection (snd (deleteKnowledge (Some kbPath) twoSources))) = [] /\
  listedPaths (snd (deleteKnowledge (Some kbPath) twoSources)) = [otherPath].
Proof.
  split; [|vm_compute; reflexivity].
  refine (proj1 (proj2 (proj2 (proj2
            (delete_removes_source kbPath kbPath 1 twoSources
               (snd (deleteKnowledge (Some kbPath) twoSources)) _))))).
  vm_compute. reflexivity.
Defined.

(** ** Ingestion and deletion together *)



Section Blocked.

Variable splitText : jsstring -> list jsstring.
Variable hashContent : jsstring -> jsstring.
Variable embedTexts : list jsstring -> Result (list (list float)).

Local Abbreviation ingest := (ingestRoute splitText hashContent embedTexts).





End Blocked.




End KnowledgeFacts.

Module QuotaFacts.
Import JsString Ingest Sessions TokenEstimator.

(** ** Session titles and the quota estimate *)

(** X29.  A session title is never empty and has at most 33 code units: a
    first message of at most 30 code units is the title, a longer one is
    cut after 30 and followed by three dots, and without a first message
    the title is [New Chat]. *)
Theorem sessionTitle_shape (firstMessage : option jsstring) :
  1 <= len (sessionTitle firstMessage) <= 33 /\
  match firstMessage with
  | Some (c :: m) =>
      if len (c :: m) <=? 30 then sessionTitle firstMessage = c :: m
      else sessionTitle firstMessage = firstn 30 (c :: m) ++ str "..." /\
           len (sessionTitle firstMessage) = 33
  | _ => sessionTitle firstMessage = str "New Chat"
  end.
Proof.
  unfold sessionTitle. destruct firstMessage as [[|c m]|];
    [split; [simpl; lia | reflexivity] | | split; [simpl; lia | reflexivity]].
  destruct (30 <? len (c :: m)) eqn:E.
  - apply Nat.ltb_lt in E.
    assert ((len (c :: m) <=? 30) = false) as -> by (apply Nat.leb_gt; exact E).
    assert (len (firstn 30 (c :: m) ++ str "...") = 33) as H.
    { unfold len in *. rewrite length_app, length_firstn.
      change (List.length (str "...")) with 3. lia. }
    split; [lia|]. split; [reflexivity | exact H].
  - apply Nat.ltb_ge in E.
    assert ((len (c :: m) <=? 30) = true) as -> by (apply Nat.leb_le; exact E).
    split; [|reflexivity]. unfold len in *. simpl List.length in *. lia.
Qed.

Section Limits.

Variable splitText : jsstring -> list jsstring.

(** X30.  The check of the ingest route agrees with the two flags of the
    estimate, and the token limit never decides: 300 chunks of 180 tokens
    stay below 100000, so a text is within the limits exactly when it has
    at most 300 chunks, and whenever the token limit is listed as exceeded
    the record quota is listed too. *)
Theorem limits_decided_by_chunks (text : jsstring) :
  let estimate := estimateTokensForText splitText text in
  withinLimits splitText text =
    withinLimit estimate && withinChromaQuota estimate /\
  withinLimits splitText text =
    (estimatedChunks estimate <=? CHROMA_RECORD_QUOTA) /\
  (issuesOf estimate = [] \/
   issuesOf estimate = [ChromaQuotaExceeded] \/
   issuesOf estimate = [TokenLimitExceeded; ChromaQuotaExceeded]) /\
  maxChunksAllowed = CHROMA_RECORD_QUOTA.
Proof.
  cbv zeta. unfold withinLimits, estimateTokensForText, issuesOf.
  destruct (len (trim text) =? 0).
  - cbn [withinLimit withinChromaQuota estimatedChunks].
    split; [reflexivity|]. split; [reflexivity|].
    split; [left; reflexivity|reflexivity].
  - cbn [withinLimit withinChromaQuota estimatedChunks].
    split; [reflexivity|].
    unfold ESTIMATED_TOKENS_PER_CHUNK, TOKEN_LIMIT_PER_MINUTE,
      CHROMA_RECORD_QUOTA.
    destruct (List.length (splitText text) <=? 300) eqn:E.
    + apply Nat.leb_le in E.
      assert ((List.length (splitText text) * 180 <=? 100 * 1000) = true)
        as -> by (apply Nat.leb_le; lia).
      split; [reflexivity|]. split; [left; reflexivity|reflexivity].
    + split; [apply andb_false_r|]. split; [|reflexivity].
      destruct (List.length (splitText text) * 180 <=? 100 * 1000);
        [right; left; reflexivity | right; right; reflexivity].
Qed.

End Limits.

End QuotaFacts.
